(** * Berlin logistics agent: feature encoding, drift monitor, generator

    Shallow embedding of [scripts/tools.py] (input normalisation, the
    feature vector built by [predict_delivery_time] and
    [explain_delivery_prediction], [check_data_drift], [anonymize_pii],
    [calculate_delivery_distance], [get_weather_risk],
    [get_location_name]), of the draws, the distance and the duration of a
    generated row in [scripts/generate_data.py], and of the label tables of
    [scripts/train.py].

    Conventions of the embedding:
    - a Python [str] is a Rocq [string]; one [ascii] stands for one code
      point in U+0000..U+00FF, on which [str.lower] and [str.strip] are
      written out below;
    - a Python [float] is a primitive binary64 [float]; a Python [int] is a
      [Z]; [int / int] is the correctly rounded quotient;
    - a [dict] literal is an association list in insertion order, because
      [list(d.keys())] is iterated in that order;
    - an exception is a value of [pyexn] in the error monad [py];
    - [math.sin], [math.cos], [math.atan2] and [x ** 2], whose values come
      from the platform's C library, are the fields of a [math_module];
    - what a web request comes back with is an argument of the function
      that makes it. *)

From Stdlib Require Import ZArith NArith List String Ascii Bool Lia.
From Stdlib Require Import DecimalString Permutation.
From Stdlib Require Import Uint63 Floats FloatLemmas.
Import ListNotations.

Local Open Scope string_scope.
Local Open Scope Z_scope.

(* ===================================================================== *)
(** * Python strings *)
(* ===================================================================== *)

Module PyStr.

(** [c.isspace()] for a code point below U+0100: TAB..CR, FS..US, SPACE,
    NEL (U+0085) and NBSP (U+00A0). *)
Definition isspace (c : ascii) : bool :=
  let n := N_of_ascii c in
  ((9 <=? n) && (n <=? 13) || (28 <=? n) && (n <=? 32)
   || (n =? 133) || (n =? 160))%N.

(** [c.lower()] for a code point below U+0100: A..Z and the accented
    capitals U+00C0..U+00DE (the multiplication sign U+00D7 apart) move up
    by 32; everything else is unchanged. *)
Definition lower_char (c : ascii) : ascii :=
  let n := N_of_ascii c in
  if ((65 <=? n) && (n <=? 90)
      || (192 <=? n) && (n <=? 222) && negb (n =? 215))%N
  then ascii_of_N (n + 32) else c.

(** [s.lower()] *)
Fixpoint lower (s : string) : string :=
  match s with
  | EmptyString => EmptyString
  | String c s' => String (lower_char c) (lower s')
  end.

(** [s.lstrip()] *)
Fixpoint lstrip (s : string) : string :=
  match s with
  | EmptyString => EmptyString
  | String c s' => if isspace c then lstrip s' else s
  end.

(** [s.rstrip()] *)
Fixpoint rstrip (s : string) : string :=
  match s with
  | EmptyString => EmptyString
  | String c s' =>
      match rstrip s' with
      | EmptyString => if isspace c then EmptyString else String c EmptyString
      | r => String c r
      end
  end.

(** [s.strip()] *)
Definition strip (s : string) : string := rstrip (lstrip s).

(** [s.startswith(p)] *)
Fixpoint startswith (p s : string) : bool :=
  match p, s with
  | EmptyString, _ => true
  | String _ _, EmptyString => false
  | String a p', String b s' => Ascii.eqb a b && startswith p' s'
  end.

(** [sub in s] *)
Fixpoint str_in (sub s : string) : bool :=
  startswith sub s
  || match s with
     | EmptyString => false
     | String _ s' => str_in sub s'
     end.

(** [sub] occurs in [s] as a contiguous block. *)
Definition Substring (sub s : string) : Prop :=
  exists pre suf, s = pre ++ sub ++ suf.

End PyStr.

(* ===================================================================== *)
(** * Dictionaries with string keys, in insertion order *)
(* ===================================================================== *)

Module PyDict.

Definition dict (V : Type) : Type := list (string * V).

(** [list(d.keys())] *)
Definition keys {V} (d : dict V) : list string := map fst d.

(** [d.get(k)] *)
Fixpoint lookup {V} (d : dict V) (k : string) : option V :=
  match d with
  | [] => None
  | (k', v) :: d' => if String.eqb k k' then Some v else lookup d' k
  end.

(** [d.get(k, dflt)] *)
Definition get {V} (d : dict V) (k : string) (dflt : V) : V :=
  match lookup d k with
  | Some v => v
  | None => dflt
  end.

End PyDict.

(* ===================================================================== *)
(** * Feature encoder ([scripts/tools.py]) *)
(* ===================================================================== *)

(** The [for opt in options] loop of [_normalize_input]. *)
Fixpoint normalize_loop (val_clean : string) (options : list string)
         (default : string) : string :=
  match options with
  | [] => default
  | opt :: rest =>
      if PyStr.str_in val_clean (PyStr.lower opt)
         || PyStr.str_in (PyStr.lower opt) val_clean
      then opt
      else normalize_loop val_clean rest default
  end.

Definition _normalize_input (val : string) (options : list string)
           (default : string) : string :=
  let val_clean := PyStr.lower (PyStr.strip val) in
  normalize_loop val_clean options default.

(** The one-row frame handed to the estimator and to the explainer, columns
    in the order of the dict literal. *)
Record input_df : Type := {
  distance_km : float;
  weather_code : Z;
  traffic_code : Z;
  exp_code : Z;
  vehicle_type_Scooter : Z;
  vehicle_type_Van : Z
}.

Definition columns : list string :=
  ["distance_km"; "weather_code"; "traffic_code"; "exp_code";
   "vehicle_type_Scooter"; "vehicle_type_Van"].

(** Lines 52-68 of [predict_delivery_time]. *)
Definition predict_input_df (vehicle_type weather : string) (distance : float)
           (traffic_level driver_experience : string) : input_df :=
  let weather_map := [("Sunny", 0); ("Cloudy", 1); ("Rainy", 2); ("Snow", 3)] in
  let traffic_map := [("Low", 0); ("Medium", 1); ("High", 2)] in
  let exp_map := [("Junior", 0); ("Senior", 1); ("Expert", 2)] in
  let weather := _normalize_input weather (PyDict.keys weather_map) "Cloudy" in
  let traffic_level :=
    _normalize_input traffic_level (PyDict.keys traffic_map) "Medium" in
  let driver_experience :=
    _normalize_input driver_experience (PyDict.keys exp_map) "Senior" in
  {| distance_km := distance;
     weather_code := PyDict.get weather_map weather 1;
     traffic_code := PyDict.get traffic_map traffic_level 1;
     exp_code := PyDict.get exp_map driver_experience 1;
     vehicle_type_Scooter := if PyStr.str_in "Scooter" vehicle_type then 1 else 0;
     vehicle_type_Van := if PyStr.str_in "Van" vehicle_type then 1 else 0 |}.

(** Lines 133-149 of [explain_delivery_prediction]. *)
Definition explain_input_df (vehicle_type weather : string) (distance : float)
           (traffic_level driver_experience : string) : input_df :=
  let weather_map := [("Sunny", 0); ("Cloudy", 1); ("Rainy", 2); ("Snow", 3)] in
  let traffic_map := [("Low", 0); ("Medium", 1); ("High", 2)] in
  let exp_map := [("Junior", 0); ("Senior", 1); ("Expert", 2)] in
  let weather := _normalize_input weather (PyDict.keys weather_map) "Cloudy" in
  let traffic_level :=
    _normalize_input traffic_level (PyDict.keys traffic_map) "Medium" in
  let driver_experience :=
    _normalize_input driver_experience (PyDict.keys exp_map) "Senior" in
  {| distance_km := distance;
     weather_code := PyDict.get weather_map weather 1;
     traffic_code := PyDict.get traffic_map traffic_level 1;
     exp_code := PyDict.get exp_map driver_experience 1;
     vehicle_type_Scooter := if PyStr.str_in "Scooter" vehicle_type then 1 else 0;
     vehicle_type_Van := if PyStr.str_in "Van" vehicle_type then 1 else 0 |}.

(** The fitted forest and the SHAP explainer are loaded artefacts; the tools
    only call them. *)
Definition estimator : Type := input_df -> float.

Record shap_values : Type := {
  base_values : float;
  values : list float
}.

Definition tree_explainer : Type := input_df -> shap_values.

(** What [predict_delivery_time] returns: the error text, or the text
    [f"{round(prediction, 1)} minutes"] of the estimator's output. *)
Inductive prediction_text : Type :=
| Model_not_loaded
| Minutes (prediction : float).

Definition predict_delivery_time (MODEL : option estimator)
           (vehicle_type weather : string) (distance : float)
           (traffic_level driver_experience : string) : prediction_text :=
  match MODEL with
  | None => Model_not_loaded
  | Some model =>
      Minutes (model (predict_input_df vehicle_type weather distance
                                       traffic_level driver_experience))
  end.

(** One [- name: sign impact mins] line of the explanation. *)
Record impact_line : Type := {
  line_name : string;
  line_sign : string;
  line_impact : float
}.

(** The literal [0.1] of [abs(impact) > 0.1], as the binary64 value Python
    reads it. *)
Definition display_threshold : float := 0x1.999999999999ap-4%float.

(** The [for name, impact in zip(feature_names, values)] loop. *)
Fixpoint impact_lines (names : list string) (vals : list float)
  : list impact_line :=
  match names, vals with
  | name :: names', impact :: vals' =>
      let rest := impact_lines names' vals' in
      if PrimFloat.ltb display_threshold (PrimFloat.abs impact)
      then {| line_name := name;
              line_sign := if PrimFloat.ltb 0 impact then "+" else "";
              line_impact := impact |} :: rest
      else rest
  | _, _ => []
  end.

(** What [explain_delivery_prediction] returns: the error text, or the
    header with the base value followed by the impact lines. *)
Inductive explanation_text : Type :=
| Explainer_not_loaded
| Explanation (base_value : float) (lines : list impact_line).

Definition explain_delivery_prediction (EXPLAINER : option tree_explainer)
           (vehicle_type weather : string) (distance : float)
           (traffic_level driver_experience : string) : explanation_text :=
  match EXPLAINER with
  | None => Explainer_not_loaded
  | Some explainer =>
      let sv := explainer (explain_input_df vehicle_type weather distance
                                            traffic_level driver_experience) in
      Explanation (base_values sv) (impact_lines columns (values sv))
  end.

(* ===================================================================== *)
(** * Exceptions and numbers *)
(* ===================================================================== *)

(** The exceptions the modelled code can raise; every one of them is a
    subclass of [Exception]. *)
Inductive pyexn : Type :=
| FileNotFoundError
| JSONDecodeError
| KeyError (key : string)
| TypeError
| ValueError
| ZeroDivisionError
| OverflowError.

(** A computation that returns a value or raises. *)
Definition py (A : Type) : Type := (pyexn + A)%type.

Definition ret {A} (a : A) : py A := inr a.
Definition raise {A} (e : pyexn) : py A := inl e.
Definition bind {A B} (c : py A) (k : A -> py B) : py B :=
  match c with
  | inl e => inl e
  | inr a => k a
  end.

Notation "x <- c ;; k" := (bind c (fun x => k))
  (at level 61, c at next level, right associativity).

Module PyNum.

(** An [int] as an exact, possibly unnormalised, binary value. *)
Definition exact (n : Z) : spec_float :=
  match n with
  | Z0 => S754_zero false
  | Zpos p => S754_finite false p 0
  | Zneg p => S754_finite true p 0
  end.

(** A rounded result that left the binary64 range raises. *)
Definition in_range (r : spec_float) : py float :=
  match r with
  | S754_infinity _ => raise OverflowError
  | _ => ret (SF2Prim r)
  end.

(** [float(n)]: the nearest binary64 value, ties to even;
    [OverflowError] beyond the range. *)
Definition int_to_float (n : Z) : py float :=
  in_range (binary_normalize prec emax n 0 false).

(** [a / b] on two [int]s: the correctly rounded quotient;
    [ZeroDivisionError] for [b = 0], [OverflowError] beyond the range. *)
Definition int_truediv (a b : Z) : py float :=
  if b =? 0 then raise ZeroDivisionError
  else in_range (SFdiv prec emax (exact a) (exact b)).

(** [x / y] on two [float]s: raises for a zero divisor of either sign. *)
Definition float_truediv (x y : float) : py float :=
  if PrimFloat.eqb y 0 then raise ZeroDivisionError
  else ret (PrimFloat.div x y).

(** [sum(l)] on a list of [int]s. *)
Definition sum (l : list Z) : Z := fold_left Z.add l 0.

(** [len(l)] *)
Definition len {A} (l : list A) : Z := Z.of_nat (List.length l).

End PyNum.

Module PyMath.

(** The functions of the [math] module and the power operator that the
    distance goes through; their values on ordinary arguments come from the
    platform's C library. *)
Record math_module : Type := {
  math_sin : float -> py float;
  math_cos : float -> py float;
  math_atan2 : float -> float -> float;
  float_pow2 : float -> py float
}.

(** [math.radians(x)]: [x * (pi / 180)] *)
Definition math_radians (x : float) : float :=
  PrimFloat.mul x 0x1.1df46a2529d39p-6.

(** [math.sqrt(x)]: the correctly rounded root; [ValueError] below zero. *)
Definition math_sqrt (x : float) : py float :=
  if PrimFloat.ltb x 0 then raise ValueError else ret (PrimFloat.sqrt x).

(** [n / d] rounded to the nearest integer, ties to even. *)
Definition div_half_even (n d : Z) : Z :=
  let q := n / d in
  match Z.compare (2 * (n mod d)) d with
  | Lt => q
  | Gt => q + 1
  | Eq => if Z.even q then q else q + 1
  end.

(** [round(x, 2)]: the exact value of [x] rounded to hundredths, ties to
    even, then the binary64 value nearest to that decimal; NaN, infinities
    and zeros are returned as they are. *)
Definition round2 (x : float) : py float :=
  match Prim2SF x with
  | S754_finite s m e =>
      let hundredths :=
        if 0 <=? e then Zpos m * 2 ^ e * 100
        else div_half_even (Zpos m * 100) (2 ^ (- e)) in
      match hundredths with
      | Zpos k =>
          PyNum.in_range
            (SFdiv prec emax (S754_finite s k 0) (S754_finite false 100 0))
      | _ => ret (SF2Prim (S754_zero s))
      end
  | _ => ret x
  end.

End PyMath.

(* ===================================================================== *)
(** * Drift monitor ([check_data_drift]) *)
(* ===================================================================== *)

#[local] Set Warnings "-register-all".

(** A value produced by [json.load]. *)
Inductive json : Type :=
| JNull
| JBool (b : bool)
| JInt (n : Z)
| JFloat (x : float)
| JStr (s : string)
| JArr (items : list json)
| JObj (fields : list (string * json)).

(** What [open] and [json.load] find at [../models/training_stats.json]:
    no file; a text that is not a JSON document; a JSON text with an integer
    of more than 4300 digits, which [json.load] refuses with a plain
    [ValueError]; a document that is loaded. *)
Inductive stats_file : Type :=
| Missing
| Not_json
| Integer_too_long
| Loaded (stats : json).

(** [with open(...) as f: stats = json.load(f)] *)
Definition load_stats (file : stats_file) : py json :=
  match file with
  | Missing => raise FileNotFoundError
  | Not_json => raise JSONDecodeError
  | Integer_too_long => raise ValueError
  | Loaded stats => ret stats
  end.

(** [stats[key]] *)
Definition subscript (stats : json) (key : string) : py json :=
  match stats with
  | JObj fields =>
      match PyDict.lookup fields key with
      | Some v => ret v
      | None => raise (KeyError key)
      end
  | _ => raise TypeError
  end.

(** The coercion of the right operand of [float - v] and [float / v]:
    [float] as it is, [int] and [bool] converted, anything else a
    [TypeError]. *)
Definition as_float (v : json) : py float :=
  match v with
  | JFloat x => ret x
  | JInt n => PyNum.int_to_float n
  | JBool b => ret (if b then 1%float else 0%float)
  | _ => raise TypeError
  end.

Inductive verdict : Type :=
| Drift_detected
| Data_stable.

(** The numbers printed in the report and the closing sentence. *)
Record drift_report : Type := {
  baseline_mean : float;
  todays_mean : float;
  z_score : float;
  conclusion : verdict
}.

(** The body of the [try] block. *)
Definition drift_body (file : stats_file) (daily_delivery_times : list Z)
  : py drift_report :=
  stats <- load_stats file ;;
  base_mean <- subscript stats "mean_duration" ;;
  base_std <- subscript stats "std_duration" ;;
  new_mean <- PyNum.int_truediv (PyNum.sum daily_delivery_times)
                                (PyNum.len daily_delivery_times) ;;
  m <- as_float base_mean ;;
  s <- as_float base_std ;;
  z <- PyNum.float_truediv (PrimFloat.sub new_mean m) s ;;
  ret {| baseline_mean := m;
         todays_mean := new_mean;
         z_score := z;
         conclusion := if PrimFloat.ltb 2 (PrimFloat.abs z)
                       then Drift_detected else Data_stable |}.

(** What [check_data_drift] returns: the report text, or
    [f"Error checking drift: {e}"] from the [except Exception] handler. *)
Inductive drift_text : Type :=
| Report (r : drift_report)
| Error_checking_drift (e : pyexn).

Definition check_data_drift (file : stats_file)
           (daily_delivery_times : list Z) : drift_text :=
  match drift_body file daily_delivery_times with
  | inr r => Report r
  | inl e => Error_checking_drift e
  end.

(** A baseline file as [train.py] writes it. *)
Definition training_stats (mean_duration std_duration : float) : stats_file :=
  Loaded (JObj [("mean_duration", JFloat mean_duration);
                ("std_duration", JFloat std_duration);
                ("description",
                 JStr "Baseline delivery stats from training data")]).

(* ===================================================================== *)
(** * Duration model of the generator ([scripts/generate_data.py]) *)
(* ===================================================================== *)

Module Generator.

(** The outcomes of the random draws that the duration depends on, with
    the distance computed from the jittered coordinates. *)
Record draw : Type := {
  distance : float;
  vehicle : string;
  weather : string;
  traffic : string;
  driver_exp : string;
  noise : float
}.

(** Lines 80-82. *)
Definition speed (d : draw) : float :=
  if String.eqb (vehicle d) "Bike" then 15%float
  else if String.eqb (vehicle d) "Scooter" then 25%float
  else 30%float.

(** [if cond: multipliers *= factor] *)
Definition scale_if (cond : bool) (factor multipliers : float) : float :=
  if cond then PrimFloat.mul multipliers factor else multipliers.

(** Lines 87-99; the literals are the binary64 values of 1.2, 1.5, 1.1
    and 0.9. *)
Definition multipliers (d : draw) : float :=
  let m := 1%float in
  let m := scale_if (String.eqb (weather d) "Rainy") 0x1.3333333333333p+0 m in
  let m := scale_if (String.eqb (weather d) "Snow") 1.5 m in
  let m := scale_if (String.eqb (traffic d) "Medium") 0x1.3333333333333p+0 m in
  let m := scale_if (String.eqb (traffic d) "High") 1.5 m in
  let m := scale_if (String.eqb (driver_exp d) "Junior") 0x1.199999999999ap+0 m in
  let m := scale_if (String.eqb (driver_exp d) "Expert") 0x1.ccccccccccccdp-1 m in
  m.

(** Lines 84, 101 and 104. *)
Definition final_duration (d : draw) : float :=
  let base_duration :=
    PrimFloat.mul (PrimFloat.div (distance d) (speed d)) 60 in
  PrimFloat.add (PrimFloat.mul base_duration (multipliers d)) (noise d).

(** A value that is an [int] or a [float], as [max(5, x)] returns. *)
Inductive number : Type :=
| Int (n : Z)
| Float (x : float).

(** [max(5, x)]: the first argument stays unless the second is greater. *)
Definition max_5 (x : float) : number :=
  if PrimFloat.ltb 5 x then Float x else Int 5.

(** [int(x)] on a [float]: truncation towards zero. *)
Definition int_of_float (x : float) : py Z :=
  match Prim2SF x with
  | S754_zero _ => ret 0
  | S754_nan => raise ValueError
  | S754_infinity _ => raise OverflowError
  | S754_finite s m e =>
      let magnitude := Z.shiftl (Zpos m) e in
      ret (if s then - magnitude else magnitude)
  end.

(** [int(v)] *)
Definition int (v : number) : py Z :=
  match v with
  | Int n => ret n
  | Float x => int_of_float x
  end.

(** Line 125: the [delivery_duration_mins] field of the row. *)
Definition delivery_duration_mins (d : draw) : py Z :=
  int (max_5 (final_duration d)).

(** The [DISTRICTS] table; the coordinates are the binary64 values of the
    decimal literals. *)
Definition DISTRICTS : PyDict.dict (float * float) :=
  [("Mitte", (0x1.a428f5c28f5c3p+5, 0x1.acf5c28f5c28fp+3));
   ("Kreuzberg", (0x1.a3fc1bda5119dp+5, 0x1.ac89a02752546p+3));
   ("Prenzlauer Berg", (0x1.a456a161e4f76p+5, 0x1.ad3f7ced91687p+3));
   ("Charlottenburg", (0x1.a422339c0ebeep+5, 0x1.a99999999999ap+3));
   ("Schoneberg", (0x1.a3db8bac710cbp+5, 0x1.ab6d5cfaacd9fp+3));
   ("Friedrichshain", (0x1.a417f62b6ae7dp+5, 0x1.addd97f62b6aep+3));
   ("Neuk" ++ String "246"%char "lln",
    (0x1.a3d70a3d70a3dp+5, 0x1.addd97f62b6aep+3));
   ("Pankow", (0x1.a4889a0275254p+5, 0x1.acccccccccccdp+3));
   ("Lichtenberg", (0x1.a44432ca57a78p+5, 0x1.b000000000000p+3));
   ("Spandau", (0x1.a44432ca57a78p+5, 0x1.a651eb851eb85p+3));
   ("Tempelhof", (0x1.a3bbcd35a8588p+5, 0x1.ac43fe5c91d15p+3));
   ("Steglitz", (0x1.a397f62b6ae7dp+5, 0x1.aa4b5dcc63f14p+3))]%float.

(** [DISTRICTS[key]] *)
Definition district (key : string) : py (float * float) :=
  match PyDict.lookup DISTRICTS key with
  | Some coordinates => ret coordinates
  | None => raise (KeyError key)
  end.

(** [haversine], lines 28-40. *)
Definition haversine (M : PyMath.math_module) (lat1 lon1 lat2 lon2 : float)
  : py float :=
  let R := 6371%float in
  let phi1 := PyMath.math_radians lat1 in
  let phi2 := PyMath.math_radians lat2 in
  let dphi := PyMath.math_radians (PrimFloat.sub lat2 lat1) in
  let dlambda := PyMath.math_radians (PrimFloat.sub lon2 lon1) in
  sin_dphi <- PyMath.math_sin M (PrimFloat.div dphi 2) ;;
  sq_dphi <- PyMath.float_pow2 M sin_dphi ;;
  cos1 <- PyMath.math_cos M phi1 ;;
  cos2 <- PyMath.math_cos M phi2 ;;
  sin_dlambda <- PyMath.math_sin M (PrimFloat.div dlambda 2) ;;
  sq_dlambda <- PyMath.float_pow2 M sin_dlambda ;;
  let a := PrimFloat.add sq_dphi
             (PrimFloat.mul (PrimFloat.mul cos1 cos2) sq_dlambda) in
  root_a <- PyMath.math_sqrt a ;;
  root_1a <- PyMath.math_sqrt (PrimFloat.sub 1 a) ;;
  let c := PrimFloat.mul 2 (PyMath.math_atan2 M root_a root_1a) in
  ret (PrimFloat.mul R c).

(** The outcomes of the random draws of one iteration of the loop. *)
Record sample : Type := {
  start_dist : string;
  end_dist : string;
  start_lat_jitter : float;
  start_lon_jitter : float;
  end_lat_jitter : float;
  end_lon_jitter : float;
  sampled_vehicle : string;
  sampled_weather : string;
  sampled_traffic : string;
  sampled_driver_exp : string;
  sampled_noise : float
}.

(** The two fields of the appended row that the generator invariant is
    about.  The other columns are left out, among them the pickup and
    dropoff coordinates, which the row stores rounded to four decimals. *)
Record trip_row : Type := {
  row_distance_km : float;
  row_delivery_duration_mins : Z
}.

(** One iteration of the loop, lines 46-126, as far as the distance and the
    duration of the row are concerned; the duration is computed from the
    distance before it is rounded. *)
Definition generate_row (M : PyMath.math_module) (s : sample) : py trip_row :=
  start <- district (start_dist s) ;;
  stop <- district (end_dist s) ;;
  let start_lat := PrimFloat.add (fst start) (start_lat_jitter s) in
  let start_lon := PrimFloat.add (snd start) (start_lon_jitter s) in
  let end_lat := PrimFloat.add (fst stop) (end_lat_jitter s) in
  let end_lon := PrimFloat.add (snd stop) (end_lon_jitter s) in
  distance_km <- haversine M start_lat start_lon end_lat end_lon ;;
  let d := {| distance := distance_km;
              vehicle := sampled_vehicle s;
              weather := sampled_weather s;
              traffic := sampled_traffic s;
              driver_exp := sampled_driver_exp s;
              noise := sampled_noise s |} in
  rounded <- PyMath.round2 distance_km ;;
  mins <- delivery_duration_mins d ;;
  ret {| row_distance_km := rounded; row_delivery_duration_mins := mins |}.

End Generator.

(* ===================================================================== *)
(** * Specification-level predicates *)
(* ===================================================================== *)

(** The containment test as [_normalize_input] performs it: ignoring case,
    on the input with surrounding whitespace removed; the input occurs in
    the option or the option occurs in the input. *)
Definition ci_match (val opt : string) : Prop :=
  PyStr.Substring (PyStr.lower (PyStr.strip val)) (PyStr.lower opt)
  \/ PyStr.Substring (PyStr.lower opt) (PyStr.lower (PyStr.strip val)).

(** No option of the list passes the containment test. *)
Definition unmatched (val : string) (options : list string) : Prop :=
  forall opt, In opt options -> ~ ci_match val opt.

Definition weather_options : list string := ["Sunny"; "Cloudy"; "Rainy"; "Snow"].
Definition traffic_options : list string := ["Low"; "Medium"; "High"].
Definition experience_options : list string := ["Junior"; "Senior"; "Expert"].




(** The baseline file is a JSON object that binds the two statistics to
    numbers whose binary64 values are [m] and [s]. *)
Definition baseline (file : stats_file) (m s : float) : Prop :=
  exists fields vm vs,
    file = Loaded (JObj fields)
    /\ PyDict.lookup fields "mean_duration" = Some vm
    /\ PyDict.lookup fields "std_duration" = Some vs
    /\ as_float vm = ret m
    /\ as_float vs = ret s.

(** [sum(batch) / len(batch)] *)
Definition batch_mean (batch : list Z) : py float :=
  PyNum.int_truediv (PyNum.sum batch) (PyNum.len batch).

(** Binary64 values that are numbers, that are finite, that are finite with
    a magnitude below [2 ^ k], and that Python's [x >= 0] accepts. *)
Definition not_nan (x : float) : Prop := Prim2SF x <> S754_nan.

Definition finite (x : float) : Prop :=
  match Prim2SF x with
  | S754_zero _ | S754_finite _ _ _ => True
  | _ => False
  end.

Definition below_pow2 (k : Z) (x : float) : Prop :=
  match Prim2SF x with
  | S754_zero _ => True
  | S754_finite _ m e => Zpos (digits2_pos m) + e <= k
  | _ => False
  end.

Definition nonneg (x : float) : Prop := PrimFloat.leb 0 x = true.

(** [random.uniform(-0.03, 0.03)] returns a value between its bounds. *)
Definition jitter (j : float) : Prop :=
  PrimFloat.leb (-0x1.eb851eb851eb8p-6) j = true
  /\ PrimFloat.leb j 0x1.eb851eb851eb8p-6 = true.

(** The outcomes that the four calls of [random.uniform] can produce; the
    other draws are unconstrained. *)
Definition possible (s : Generator.sample) : Prop :=
  jitter (Generator.start_lat_jitter s)
  /\ jitter (Generator.start_lon_jitter s)
  /\ jitter (Generator.end_lat_jitter s)
  /\ jitter (Generator.end_lon_jitter s).

(** What is assumed of the math library: when they return, the sine and the
    cosine of a number lie in [-1, 1] and so does the square of a value of
    [-1, 1]; the arc tangent of two non-negative arguments that are not both
    the negative zero is non-negative. *)
Record math_contract (M : PyMath.math_module) : Prop := {
  sin_range : forall x r,
    not_nan x -> PyMath.math_sin M x = ret r ->
    PrimFloat.leb (PrimFloat.abs r) 1 = true;
  cos_range : forall x r,
    not_nan x -> PyMath.math_cos M x = ret r ->
    PrimFloat.leb (PrimFloat.abs r) 1 = true;
  pow2_range : forall x r,
    PrimFloat.leb (PrimFloat.abs x) 1 = true -> PyMath.float_pow2 M x = ret r ->
    PrimFloat.leb (PrimFloat.abs r) 1 = true;
  atan2_sign : forall y x,
    PrimFloat.leb 0 y = true -> PrimFloat.leb 0 x = true ->
    ~ (y = neg_zero /\ x = neg_zero) ->
    PrimFloat.leb 0 (PyMath.math_atan2 M y x) = true
}.

(** [x] when it lies in [-1, 1], [fallback] otherwise. *)
Definition within_one (x fallback : float) : float :=
  if PrimFloat.leb (PrimFloat.abs x) 1 then x else fallback.

(** A first-order math module, an instance of the contract: the sine of a
    small angle is the angle, its cosine is 1, the arc tangent of a small
    ratio is the ratio. *)
Definition small_angle_math : PyMath.math_module :=
  {| PyMath.math_sin := fun x => ret (within_one x 0);
     PyMath.math_cos := fun _ => ret 1%float;
     PyMath.math_atan2 := fun y _ => y;
     PyMath.float_pow2 := fun x => ret (within_one (PrimFloat.mul x x) 1) |}.

(** A draw from Mitte to Kreuzberg. *)
Definition sample_draw : Generator.sample :=
  {| Generator.start_dist := "Mitte";
     Generator.end_dist := "Kreuzberg";
     Generator.start_lat_jitter := 0x1.47ae147ae147bp-7;
     Generator.start_lon_jitter := (-0x1.47ae147ae147bp-6);
     Generator.end_lat_jitter := 0;
     Generator.end_lon_jitter := 0x1.eb851eb851eb8p-6;
     Generator.sampled_vehicle := "Scooter";
     Generator.sampled_weather := "Rainy";
     Generator.sampled_traffic := "High";
     Generator.sampled_driver_exp := "Expert";
     Generator.sampled_noise := 7.25 |}.

(* ===================================================================== *)
(** * Substitution in texts ([re.sub] and [str.replace]) *)
(* ===================================================================== *)

Module PySub.

(** One step of a scan: where the text goes on after an occurrence that
    starts at the head of the text, if there is one. *)
Definition matcher : Type := string -> option string.

(** Leftmost, non-overlapping substitution, as [re.sub] and [str.replace]
    perform it for occurrences that are never empty: an occurrence at the
    current position is replaced and the scan goes on behind it, otherwise
    one character is copied. *)
Fixpoint substitute_from (m : matcher) (repl : string) (fuel : nat)
         (s : string) : string :=
  match s with
  | EmptyString => EmptyString
  | String c s' =>
      match fuel with
      | O => s
      | S fuel' =>
          match m s with
          | Some rest => repl ++ substitute_from m repl fuel' rest
          | None => String c (substitute_from m repl fuel' s')
          end
      end
  end.

Definition substitute (m : matcher) (repl s : string) : string :=
  substitute_from m repl (String.length s) s.

(** The text behind the prefix [p], if the text starts with [p]. *)
Fixpoint drop_prefix (p s : string) : option string :=
  match p, s with
  | EmptyString, _ => Some s
  | String _ _, EmptyString => None
  | String a p', String b s' =>
      if Ascii.eqb a b then drop_prefix p' s' else None
  end.

(** [s.replace(old, new)] for a non-empty [old]. *)
Definition replace (old new s : string) : string :=
  substitute (drop_prefix old) new s.

(** A character of the range [lo-hi]. *)
Definition between (lo hi c : ascii) : bool :=
  ((N_of_ascii lo <=? N_of_ascii c) && (N_of_ascii c <=? N_of_ascii hi))%N.

(** A literal character of a pattern, followed by the rest [k] of the
    pattern. *)
Definition lit (a : ascii) (k : matcher) : matcher :=
  fun s =>
    match s with
    | String c s' => if Ascii.eqb c a then k s' else None
    | EmptyString => None
    end.

(** A greedy repetition [cls{least,}] of a character class, followed by the
    rest [k] of the pattern: as many characters as possible are taken, and
    they are given back one at a time while the rest fails. *)
Fixpoint greedy (cls : ascii -> bool) (least : nat) (k : matcher)
         (s : string) : option string :=
  let stop := match least with O => k s | S _ => None end in
  match s with
  | String c s' =>
      if cls c then
        match greedy cls (Nat.pred least) k s' with
        | Some rest => Some rest
        | None => stop
        end
      else stop
  | EmptyString => stop
  end.

End PySub.

(* ===================================================================== *)
(** * The remaining tools of [scripts/tools.py] *)
(* ===================================================================== *)

(** The character classes [[a-zA-Z]], [[a-zA-Z0-9.-]] and
    [[a-zA-Z0-9._%+-]] of the e-mail pattern. *)
Definition alpha (c : ascii) : bool :=
  PySub.between "a" "z" c || PySub.between "A" "Z" c.

Definition domain_char (c : ascii) : bool :=
  alpha c || PySub.between "0" "9" c || Ascii.eqb c "." || Ascii.eqb c "-".

Definition local_char (c : ascii) : bool :=
  alpha c || PySub.between "0" "9" c || Ascii.eqb c "." || Ascii.eqb c "_"
  || Ascii.eqb c "%" || Ascii.eqb c "+" || Ascii.eqb c "-".

(** [email_pattern]:
    [[a-zA-Z0-9._%+-]+@[a-zA-Z0-9.-]+\.[a-zA-Z]{2,}] *)
Definition email_pattern : PySub.matcher :=
  PySub.greedy local_char 1
    (PySub.lit "@"
       (PySub.greedy domain_char 1
          (PySub.lit "."
             (PySub.greedy alpha 2 Some)))).

(** [anonymize_pii], lines 81-91. *)
Definition anonymize_pii (text : string) : string :=
  let text := PySub.substitute email_pattern "<EMAIL_REDACTED>" text in
  if PyStr.str_in "User_" text
  then PySub.replace "User_" "Anon_Customer_" text
  else text.

(** [calculate_delivery_distance], lines 99-110. *)
Definition calculate_delivery_distance (M : PyMath.math_module)
           (lat1 lon1 lat2 lon2 : float) : py float :=
  let R := 6371%float in
  let phi1 := PyMath.math_radians lat1 in
  let phi2 := PyMath.math_radians lat2 in
  let dphi := PyMath.math_radians (PrimFloat.sub lat2 lat1) in
  let dlambda := PyMath.math_radians (PrimFloat.sub lon2 lon1) in
  sin_dphi <- PyMath.math_sin M (PrimFloat.div dphi 2) ;;
  sq_dphi <- PyMath.float_pow2 M sin_dphi ;;
  cos1 <- PyMath.math_cos M phi1 ;;
  cos2 <- PyMath.math_cos M phi2 ;;
  sin_dlambda <- PyMath.math_sin M (PrimFloat.div dlambda 2) ;;
  sq_dlambda <- PyMath.float_pow2 M sin_dlambda ;;
  let a := PrimFloat.add sq_dphi
             (PrimFloat.mul (PrimFloat.mul cos1 cos2) sq_dlambda) in
  root_a <- PyMath.math_sqrt a ;;
  root_1a <- PyMath.math_sqrt (PrimFloat.sub 1 a) ;;
  let c := PrimFloat.mul 2 (PyMath.math_atan2 M root_a root_1a) in
  PyMath.round2 (PrimFloat.mul R c).

(** [get_weather_risk], lines 118-123. *)
Definition get_weather_risk (date_str : string) : string :=
  if PyStr.str_in "2026-01" date_str || PyStr.str_in "2026-02" date_str
  then "Rainy"
  else if PyStr.str_in "2026-07" date_str then "Sunny"
  else "Cloudy".

(** [get_location_name]: the request to the geocoding service is an
    argument, what the function does with the answer is lines 210-225. *)
Module Geocoder.

(** What [requests.get] and [response.json()] come back with. *)
Inductive response : Type :=
| Request_failed
| Body_not_json
| Json_body (data : json).

(** The exceptions of the [try] block. *)
Inductive exn : Type :=
| RequestException
| Python (e : pyexn)
| AttributeError.

Definition result (A : Type) : Type := (exn + A)%type.

Definition and_then {A B} (c : result A) (k : A -> result B) : result B :=
  match c with
  | inl e => inl e
  | inr a => k a
  end.

(** [v == key] for a string [key] *)
Definition equals_str (v : json) (key : string) : bool :=
  match v with
  | JStr s => String.eqb s key
  | _ => false
  end.

(** [key in data]: a key of a dict, an element of a list, a substring of a
    string; a [TypeError] on anything else. *)
Definition contains (key : string) (data : json) : result bool :=
  match data with
  | JObj fields =>
      inr (match PyDict.lookup fields key with
           | Some _ => true
           | None => false
           end)
  | JArr items => inr (existsb (fun v => equals_str v key) items)
  | JStr s => inr (PyStr.str_in key s)
  | _ => inl (Python TypeError)
  end.

(** [data[key]] *)
Definition item (data : json) (key : string) : result json :=
  match subscript data key with
  | inl e => inl (Python e)
  | inr v => inr v
  end.

(** [address.get(key, dflt)] *)
Definition get (address : json) (key : string) (dflt : json) : result json :=
  match address with
  | JObj fields => inr (PyDict.get fields key dflt)
  | _ => inl AttributeError
  end.

(** [v + suffix] for a string [suffix] *)
Definition add_str (v : json) (suffix : string) : result string :=
  match v with
  | JStr s => inr (s ++ suffix)
  | _ => inl (Python TypeError)
  end.

(** The text [get_location_name] returns. *)
Inductive location_text : Type :=
| Located (name : string)
| Location_not_found
| Error_retrieving_location (e : exn).

(** The body of the [try] block, lines 210-222; [None] stands for the
    [else] branch. *)
Definition lookup_body (r : response) : result (option string) :=
  match r with
  | Request_failed => inl RequestException
  | Body_not_json => inl (Python JSONDecodeError)
  | Json_body data =>
      and_then (contains "address" data) (fun found =>
        if found : bool then
          and_then (item data "address") (fun address =>
          and_then (get address "road" (JStr "Unknown Device")) (fun road =>
          and_then (get address "suburb" road) (fun place =>
          and_then (add_str place ", Berlin") (fun name =>
          inr (Some name)))))
        else inr None)
  end.

Definition get_location_name (r : response) : location_text :=
  match lookup_body r with
  | inr (Some name) => Located name
  | inr None => Location_not_found
  | inl e => Error_retrieving_location e
  end.

End Geocoder.

(* ===================================================================== *)
(** * Further draws of the generator and the tables of [scripts/train.py] *)
(* ===================================================================== *)

(** The draws of the generator that the remaining columns come from. *)
Module Sampling.

Definition VEHICLES : list string := ["Bike"; "Scooter"; "Van"].
Definition WEATHER : list string := ["Sunny"; "Cloudy"; "Rainy"; "Snow"].
Definition TRAFFIC : list string := ["Low"; "Medium"; "High"].
Definition DRIVER_EXP : list string := ["Junior"; "Senior"; "Expert"].

(** Line 69. *)
Definition is_rush_hour (random_hour : Z) : bool :=
  (8 <=? random_hour) && (random_hour <=? 9)
  || (17 <=? random_hour) && (random_hour <=? 19).

(** The list that [np.random.choice] draws the traffic level from,
    lines 71-74. *)
Definition traffic_choices (random_hour : Z) : list string :=
  if is_rush_hour random_hour then ["High"; "Medium"]
  else ["Low"; "Medium"; "High"].

(** [str(n)] *)
Definition str (n : Z) : string := NilZero.string_of_int (Z.to_int n).

(** Line 107: [f"User_{n}"] for the outcome [n] of
    [random.randint(1000, 9999)]. *)
Definition customer_name (n : Z) : string := "User_" ++ str n.

End Sampling.

(** The encoding of the categorical columns in [scripts/train.py]. *)
Module Train.

Definition weather_map : PyDict.dict Z :=
  [("Sunny", 0); ("Cloudy", 1); ("Rainy", 2); ("Snow", 3)].
Definition traffic_map : PyDict.dict Z :=
  [("Low", 0); ("Medium", 1); ("High", 2)].
Definition exp_map : PyDict.dict Z :=
  [("Junior", 0); ("Senior", 1); ("Expert", 2)].

(** [series.map(d)] on one label: the code, or a missing value. *)
Definition map_label (d : PyDict.dict Z) (label : string) : option Z :=
  PyDict.lookup d label.

Definition feature_cols : list string :=
  ["distance_km"; "weather_code"; "traffic_code"; "exp_code";
   "vehicle_type_Scooter"; "vehicle_type_Van"].

End Train.

(* ===================================================================== *)
(** * Predicates for the properties of the tools *)
(* ===================================================================== *)

(** [w] is what is left of [s] from some position on. *)
Definition suffix_of (w s : string) : Prop := exists pre, s = pre ++ w.

(** Every character of [s] is in the class [cls]. *)
Definition all_in (cls : ascii -> bool) (s : string) : Prop :=
  forallb cls (list_ascii_of_string s) = true.

Definition is_some {A} (o : option A) : bool :=
  match o with Some _ => true | None => false end.

(** What a pattern returns is the text behind the occurrence; the
    occurrence is not empty. *)
Definition returns_rest (k : PySub.matcher) : Prop :=
  forall s rest, k s = Some rest -> exists occ, s = occ ++ rest.

Definition consumes (k : PySub.matcher) : Prop :=
  forall s rest, k s = Some rest -> exists occ, occ <> "" /\ s = occ ++ rest.

(** The e-mail pattern read without backtracking.  The text starts with
    two letters; with a dot and two letters; with a non-empty run of domain
    characters that leads to a dot and two letters; with [@] and such a
    run. *)
Definition two_letters (s : string) : bool :=
  match s with
  | String a (String b _) => alpha a && alpha b
  | _ => false
  end.

Definition dot_tld (s : string) : bool :=
  match s with
  | String c s' => Ascii.eqb c "." && two_letters s'
  | EmptyString => false
  end.

Fixpoint domain_then_tld (s : string) : bool :=
  match s with
  | String c s' => domain_char c && (domain_then_tld s' || dot_tld s')
  | EmptyString => false
  end.

Definition at_domain (s : string) : bool :=
  match s with
  | String c s' => Ascii.eqb c "@" && domain_then_tld s'
  | EmptyString => false
  end.

(** The text starts with an e-mail address: a non-empty run of local
    characters, [@], a non-empty run of domain characters, a dot and two
    letters. *)
Fixpoint email_at (s : string) : bool :=
  match s with
  | String c s' => local_char c && (email_at s' || at_domain s')
  | EmptyString => false
  end.

(** The draw [d] with another weather, traffic level or driver. *)
Definition with_weather (d : Generator.draw) (w : string) : Generator.draw :=
  {| Generator.distance := Generator.distance d;
     Generator.vehicle := Generator.vehicle d;
     Generator.weather := w;
     Generator.traffic := Generator.traffic d;
     Generator.driver_exp := Generator.driver_exp d;
     Generator.noise := Generator.noise d |}.

Definition with_traffic (d : Generator.draw) (t : string) : Generator.draw :=
  {| Generator.distance := Generator.distance d;
     Generator.vehicle := Generator.vehicle d;
     Generator.weather := Generator.weather d;
     Generator.traffic := t;
     Generator.driver_exp := Generator.driver_exp d;
     Generator.noise := Generator.noise d |}.

Definition with_driver (d : Generator.draw) (x : string) : Generator.draw :=
  {| Generator.distance := Generator.distance d;
     Generator.vehicle := Generator.vehicle d;
     Generator.weather := Generator.weather d;
     Generator.traffic := Generator.traffic d;
     Generator.driver_exp := x;
     Generator.noise := Generator.noise d |}.

(** The containment test of the fuzzy-matching policy on the input string
    as it is given, ignoring case only. *)
Definition raw_match (val opt : string) : Prop :=
  PyStr.Substring (PyStr.lower val) (PyStr.lower opt)
  \/ PyStr.Substring (PyStr.lower opt) (PyStr.lower val).

Definition raw_unmatched (val : string) (options : list string) : Prop :=
  forall opt, In opt options -> ~ raw_match val opt.




(** [math.sin(math.radians(delta) / 2)**2], as both distance functions
    compute it. *)
Definition half_angle_square (M : PyMath.math_module) (delta : float)
  : py float :=
  s <- PyMath.math_sin M (PrimFloat.div (PyMath.math_radians delta) 2) ;;
  PyMath.float_pow2 M s.

(** From [a] to the result of [calculate_delivery_distance]. *)
Definition distance_of_square (M : PyMath.math_module) (a : float)
  : py float :=
  root_a <- PyMath.math_sqrt a ;;
  root_1a <- PyMath.math_sqrt (PrimFloat.sub 1 a) ;;
  let c := PrimFloat.mul 2 (PyMath.math_atan2 M root_a root_1a) in
  PyMath.round2 (PrimFloat.mul 6371 c).

(** What the symmetry of the distance and its value on coinciding points
    assume of the math library beyond [math_contract]: the sine is odd,
    squaring is even, the sine of 0, the square of 0 and the arc tangent of
    0 over 1 are 0, and the cosine of a finite number is returned. *)
Record symmetry_contract (M : PyMath.math_module) : Prop := {
  sin_odd : forall x,
    PyMath.math_sin M (PrimFloat.opp x)
    = (r <- PyMath.math_sin M x ;; ret (PrimFloat.opp r));
  pow2_even : forall x,
    PyMath.float_pow2 M (PrimFloat.opp x) = PyMath.float_pow2 M x;
  sin_zero : PyMath.math_sin M 0 = ret 0%float;
  pow2_zero : PyMath.float_pow2 M 0 = ret 0%float;
  atan2_zero : PyMath.math_atan2 M 0 1 = 0%float;
  cos_returns : forall x, finite x -> exists r, PyMath.math_cos M x = ret r
}.

(** [x] when it lies in [-1, 1], else 1 with the sign of [x]. *)
Definition clamp (x : float) : float :=
  if PrimFloat.leb (PrimFloat.abs x) 1 then x
  else if PrimFloat.ltb x 0 then (-1)%float else 1%float.

(** A math module with the values of the C library at NaN and at the
    infinities (NaN for NaN, a [ValueError] for the sine and the cosine of
    an infinity) and first-order values elsewhere. *)
Definition special_value_math : PyMath.math_module :=
  {| PyMath.math_sin := fun x =>
       if PrimFloat.is_nan x then ret x
       else if PrimFloat.is_infinity x then raise ValueError
       else ret (clamp x);
     PyMath.math_cos := fun x =>
       if PrimFloat.is_nan x then ret x
       else if PrimFloat.is_infinity x then raise ValueError
       else ret 1%float;
     PyMath.math_atan2 := fun y _ => y;
     PyMath.float_pow2 := fun x =>
       if PrimFloat.is_nan x then ret x
       else ret (within_one (PrimFloat.mul x x) 1) |}.

(* ===================================================================== *)
(** * The embedding on sample values *)
(* ===================================================================== *)

Example strip_lower_sample :
  PyStr.lower (PyStr.strip "  Heavy RAIN ") = "heavy rain".
Proof. reflexivity. Qed.

Example str_in_samples :
  PyStr.str_in "rain" "rainy" = true
  /\ PyStr.str_in "rainy" "raining" = false
  /\ PyStr.str_in "" "sunny" = true
  /\ PyStr.str_in "Van" "Cargo Van" = true
  /\ PyStr.str_in "Van" "van" = false.
Proof. repeat split; reflexivity. Qed.

(** The end-to-end scenario of the encoder. *)
Example encode_sample :
  predict_input_df "Van" "Rain" 5 "High" "Junior"
  = {| distance_km := 5; weather_code := 2; traffic_code := 2; exp_code := 0;
       vehicle_type_Scooter := 0; vehicle_type_Van := 1 |}.
Proof. reflexivity. Qed.

(** An empty input is contained in every option and takes the first one. *)
Example empty_input_takes_first_option :
  _normalize_input "" weather_options "Cloudy" = "Sunny"
  /\ _normalize_input "   " traffic_options "Medium" = "Low".
Proof. split; reflexivity. Qed.

Example int_truediv_samples :
  PyNum.int_truediv 1 3 = ret 0x1.5555555555555p-2%float
  /\ PyNum.int_truediv (-4) 3 = ret (-0x1.5555555555555p+0)%float
  /\ PyNum.int_truediv 7 0 = raise ZeroDivisionError
  /\ PyNum.int_truediv (2 ^ 1024 - 2 ^ 970 - 1) 1
     = ret 0x1.fffffffffffffp+1023%float
  /\ PyNum.int_truediv (2 ^ 1024 - 2 ^ 970) 1 = raise OverflowError
  /\ PyNum.int_to_float (2 ^ 53 + 1) = ret 9007199254740992%float
  /\ PyNum.int_to_float (2 ^ 53 + 3) = ret 9007199254740996%float.
Proof. repeat split; vm_compute; reflexivity. Qed.

Example drift_samples :
  check_data_drift Missing [100] = Error_checking_drift FileNotFoundError
  /\ check_data_drift Not_json [100] = Error_checking_drift JSONDecodeError
  /\ check_data_drift (Loaded (JObj [("mean_duration", JFloat 90)])) [100]
     = Error_checking_drift (KeyError "std_duration")
  /\ check_data_drift
       (Loaded (JObj [("mean_duration", JStr "90"); ("std_duration", JInt 10)]))
       [100]
     = Error_checking_drift TypeError
  /\ check_data_drift (training_stats 90 0) [100]
     = Error_checking_drift ZeroDivisionError
  /\ check_data_drift (training_stats 90 10) []
     = Error_checking_drift ZeroDivisionError
  /\ check_data_drift
       (Loaded (JObj [("mean_duration", JInt 90); ("std_duration", JInt 10)]))
       [70; 60]
     = Report {| baseline_mean := 90; todays_mean := 65;
                 z_score := -2.5; conclusion := Drift_detected |}
  /\ check_data_drift (training_stats 90 10) [110]
     = Report {| baseline_mean := 90; todays_mean := 110;
                 z_score := 2; conclusion := Data_stable |}.
Proof. repeat split; vm_compute; reflexivity. Qed.

Example duration_samples :
  Generator.delivery_duration_mins
    {| Generator.distance := 0x1.d99999999999ap+1;
       Generator.vehicle := "Van"; Generator.weather := "Snow";
       Generator.traffic := "High"; Generator.driver_exp := "Junior";
       Generator.noise := (-2) |} = ret 16
  /\ Generator.delivery_duration_mins
       {| Generator.distance := 0;
          Generator.vehicle := "Bike"; Generator.weather := "Sunny";
          Generator.traffic := "Low"; Generator.driver_exp := "Senior";
          Generator.noise := (-2) |} = ret 5.
Proof. split; vm_compute; reflexivity. Qed.

(** [round(2.675, 2)] is 2.67 (the double lies below the tie),
    [round(0.125, 2)] is 0.12 (an exact tie goes to the even digit),
    [round(-0.001, 2)] is the negative zero. *)
Example round2_samples :
  PyMath.round2 0x1.5666666666666p+1 = ret 0x1.55c28f5c28f5cp+1%float
  /\ PyMath.round2 0.125 = ret 0x1.eb851eb851eb8p-4%float
  /\ PyMath.round2 (-0x1.0624dd2f1a9fcp-10) = ret neg_zero
  /\ PyMath.round2 0x1.d6f3454800000p+26 = ret 0x1.d6f34547ae148p+26%float
  /\ PyMath.round2 0x1.47ae147ae147bp-8 = ret 0x1.47ae147ae147bp-7%float
  /\ PyMath.round2 infinity = ret infinity.
Proof. repeat split; vm_compute; reflexivity. Qed.

(* ===================================================================== *)
(** * Substring search *)
(* ===================================================================== *)

Section SubstringFacts.

Import PyStr.

Lemma startswith_iff (p s : string) :
  startswith p s = true <-> exists suf, s = p ++ suf.
Proof.
  revert s; induction p as [|a p IH]; intros s; simpl.
  - split; [intros _; now exists s | reflexivity].
  - destruct s as [|b s].
    + split; [discriminate | intros [suf H]; discriminate].
    + rewrite andb_true_iff, Ascii.eqb_eq, IH. split.
      * intros [-> [suf ->]]. now exists suf.
      * intros [suf H]. injection H as -> ->. split; [reflexivity | now exists suf].
Qed.

Lemma str_in_iff (sub s : string) :
  str_in sub s = true <-> Substring sub s.
Proof.
  unfold Substring. induction s as [|c s IH].
  - simpl. rewrite orb_false_r, startswith_iff. split.
    + intros [suf H]. exists EmptyString, suf. exact H.
    + intros [pre [suf H]]. destruct pre; [now exists suf | discriminate].
  - cbn [str_in]. rewrite orb_true_iff, startswith_iff, IH. split.
    + intros [[suf H] | [pre [suf H]]].
      * exists EmptyString, suf. exact H.
      * exists (String c pre), suf. simpl. now rewrite H.
    + intros [pre [suf H]]. destruct pre as [|c' pre].
      * left. now exists suf.
      * right. simpl in H. injection H as _ H. now exists pre, suf.
Qed.

Lemma str_in_false_iff (sub s : string) :
  str_in sub s = false <-> ~ Substring sub s.
Proof.
  rewrite <- str_in_iff. destruct (str_in sub s); split; congruence.
Qed.

End SubstringFacts.

(* ===================================================================== *)
(** * Feature encoder: properties *)
(* ===================================================================== *)

Section Encoder.

Import PyStr.

Variables (vehicle_type weather : string) (distance : float).
Variables (traffic_level driver_experience : string).

Lemma scooter_indicator_predict :
  vehicle_type_Scooter
    (predict_input_df vehicle_type weather distance traffic_level
                      driver_experience)
  = if str_in "Scooter" vehicle_type then 1 else 0.
Proof. reflexivity. Qed.

Lemma van_indicator_predict :
  vehicle_type_Van
    (predict_input_df vehicle_type weather distance traffic_level
                      driver_experience)
  = if str_in "Van" vehicle_type then 1 else 0.
Proof. reflexivity. Qed.

Lemma scooter_indicator_explain :
  vehicle_type_Scooter
    (explain_input_df vehicle_type weather distance traffic_level
                      driver_experience)
  = if str_in "Scooter" vehicle_type then 1 else 0.
Proof. reflexivity. Qed.

Lemma van_indicator_explain :
  vehicle_type_Van
    (explain_input_df vehicle_type weather distance traffic_level
                      driver_experience)
  = if str_in "Van" vehicle_type then 1 else 0.
Proof. reflexivity. Qed.

End Encoder.

(** An indicator written [if sub in s then 1 else 0] is 1 exactly when
    [sub] occurs in [s], and 0 otherwise. *)
Lemma indicator_one (sub s : string) :
  (if PyStr.str_in sub s then 1 else 0) = 1 <-> PyStr.Substring sub s.
Proof.
  rewrite <- str_in_iff. destruct (PyStr.str_in sub s); split;
    (reflexivity || discriminate).
Qed.

Lemma indicator_zero (sub s : string) :
  (if PyStr.str_in sub s then 1 else 0) = 0 <-> ~ PyStr.Substring sub s.
Proof.
  rewrite <- str_in_false_iff. destruct (PyStr.str_in sub s); split;
    (reflexivity || discriminate).
Qed.

Ltac indicators :=
  rewrite ?scooter_indicator_predict, ?van_indicator_predict,
          ?scooter_indicator_explain, ?van_indicator_explain.

(** C10: the vehicle indicators are case-sensitive substring tests with no
    fallback.  In both paths the scooter indicator is 1 exactly when the raw
    string contains "Scooter" and the van indicator is 1 exactly when it
    contains "Van", and 0 otherwise; a string containing neither, such as
    "van", "scooter" or "Bike", gets both indicators 0, whereas the weather
    field accepts lower case. *)
Theorem vehicle_encoding_is_exact_substring :
  forall (v w : string) (d : float) (t e : string),
    let p := predict_input_df v w d t e in
    let x := explain_input_df v w d t e in
    (vehicle_type_Scooter p = 1 <-> PyStr.Substring "Scooter" v)
    /\ (vehicle_type_Van p = 1 <-> PyStr.Substring "Van" v)
    /\ (vehicle_type_Scooter x = 1 <-> PyStr.Substring "Scooter" v)
    /\ (vehicle_type_Van x = 1 <-> PyStr.Substring "Van" v)
    /\ (vehicle_type_Scooter p = 0 <-> ~ PyStr.Substring "Scooter" v)
    /\ (vehicle_type_Van p = 0 <-> ~ PyStr.Substring "Van" v)
    /\ (vehicle_type_Scooter x = 0 <-> ~ PyStr.Substring "Scooter" v)
    /\ (vehicle_type_Van x = 0 <-> ~ PyStr.Substring "Van" v)
    /\ (vehicle_type_Scooter (predict_input_df "van" w d t e) = 0
        /\ vehicle_type_Van (predict_input_df "van" w d t e) = 0
        /\ vehicle_type_Scooter (predict_input_df "scooter" w d t e) = 0
        /\ vehicle_type_Van (predict_input_df "scooter" w d t e) = 0
        /\ vehicle_type_Scooter (explain_input_df "van" w d t e) = 0
        /\ vehicle_type_Van (explain_input_df "van" w d t e) = 0
        /\ vehicle_type_Scooter (explain_input_df "scooter" w d t e) = 0
        /\ vehicle_type_Van (explain_input_df "scooter" w d t e) = 0)
    /\ (vehicle_type_Scooter (predict_input_df "Bike" w d t e) = 0
        /\ vehicle_type_Van (predict_input_df "Bike" w d t e) = 0)
    /\ weather_code (predict_input_df v "rainy" d t e)
       = weather_code (predict_input_df v "Rainy" d t e).
Proof.
  intros v w d t e p x. subst p x. indicators.
  repeat match goal with
         | |- _ /\ _ => split
         | |- _ <-> PyStr.Substring _ _ => apply indicator_one
         | |- _ <-> ~ PyStr.Substring _ _ => apply indicator_zero
         end; reflexivity.
Qed.

(** C2, as stated, fails: a raw string that contains both "Scooter" and
    "Van" sets both indicators, in the prediction path and in the
    explanation path. *)
Lemma both_indicators_set :
  let p := predict_input_df "Scooter or Van" "Sunny" 5 "Low" "Senior" in
  let x := explain_input_df "Scooter or Van" "Sunny" 5 "Low" "Senior" in
  (vehicle_type_Scooter p = 1 /\ vehicle_type_Van p = 1)
  /\ (vehicle_type_Scooter x = 1 /\ vehicle_type_Van x = 1).
Proof. repeat split; reflexivity. Qed.

(** C2, amended: for a raw vehicle string that does not contain both
    "Scooter" and "Van", the two indicators are never 1 together, in either
    path. *)
Theorem indicators_exclusive_unless_both_named
  (v w : string) (d : float) (t e : string)
  (H : ~ (PyStr.Substring "Scooter" v /\ PyStr.Substring "Van" v)) :
  ~ (vehicle_type_Scooter (predict_input_df v w d t e) = 1
     /\ vehicle_type_Van (predict_input_df v w d t e) = 1)
  /\ ~ (vehicle_type_Scooter (explain_input_df v w d t e) = 1
        /\ vehicle_type_Van (explain_input_df v w d t e) = 1).
Proof.
  indicators. rewrite !indicator_one. split; exact H.
Qed.

Lemma indicators_exclusive_unless_both_named_witness :
  ~ (PyStr.Substring "Scooter" "Van" /\ PyStr.Substring "Van" "Van")
  /\ ~ (vehicle_type_Scooter (predict_input_df "Van" "Rain" 5 "High" "Junior") = 1
        /\ vehicle_type_Van (predict_input_df "Van" "Rain" 5 "High" "Junior") = 1).
Proof.
  assert (H : ~ (PyStr.Substring "Scooter" "Van" /\ PyStr.Substring "Van" "Van")).
  { rewrite <- !str_in_iff. vm_compute. intros [H _]. discriminate H. }
  split; [exact H |].
  exact (proj1 (indicators_exclusive_unless_both_named
                  "Van" "Rain" 5 "High" "Junior" H)).
Defined.

(* --------------------------------------------------------------------- *)
(** ** Normalisation of weather, traffic and experience *)
(* --------------------------------------------------------------------- *)

Lemma normalize_loop_unmatched (val_clean : string) (options : list string)
      (default : string) :
  (forall opt, In opt options ->
     PyStr.str_in val_clean (PyStr.lower opt) = false
     /\ PyStr.str_in (PyStr.lower opt) val_clean = false) ->
  normalize_loop val_clean options default = default.
Proof.
  induction options as [|opt rest IH]; intros H; simpl.
  - reflexivity.
  - destruct (H opt (or_introl eq_refl)) as [-> ->]. simpl.
    apply IH. intros o Ho. apply H. now right.
Qed.

Lemma normalize_unmatched (val : string) (options : list string)
      (default : string) :
  unmatched val options -> _normalize_input val options default = default.
Proof.
  intros H. unfold _normalize_input. apply normalize_loop_unmatched.
  intros opt Hin. specialize (H opt Hin). unfold ci_match in H.
  rewrite !str_in_false_iff. tauto.
Qed.

Ltac no_option_matches :=
  let opt := fresh "opt" in
  let Hin := fresh "Hin" in
  intros opt Hin; simpl in Hin;
  repeat (destruct Hin as [<- | Hin]);
  [ unfold ci_match; rewrite <- !str_in_iff; vm_compute;
    intros [?|?]; discriminate .. | contradiction ].

Lemma foggy_unmatched : unmatched "Foggy" weather_options.
Proof. no_option_matches. Qed.

(** C5, as stated, fails for an input with whitespace around it.  The
    string " rain " contains no canonical weather and is contained in none,
    yet the code strips it before the test: it is normalised to Rainy and
    gets the code 2, not the default code 1, in both paths.  The string " "
    is contained in no option either and is normalised to Sunny. *)
Lemma padded_rain_is_rainy :
  raw_unmatched " rain " weather_options
  /\ _normalize_input " rain " weather_options "Cloudy" = "Rainy"
  /\ weather_code (predict_input_df "Bike" " rain " 5 "Medium" "Senior") = 2
  /\ weather_code (explain_input_df "Bike" " rain " 5 "Medium" "Senior") = 2
  /\ raw_unmatched " " weather_options
  /\ _normalize_input " " weather_options "Cloudy" = "Sunny"
  /\ weather_code (predict_input_df "Bike" " " 5 "Medium" "Senior") = 0.
Proof.
  assert (H : forall val,
             (forall opt, In opt weather_options ->
                PyStr.str_in (PyStr.lower val) (PyStr.lower opt) = false
                /\ PyStr.str_in (PyStr.lower opt) (PyStr.lower val) = false) ->
             raw_unmatched val weather_options).
  { intros val Hval opt Hin [Hm | Hm]; apply str_in_iff in Hm;
      destruct (Hval opt Hin) as [H1 H2]; congruence. }
  repeat split; try reflexivity; apply H; intros opt Hin; simpl in Hin;
    repeat (destruct Hin as [<- | Hin]; [split; reflexivity|]);
    contradiction.
Qed.

(** C5, amended: an input that, once the whitespace around it is removed and
    case is ignored, neither contains a canonical option nor is contained
    in one is normalised to the default handed to [_normalize_input]; in
    both paths such a weather becomes Cloudy (code 1), such a traffic level
    Medium (code 1) and such a driver experience Senior (code 1).  "Foggy"
    is such a weather input. *)
Theorem unmatched_input_falls_back_to_default :
  forall val : string,
    (forall options default,
        unmatched val options ->
        _normalize_input val options default = default)
    /\ (unmatched val weather_options ->
        _normalize_input val weather_options "Cloudy" = "Cloudy"
        /\ forall v d t e,
            weather_code (predict_input_df v val d t e) = 1
            /\ weather_code (explain_input_df v val d t e) = 1)
    /\ (unmatched val traffic_options ->
        _normalize_input val traffic_options "Medium" = "Medium"
        /\ forall v w d e,
            traffic_code (predict_input_df v w d val e) = 1
            /\ traffic_code (explain_input_df v w d val e) = 1)
    /\ (unmatched val experience_options ->
        _normalize_input val experience_options "Senior" = "Senior"
        /\ forall v w d t,
            exp_code (predict_input_df v w d t val) = 1
            /\ exp_code (explain_input_df v w d t val) = 1)
    /\ (unmatched "Foggy" weather_options
        /\ forall v d t e,
            weather_code (predict_input_df v "Foggy" d t e) = 1
            /\ weather_code (explain_input_df v "Foggy" d t e) = 1).
Proof.
  intros val. split; [|split; [|split; [|split]]].
  - intros options default. apply normalize_unmatched.
  - intros H. pose proof (normalize_unmatched val _ "Cloudy" H) as E.
    split; [exact E |]. intros v d t e.
    unfold predict_input_df, explain_input_df; cbn [weather_code PyDict.keys map fst].
    fold weather_options. rewrite E. split; reflexivity.
  - intros H. pose proof (normalize_unmatched val _ "Medium" H) as E.
    split; [exact E |]. intros v w d e.
    unfold predict_input_df, explain_input_df; cbn [traffic_code PyDict.keys map fst].
    fold traffic_options. rewrite E. split; reflexivity.
  - intros H. pose proof (normalize_unmatched val _ "Senior" H) as E.
    split; [exact E |]. intros v w d t.
    unfold predict_input_df, explain_input_df; cbn [exp_code PyDict.keys map fst].
    fold experience_options. rewrite E. split; reflexivity.
  - split; [exact foggy_unmatched |]. intros v d t e. split; reflexivity.
Qed.

Lemma unmatched_input_falls_back_to_default_witness :
  unmatched "Foggy" weather_options
  /\ _normalize_input "Foggy" weather_options "Cloudy" = "Cloudy"
  /\ weather_code (predict_input_df "Bike" "Foggy" 5 "Medium" "Senior") = 1.
Proof.
  assert (H : unmatched "Foggy" weather_options) by no_option_matches.
  split; [exact H |].
  destruct (unmatched_input_falls_back_to_default "Foggy")
    as [_ [Hweather _]].
  destruct (Hweather H) as [E Hcode].
  split; [exact E | exact (proj1 (Hcode "Bike" 5%float "Medium" "Senior"))].
Defined.

(** C3, as stated, fails for "raining": it neither contains "rainy" nor is
    contained in it, so it is normalised to the default Cloudy and gets
    code 1, not the code 2 of "Rainy". *)
Lemma raining_is_cloudy :
  _normalize_input "raining" weather_options "Cloudy" = "Cloudy"
  /\ weather_code (predict_input_df "Bike" "raining" 5 "Medium" "Senior") = 1
  /\ weather_code (explain_input_df "Bike" "raining" 5 "Medium" "Senior") = 1
  /\ weather_code (predict_input_df "Bike" "Rainy" 5 "Medium" "Senior") = 2
  /\ weather_code (predict_input_df "Bike" "raining" 5 "Medium" "Senior")
     <> weather_code (predict_input_df "Bike" "Rainy" 5 "Medium" "Senior").
Proof. repeat split; try reflexivity. vm_compute. discriminate. Qed.

(** C3, amended: "rain" and "RAIN" are normalised to "Rainy" and get the
    weather code 2 of the exact input "Rainy" in the prediction path and in
    the explanation path; "raining" matches no option and gets the default
    code 1 in both. *)
Theorem rain_synonyms_encode_as_rainy :
  forall (v : string) (d : float) (t e : string),
    _normalize_input "rain" weather_options "Cloudy" = "Rainy"
    /\ _normalize_input "RAIN" weather_options "Cloudy" = "Rainy"
    /\ weather_code (predict_input_df v "Rainy" d t e) = 2
    /\ weather_code (explain_input_df v "Rainy" d t e) = 2
    /\ weather_code (predict_input_df v "rain" d t e) = 2
    /\ weather_code (explain_input_df v "rain" d t e) = 2
    /\ weather_code (predict_input_df v "RAIN" d t e) = 2
    /\ weather_code (explain_input_df v "RAIN" d t e) = 2
    /\ unmatched "raining" weather_options
    /\ weather_code (predict_input_df v "raining" d t e) = 1
    /\ weather_code (explain_input_df v "raining" d t e) = 1.
Proof.
  intros v d t e. repeat split; try reflexivity. no_option_matches.
Qed.

(** C9: for the same raw arguments the prediction path and the explanation
    path normalise weather, traffic level and driver experience to the same
    codes and build the same feature vector, which is the one the estimator
    and the explainer are called on. *)
Theorem both_paths_encode_alike :
  forall (v w : string) (d : float) (t e : string),
    let p := predict_input_df v w d t e in
    let x := explain_input_df v w d t e in
    weather_code p = weather_code x
    /\ traffic_code p = traffic_code x
    /\ exp_code p = exp_code x
    /\ p = x
    /\ (forall model : estimator,
           predict_delivery_time (Some model) v w d t e = Minutes (model p))
    /\ (forall explainer : tree_explainer,
           explain_delivery_prediction (Some explainer) v w d t e
           = Explanation (base_values (explainer p))
                         (impact_lines columns (values (explainer p)))).
Proof.
  intros v w d t e p x. repeat split; reflexivity.
Qed.

(* ===================================================================== *)
(** * Binary64 arithmetic: signs and ranges of rounded results *)
(* ===================================================================== *)

(** [digits2_pos p] is the bit length of [p]. *)
Lemma digits2_pos_bounds (p : positive) :
  2 ^ (Zpos (digits2_pos p) - 1) <= Zpos p < 2 ^ Zpos (digits2_pos p).
Proof.
  induction p as [p IH | p IH |]; simpl digits2_pos.
  - rewrite Pos2Z.inj_succ.
    replace (Z.succ (Zpos (digits2_pos p)) - 1)
      with (Z.succ (Zpos (digits2_pos p) - 1)) by lia.
    rewrite !Z.pow_succ_r by lia. lia.
  - rewrite Pos2Z.inj_succ.
    replace (Z.succ (Zpos (digits2_pos p)) - 1)
      with (Z.succ (Zpos (digits2_pos p) - 1)) by lia.
    rewrite !Z.pow_succ_r by lia. lia.
  - simpl. lia.
Qed.

(** Bit length as a bound: [m < 2 ^ k] gives at most [k] digits. *)
Lemma Zdigits2_le (m k : Z) : 0 <= m -> 0 <= k -> m < 2 ^ k -> Zdigits2 m <= k.
Proof.
  intros Hm Hk Hlt. destruct m as [|p|p]; simpl; try lia.
  pose proof (digits2_pos_bounds p) as [Hlow _].
  destruct (Z.le_gt_cases (Zpos (digits2_pos p)) k) as [H|H]; [exact H|].
  exfalso. assert (2 ^ k <= 2 ^ (Zpos (digits2_pos p) - 1))
    by (apply Z.pow_le_mono_r; lia). lia.
Qed.

Lemma Zdigits2_lt_pow (m : Z) : 0 <= m -> m < 2 ^ Zdigits2 m.
Proof.
  intros Hm. destruct m as [|p|p]; simpl; try lia.
  apply digits2_pos_bounds.
Qed.

Lemma Zdigits2_nonneg (m : Z) : 0 <= Zdigits2 m.
Proof. destruct m; simpl; lia. Qed.

(** One right shift halves the mantissa. *)
Lemma shr_1_m (mrs : shr_record) :
  0 <= shr_m mrs -> shr_m (shr_1 mrs) = shr_m mrs / 2.
Proof.
  destruct mrs as [m r s]. simpl. intros Hm.
  destruct m as [|p|p]; try lia; [reflexivity|].
  destruct p as [p|p|]; simpl shr_m.
  - rewrite Pos2Z.inj_xI. apply Z.div_unique with (r := 1); lia.
  - rewrite Pos2Z.inj_xO. apply Z.div_unique with (r := 0); lia.
  - reflexivity.
Qed.

Lemma iter_pos_iter {A} (f : A -> A) (n : positive) (x : A) :
  iter_pos f n x = Pos.iter f x n.
Proof.
  revert x. induction n as [n IH | n IH |]; intros x; simpl.
  - rewrite !IH. rewrite <- Pos.iter_swap. rewrite <- Pos.iter_swap. reflexivity.
  - now rewrite !IH.
  - reflexivity.
Qed.

Lemma shr_iter_m (n : positive) (mrs : shr_record) :
  0 <= shr_m mrs ->
  shr_m (iter_pos shr_1 n mrs) = shr_m mrs / 2 ^ Zpos n.
Proof.
  intros Hm. rewrite iter_pos_iter.
  induction n as [|n IH] using Pos.peano_ind.
  - simpl Pos.iter. rewrite shr_1_m by exact Hm. reflexivity.
  - rewrite Pos.iter_succ, shr_1_m.
    + rewrite IH, Pos2Z.inj_succ, Z.pow_succ_r by lia.
      rewrite Z.div_div by lia. f_equal. lia.
    + rewrite IH. apply Z.div_pos; lia.
Qed.

Lemma shr_record_of_loc_m (m : Z) (l : location) :
  shr_m (shr_record_of_loc m l) = m.
Proof. destruct l as [|[]]; reflexivity. Qed.

Lemma fexp_eq (k : Z) : fexp prec emax k = Z.max (k - 53) (-1074).
Proof. reflexivity. Qed.

(** [shr_fexp] moves the exponent up to the format's exponent and divides
    the mantissa accordingly. *)
Lemma shr_fexp_spec (m e : Z) (l : location) :
  0 <= m ->
  exists mrs e',
    shr_fexp prec emax m e l = (mrs, e')
    /\ e' = Z.max e (fexp prec emax (Zdigits2 m + e))
    /\ shr_m mrs = m / 2 ^ (e' - e).
Proof.
  intros Hm. unfold shr_fexp, shr.
  destruct (fexp prec emax (Zdigits2 m + e) - e) as [|p|p] eqn:Hn.
  - eexists _, _. split; [reflexivity|]. split; [lia|].
    rewrite shr_record_of_loc_m, Z.sub_diag, Z.div_1_r. reflexivity.
  - eexists _, _. split; [reflexivity|]. split; [lia|].
    rewrite shr_iter_m by (rewrite shr_record_of_loc_m; exact Hm).
    rewrite shr_record_of_loc_m. f_equal. f_equal. lia.
  - eexists _, _. split; [reflexivity|]. split; [lia|].
    rewrite shr_record_of_loc_m, Z.sub_diag, Z.div_1_r. reflexivity.
Qed.

Lemma round_nearest_even_bounds (m : Z) (l : location) :
  m <= round_nearest_even m l <= m + 1.
Proof.
  unfold round_nearest_even. destruct l as [|[]]; try lia.
  destruct (Z.even m); lia.
Qed.

(** What [binary_round_aux] returns on a non-negative mantissa: a zero, a
    finite value or an infinity of the given sign, and no infinity when the
    magnitude is in range. *)
Lemma binary_round_aux_forms (sx : bool) (mx ex : Z) (lx : location) :
  0 <= mx ->
  let r := binary_round_aux prec emax sx mx ex lx in
  (r = S754_zero sx \/ (exists m e, r = S754_finite sx m e)
   \/ r = S754_infinity sx)
  /\ (ex <= 971 -> Zdigits2 mx + ex <= 1023 -> r <> S754_infinity sx).
Proof.
  intros Hmx r. subst r. unfold binary_round_aux.
  destruct (shr_fexp_spec mx ex lx Hmx) as (mrs1 & e1 & -> & He1 & Hm1).
  set (m2 := round_nearest_even (shr_m mrs1) (loc_of_shr_record mrs1)).
  assert (Hm1pos : 0 <= shr_m mrs1).
  { rewrite Hm1. apply Z.div_pos; [lia|]. apply Z.pow_pos_nonneg; lia. }
  pose proof (round_nearest_even_bounds (shr_m mrs1) (loc_of_shr_record mrs1))
    as Hm2. fold m2 in Hm2.
  assert (Hm2pos : 0 <= m2) by lia.
  destruct (shr_fexp_spec m2 e1 loc_Exact Hm2pos) as (mrs2 & e2 & -> & He2 & Hm3).
  assert (Hm3pos : 0 <= shr_m mrs2).
  { rewrite Hm3. apply Z.div_pos; [lia|]. apply Z.pow_pos_nonneg; lia. }
  destruct (shr_m mrs2) as [|p|p] eqn:Hp; try lia.
  - split; [now left | discriminate].
  - destruct (e2 <=? emax - prec) eqn:Hle.
    + split; [right; left; now eexists _, _ | discriminate].
    + split; [now right; right|]. intros Hex Hmag _.
      apply Z.leb_gt in Hle. change (emax - prec) with 971 in Hle.
      rewrite fexp_eq in He1, He2.
      assert (Hd2 : Zdigits2 m2 + e1 <= Z.max (Zdigits2 mx + ex) e1 + 1).
      { pose proof (Zdigits2_nonneg mx) as Hdx.
        set (d := Zdigits2 mx) in *. set (k := e1 - ex) in *.
        assert (Hk : 0 <= k) by lia.
        destruct (Z.le_gt_cases k d) as [Hkd | Hkd].
        - assert (shr_m mrs1 < 2 ^ (d - k)).
          { rewrite Hm1. apply Z.div_lt_upper_bound;
              [apply Z.pow_pos_nonneg; lia|].
            rewrite <- Z.pow_add_r by lia.
            replace (k + (d - k)) with d by lia.
            apply Zdigits2_lt_pow. exact Hmx. }
          assert (Zdigits2 m2 <= d - k + 1).
          { apply Zdigits2_le; [lia | lia |].
            rewrite Z.pow_add_r by lia. change (2 ^ 1) with 2.
            assert (0 < 2 ^ (d - k)) by (apply Z.pow_pos_nonneg; lia). lia. }
          lia.
        - assert (shr_m mrs1 = 0).
          { rewrite Hm1. apply Z.div_small. split; [exact Hmx|].
            apply Z.lt_le_trans with (2 ^ d); [now apply Zdigits2_lt_pow|].
            apply Z.pow_le_mono_r; lia. }
          assert (Zdigits2 m2 <= 1)
            by (apply Zdigits2_le; [lia | lia | change (2 ^ 1) with 2; lia]).
          lia. }
      lia.
Qed.

Lemma below_pow2_finite k x : below_pow2 k x -> finite x.
Proof. unfold below_pow2, finite. destruct (Prim2SF x); tauto. Qed.

Lemma finite_not_nan x : finite x -> not_nan x.
Proof. unfold finite, not_nan. destruct (Prim2SF x); intuition discriminate. Qed.

Lemma below_pow2_mono k k' x : k <= k' -> below_pow2 k x -> below_pow2 k' x.
Proof. unfold below_pow2. destruct (Prim2SF x); intros; try tauto; lia. Qed.

(** A finite binary64 value is canonical: at most 53 digits, and an
    exponent tied to the magnitude. *)
Lemma valid_finite (x : float) s m e :
  Prim2SF x = S754_finite s m e ->
  Zpos (digits2_pos m) <= 53
  /\ e = Z.max (Zpos (digits2_pos m) + e - 53) (-1074)
  /\ e <= 971.
Proof.
  intros Hx. pose proof (Prim2SF_valid x) as Hv. rewrite Hx in Hv.
  simpl in Hv. unfold bounded, canonical_mantissa in Hv.
  apply andb_true_iff in Hv. destruct Hv as [Hc He].
  apply Z.eqb_eq in Hc. apply Z.leb_le in He.
  change (fexp prec emax (Zpos (digits2_pos m) + e))
    with (Z.max (Zpos (digits2_pos m) + e - 53) (-1074)) in Hc.
  change (emax - prec) with 971 in He. lia.
Qed.

Lemma nonneg_forms (x : float) :
  nonneg x <->
  (exists s, Prim2SF x = S754_zero s)
  \/ (exists m e, Prim2SF x = S754_finite false m e)
  \/ Prim2SF x = S754_infinity false.
Proof.
  unfold nonneg. rewrite leb_spec. unfold SFleb.
  change (Prim2SF 0) with (S754_zero false).
  destruct (Prim2SF x) as [s|s| |s m e]; simpl.
  - split; [intros _; left; now exists s | reflexivity].
  - destruct s; simpl; split; try discriminate.
    + intros [[s H]|[[m [e H]]|H]]; discriminate.
    + intros _. now right; right.
    + reflexivity.
  - split; [discriminate|]. intros [[s H]|[[m [e H]]|H]]; discriminate.
  - destruct s; simpl; split; try discriminate.
    + intros [[s H]|[[m' [e' H]]|H]]; discriminate.
    + intros _. right; left. now exists m, e.
    + reflexivity.
Qed.

Lemma nonneg_not_nan x : nonneg x -> not_nan x.
Proof.
  intros H. apply nonneg_forms in H. unfold not_nan.
  destruct H as [[s H]|[[m [e H]]|H]]; rewrite H; discriminate.
Qed.

(** [abs(x) <= 1] bounds the magnitude. *)
Lemma abs_le_one_below (x : float) :
  PrimFloat.leb (PrimFloat.abs x) 1 = true -> below_pow2 1 x.
Proof.
  rewrite leb_spec, abs_spec. unfold SFleb, below_pow2.
  change (Prim2SF 1) with (S754_finite false 4503599627370496 (-52)).
  destruct (Prim2SF x) as [s|s| |s m e] eqn:Hx; cbn [SFabs SFcompare];
    try discriminate; [tauto|].
  destruct (valid_finite x s m e Hx) as (Hd & _ & _).
  destruct (Z.compare e (-52)) eqn:He; try discriminate.
  - apply Z.compare_eq_iff in He. lia.
  - assert (e < -52) by exact He. lia.
Qed.

Lemma digits2_pos_mul_le (p q : positive) :
  Zpos (digits2_pos (p * q)) <= Zpos (digits2_pos p) + Zpos (digits2_pos q).
Proof.
  pose proof (digits2_pos_bounds p) as [_ Hp].
  pose proof (digits2_pos_bounds q) as [_ Hq].
  apply (Zdigits2_le (Zpos (p * q))); [lia | lia |].
  rewrite Pos2Z.inj_mul, Z.pow_add_r by lia. nia.
Qed.

(** The product of two bounded values is finite. *)
Lemma mul_finite (a b : Z) (x y : float) :
  below_pow2 a x -> below_pow2 b y -> a + b <= 1023 ->
  finite (PrimFloat.mul x y).
Proof.
  unfold below_pow2, finite. rewrite mul_spec. unfold SF64mul, SFmul.
  destruct (Prim2SF x) as [sx|sx| |sx mx ex] eqn:Hx; try tauto;
    destruct (Prim2SF y) as [sy|sy| |sy my ey] eqn:Hy; try tauto.
  intros Ha Hb Hab.
  destruct (valid_finite x _ _ _ Hx) as (Hdx & Hex & _).
  destruct (valid_finite y _ _ _ Hy) as (Hdy & Hey & _).
  pose proof (digits2_pos_mul_le mx my) as Hd.
  destruct (binary_round_aux_forms (xorb sx sy) (Zpos (mx * my)) (ex + ey)
              loc_Exact ltac:(lia)) as [Hforms Hfin].
  cbv zeta in Hforms, Hfin.
  assert (Hno : binary_round_aux prec emax (xorb sx sy) (Zpos (mx * my))
                  (ex + ey) loc_Exact <> S754_infinity (xorb sx sy)).
  { apply Hfin; simpl Zdigits2; lia. }
  destruct Hforms as [-> | [(m & e & ->) | Hinf]]; [exact I | exact I |].
  contradiction.
Qed.

(** A product of finite values is never a NaN. *)
Lemma mul_finite_not_nan (x y : float) :
  finite x -> finite y -> not_nan (PrimFloat.mul x y).
Proof.
  unfold finite, not_nan. rewrite mul_spec. unfold SF64mul, SFmul.
  destruct (Prim2SF x) as [sx|sx| |sx mx ex]; try tauto;
    destruct (Prim2SF y) as [sy|sy| |sy my ey]; try tauto;
    intros _ _; try discriminate.
  destruct (binary_round_aux_forms (xorb sx sy) (Zpos (mx * my)) (ex + ey)
              loc_Exact ltac:(lia)) as [[-> | [(m & e & ->) | ->]] _];
    discriminate.
Qed.

(** Multiplying a number by a finite non-zero constant gives a number. *)
Lemma mul_const_not_nan (x c : float) s m e :
  Prim2SF c = S754_finite s m e ->
  not_nan x -> not_nan (PrimFloat.mul x c).
Proof.
  intros Hc. unfold not_nan. rewrite mul_spec, Hc. unfold SF64mul, SFmul.
  destruct (Prim2SF x) as [sx|sx| |sx mx ex]; intros H; try discriminate;
    [contradiction|].
  destruct (binary_round_aux_forms (xorb sx s) (Zpos (mx * m)) (ex + e)
              loc_Exact ltac:(lia)) as [[-> | [(m' & e' & ->) | ->]] _];
    discriminate.
Qed.

Lemma div_eucl_nonneg (a b : Z) :
  0 <= a -> 0 < b -> 0 <= fst (Z.div_eucl a b).
Proof.
  intros Ha Hb. change (fst (Z.div_eucl a b)) with (a / b).
  apply Z.div_pos; lia.
Qed.

Lemma SFdiv_core_nonneg (m1 e1 m2 e2 : Z) :
  0 <= m1 -> 0 < m2 ->
  0 <= fst (fst (SFdiv_core_binary prec emax m1 e1 m2 e2)).
Proof.
  intros H1 H2. unfold SFdiv_core_binary.
  set (s := e1 - e2 - _).
  set (m' := match s with Z.pos _ => Z.shiftl m1 s | Z0 => m1 | Z.neg _ => 0 end).
  assert (Hm' : 0 <= m').
  { subst m'. destruct s; try lia. apply Z.shiftl_nonneg. exact H1. }
  pose proof (div_eucl_nonneg m' m2 Hm' H2) as Hq.
  destruct (Z.div_eucl m' m2) as [q r]. exact Hq.
Qed.

(** Dividing a number by a finite non-zero constant gives a number. *)
Lemma div_const_not_nan (x c : float) s m e :
  Prim2SF c = S754_finite s m e ->
  not_nan x -> not_nan (PrimFloat.div x c).
Proof.
  intros Hc. unfold not_nan. rewrite div_spec, Hc. unfold SF64div, SFdiv.
  destruct (Prim2SF x) as [sx|sx| |sx mx ex]; intros H; try discriminate;
    [contradiction|].
  pose proof (SFdiv_core_nonneg (Zpos mx) ex (Zpos m) e ltac:(lia) ltac:(lia))
    as Hq.
  destruct (SFdiv_core_binary prec emax (Zpos mx) ex (Zpos m) e)
    as [[mz ez] lz]. simpl in Hq.
  destruct (binary_round_aux_forms (xorb sx s) mz ez lz Hq)
    as [[-> | [(m' & e' & ->) | ->]] _]; discriminate.
Qed.

(** A positive finite constant times a non-negative value is
    non-negative. *)
Lemma mul_pos_const_nonneg (c x : float) m e :
  Prim2SF c = S754_finite false m e ->
  nonneg x -> nonneg (PrimFloat.mul c x).
Proof.
  intros Hc Hx. apply nonneg_forms in Hx. apply nonneg_forms.
  rewrite mul_spec, Hc. unfold SF64mul, SFmul.
  destruct Hx as [[s ->] | [(mx & ex & ->) | ->]].
  - left. now eexists.
  - destruct (binary_round_aux_forms (xorb false false) (Zpos (m * mx)) (e + ex)
                loc_Exact ltac:(lia)) as [[-> | [(m' & e' & ->) | ->]] _].
    + left. now eexists.
    + right; left. now eexists _, _.
    + now right; right.
  - now right; right.
Qed.

Lemma iter_xO_value (m d : positive) :
  Zpos (Pos.iter xO m d) = Zpos m * 2 ^ Zpos d.
Proof.
  induction d as [|d IH] using Pos.peano_ind.
  - simpl. lia.
  - rewrite Pos.iter_succ, Pos2Z.inj_xO, IH, Pos2Z.inj_succ,
      Z.pow_succ_r by lia. ring.
Qed.

Lemma iter_xO_digits (m d : positive) :
  Zpos (digits2_pos (Pos.iter xO m d)) = Zpos (digits2_pos m) + Zpos d.
Proof.
  induction d as [|d IH] using Pos.peano_ind.
  - simpl. lia.
  - rewrite Pos.iter_succ. simpl digits2_pos.
    rewrite Pos2Z.inj_succ, IH. lia.
Qed.

Lemma shl_align_spec (mx : positive) (ex ex' : Z) :
  exists mz ez,
    shl_align mx ex ex' = (mz, ez)
    /\ ez = Z.min ex ex'
    /\ Zpos mz = Zpos mx * 2 ^ (ex - ez)
    /\ Zpos (digits2_pos mz) + ez = Zpos (digits2_pos mx) + ex.
Proof.
  unfold shl_align. destruct (ex' - ex) as [|d|d] eqn:Hd.
  - exists mx, ex. split; [reflexivity|]. split; [lia|]. split; [|lia].
    replace (ex - ex) with 0 by lia. simpl; lia.
  - exists mx, ex. split; [reflexivity|]. split; [lia|]. split; [|lia].
    replace (ex - ex) with 0 by lia. simpl; lia.
  - exists (Pos.iter xO mx d), ex'. split; [reflexivity|].
    split; [lia|]. rewrite iter_xO_value, iter_xO_digits.
    replace (ex - ex') with (Zpos d) by lia. split; lia.
Qed.

(** [binary_round]: the forms of the result, and no overflow in range. *)
Lemma binary_round_forms (sx : bool) (mx : positive) (ex : Z) :
  let r := binary_round prec emax sx mx ex in
  (r = S754_zero sx \/ (exists m e, r = S754_finite sx m e)
   \/ r = S754_infinity sx)
  /\ (Zpos (digits2_pos mx) + ex <= 1023 -> r <> S754_infinity sx).
Proof.
  unfold binary_round.
  destruct (shl_align_spec mx ex (fexp prec emax (Zpos (digits2_pos mx) + ex)))
    as (mz & ez & -> & Hez & _ & Hdig).
  destruct (binary_round_aux_forms sx (Zpos mz) ez loc_Exact ltac:(lia))
    as [Hforms Hfin].
  cbv zeta in *. split; [exact Hforms|].
  intros Hmag. apply Hfin.
  - rewrite fexp_eq in Hez. lia.
  - simpl Zdigits2. lia.
Qed.

Lemma binary_normalize_not_nan (z e : Z) :
  binary_normalize prec emax z e false <> S754_nan.
Proof.
  destruct z as [|p|p]; simpl; [discriminate| |].
  - destruct (binary_round_forms false p e) as [[-> | [(m & e' & ->) | ->]] _];
      discriminate.
  - destruct (binary_round_forms true p e) as [[-> | [(m & e' & ->) | ->]] _];
      discriminate.
Qed.

Lemma binary_normalize_finite (z e : Z) :
  Zdigits2 z + e <= 1023 ->
  match binary_normalize prec emax z e false with
  | S754_zero _ | S754_finite _ _ _ => True
  | _ => False
  end.
Proof.
  intros Hmag. destruct z as [|p|p]; simpl in *; [exact I| |].
  - destruct (binary_round_forms false p e) as [Hf Hfin]. cbv zeta in *.
    specialize (Hfin Hmag).
    destruct Hf as [-> | [(m & e' & ->) | Hinf]]; try exact I. contradiction.
  - destruct (binary_round_forms true p e) as [Hf Hfin]. cbv zeta in *.
    specialize (Hfin Hmag).
    destruct Hf as [-> | [(m & e' & ->) | Hinf]]; try exact I. contradiction.
Qed.

Lemma Zdigits2_abs_le (z k : Z) :
  0 <= k -> Z.abs z < 2 ^ k -> Zdigits2 z <= k.
Proof.
  intros Hk Hz. destruct z as [|p|p]; simpl in *; try lia.
  - apply (Zdigits2_le (Zpos p)); lia.
  - apply (Zdigits2_le (Zpos p)); lia.
Qed.

Lemma aligned_bound (a : Z) (m : positive) (e ez : Z) :
  Zpos (digits2_pos m) + e <= a -> ez <= e ->
  Zpos m * 2 ^ (e - ez) < 2 ^ (a - ez).
Proof.
  intros Ha He. pose proof (digits2_pos_bounds m) as [_ Hm].
  apply Z.lt_le_trans with (2 ^ Zpos (digits2_pos m) * 2 ^ (e - ez)).
  - apply Z.mul_lt_mono_pos_r; [apply Z.pow_pos_nonneg; lia | exact Hm].
  - rewrite <- Z.pow_add_r by lia. apply Z.pow_le_mono_r; lia.
Qed.

(** The sum of two bounded values is finite. *)
Lemma add_finite (a : Z) (x y : float) :
  below_pow2 a x -> below_pow2 a y -> a <= 1022 ->
  finite (PrimFloat.add x y).
Proof.
  unfold below_pow2, finite. rewrite add_spec. unfold SF64add, SFadd.
  destruct (Prim2SF x) as [sx|sx| |sx mx ex] eqn:Hx; try tauto;
    destruct (Prim2SF y) as [sy|sy| |sy my ey] eqn:Hy; try tauto.
  - intros _ _ _. destruct sx, sy; exact I.
  - intros Ha Hb Hab.
    destruct (shl_align_spec mx ex (Z.min ex ey)) as (mx' & ezx & -> & Hezx & Hvx & _).
    destruct (shl_align_spec my ey (Z.min ex ey)) as (my' & ezy & -> & Hezy & Hvy & _).
    cbn [fst]. apply binary_normalize_finite.
    set (ez := Z.min ex ey) in *.
    assert (Hx' : Zpos mx' < 2 ^ (a - ez)).
    { rewrite Hvx. replace ezx with ez by lia. apply aligned_bound; lia. }
    assert (Hy' : Zpos my' < 2 ^ (a - ez)).
    { rewrite Hvy. replace ezy with ez by lia. apply aligned_bound; lia. }
    pose proof (digits2_pos_bounds mx) as _.
    assert (Haez : 0 <= a - ez).
    { pose proof (Pos2Z.is_pos (digits2_pos mx)). lia. }
    assert (Zdigits2 (cond_Zopp sx (Zpos mx') + cond_Zopp sy (Zpos my'))
            <= a - ez + 1).
    { apply Zdigits2_abs_le; [lia|].
      rewrite Z.pow_add_r by lia. change (2 ^ 1) with 2.
      unfold cond_Zopp. destruct sx, sy; lia. }
    lia.
Qed.

(** A difference of finite values is never a NaN. *)
Lemma sub_finite_not_nan (x y : float) :
  finite x -> finite y -> not_nan (PrimFloat.sub x y).
Proof.
  unfold finite, not_nan. rewrite sub_spec. unfold SF64sub, SFsub.
  destruct (Prim2SF x) as [sx|sx| |sx mx ex]; try tauto;
    destruct (Prim2SF y) as [sy|sy| |sy my ey]; try tauto;
    intros _ _; try discriminate.
  - destruct sx, sy; discriminate.
  - apply binary_normalize_not_nan.
Qed.

(** The sum of a finite value and a number is never a NaN. *)
Lemma add_finite_not_nan (x y : float) :
  finite x -> not_nan y -> not_nan (PrimFloat.add x y).
Proof.
  unfold finite, not_nan. rewrite add_spec. unfold SF64add, SFadd.
  destruct (Prim2SF x) as [sx|sx| |sx mx ex]; try tauto;
    destruct (Prim2SF y) as [sy|sy| |sy my ey]; try tauto;
    intros _ Hy; try discriminate; try contradiction.
  - destruct sx, sy; discriminate.
  - apply binary_normalize_not_nan.
Qed.

(* --------------------------------------------------------------------- *)
(** ** Square root and the steps of the haversine formula *)
(* --------------------------------------------------------------------- *)

Lemma sqrtrem_nonneg (n : Z) : 0 <= fst (Z.sqrtrem n).
Proof. rewrite Z.sqrtrem_sqrt. apply Z.sqrt_nonneg. Qed.

Lemma SFsqrt_core_nonneg (m e : Z) :
  0 <= fst (fst (SFsqrt_core_binary prec emax m e)).
Proof.
  unfold SFsqrt_core_binary.
  set (m' := match _ with Z.pos _ => _ | Z0 => _ | Z.neg _ => _ end).
  pose proof (sqrtrem_nonneg m') as Hq.
  destruct (Z.sqrtrem m') as [q r]. exact Hq.
Qed.

(** What a false [x < 0] leaves for a number. *)
Lemma not_negative_forms (x : float) :
  not_nan x -> PrimFloat.ltb x 0 = false ->
  (exists s, Prim2SF x = S754_zero s)
  \/ (exists m e, Prim2SF x = S754_finite false m e)
  \/ Prim2SF x = S754_infinity false.
Proof.
  unfold not_nan. rewrite ltb_spec. unfold SFltb.
  change (Prim2SF 0) with (S754_zero false).
  destruct (Prim2SF x) as [s|s| |s m e]; simpl; intros Hn Hlt.
  - left. now exists s.
  - destruct s; [discriminate | now right; right].
  - contradiction.
  - destruct s; [discriminate |]. right; left. now exists m, e.
Qed.

Lemma sqrt_of_not_negative (x : float) :
  not_nan x -> PrimFloat.ltb x 0 = false ->
  nonneg (PrimFloat.sqrt x)
  /\ (Prim2SF (PrimFloat.sqrt x) = S754_zero true -> Prim2SF x = S754_zero true)
  /\ ((exists s, Prim2SF x = S754_zero s) -> PrimFloat.sqrt x = x).
Proof.
  intros Hn Hlt.
  destruct (not_negative_forms x Hn Hlt) as [[s Hx] | [(m & e & Hx) | Hx]].
  - assert (Hs : Prim2SF (PrimFloat.sqrt x) = S754_zero s)
      by (rewrite sqrt_spec, Hx; reflexivity).
    split; [apply nonneg_forms; left; exists s; exact Hs|].
    split; [congruence|]. intros _. apply Prim2SF_inj. congruence.
  - assert (Hs : Prim2SF (PrimFloat.sqrt x)
                 = let '(mz, ez, lz) := SFsqrt_core_binary prec emax (Zpos m) e in
                   binary_round_aux prec emax false mz ez lz)
      by (rewrite sqrt_spec, Hx; reflexivity).
    pose proof (SFsqrt_core_nonneg (Zpos m) e) as Hq.
    destruct (SFsqrt_core_binary prec emax (Zpos m) e) as [[mz ez] lz].
    simpl in Hq.
    destruct (binary_round_aux_forms false mz ez lz Hq)
      as [[Hr | [(m' & e' & Hr) | Hr]] _]; cbv zeta in *; rewrite Hr in Hs.
    + split; [apply nonneg_forms; left; eexists; exact Hs|].
      split; [congruence|]. intros [s Hs']. congruence.
    + split; [apply nonneg_forms; right; left; eexists _, _; exact Hs|].
      split; [congruence|]. intros [s Hs']. congruence.
    + split; [apply nonneg_forms; right; right; exact Hs|].
      split; [congruence|]. intros [s Hs']. congruence.
  - assert (Hs : Prim2SF (PrimFloat.sqrt x) = S754_infinity false)
      by (rewrite sqrt_spec, Hx; reflexivity).
    split; [apply nonneg_forms; right; right; exact Hs|].
    split; [congruence|]. intros [s Hs']. congruence.
Qed.

(** [1 - a] *)
Lemma one_minus_not_nan (a : float) :
  not_nan a -> not_nan (PrimFloat.sub 1 a).
Proof.
  unfold not_nan. rewrite sub_spec. unfold SF64sub, SFsub.
  change (Prim2SF 1) with (S754_finite false 4503599627370496 (-52)).
  destruct (Prim2SF a) as [s|s| |s m e]; intros H; try discriminate;
    [contradiction|].
  apply binary_normalize_not_nan.
Qed.

Lemma one_minus_zero (a : float) s :
  Prim2SF a = S754_zero s -> PrimFloat.sub 1 a = 1%float.
Proof.
  intros Ha. apply Prim2SF_inj. rewrite sub_spec, Ha. reflexivity.
Qed.

(** A jitter within the bounds of [random.uniform(-0.03, 0.03)] is below
    [2 ^ -5] in magnitude. *)

Lemma jitter_below (j : float) :
  PrimFloat.leb (-0x1.eb851eb851eb8p-6) j = true ->
  PrimFloat.leb j 0x1.eb851eb851eb8p-6 = true ->
  below_pow2 (-5) j.
Proof.
  rewrite !leb_spec. unfold SFleb, below_pow2.
  remember (Prim2SF (-0x1.eb851eb851eb8p-6)) as lo eqn:Hlo.
  remember (Prim2SF 0x1.eb851eb851eb8p-6) as hi eqn:Hhi.
  vm_compute in Hlo, Hhi. subst lo hi.
  destruct (Prim2SF j) as [s|s| |s m e] eqn:Hj; cbn [SFcompare].
  - tauto.
  - destruct s; intros H1 H2; discriminate.
  - intros H1; discriminate.
  - destruct (valid_finite j s m e Hj) as (Hd & _ & _).
    destruct s.
    + intros Hlow _. destruct (Z.compare (-58) e) eqn:He; try discriminate.
      * apply Z.compare_eq_iff in He. lia.
      * assert (e < -58) by (apply Z.compare_gt_iff; exact He). lia.
    + intros _ Hup. destruct (Z.compare e (-58)) eqn:He; try discriminate.
      * apply Z.compare_eq_iff in He. lia.
      * assert (e < -58) by exact He. lia.
Qed.

(** [SF2Prim] keeps the sign of a non-negative specification value. *)


Lemma SFldexp_nonneg (f : spec_float) (e : Z) :
  ((exists s, f = S754_zero s) \/ (exists m e', f = S754_finite false m e')
   \/ f = S754_infinity false) ->
  let r := SFldexp prec emax f e in
  (exists s, r = S754_zero s) \/ (exists m e', r = S754_finite false m e')
  \/ r = S754_infinity false.
Proof.
  intros [[s ->] | [(m & e' & ->) | ->]]; simpl.
  - left. now eexists.
  - destruct (binary_round_forms false m (e' + e))
      as [[-> | [(m' & e'' & ->) | ->]] _].
    + left. now eexists.
    + right; left. now eexists _, _.
    + now right; right.
  - now right; right.
Qed.

Lemma SF2Prim_nonneg (r : spec_float) :
  ((exists s, r = S754_zero s) \/ (exists m e, r = S754_finite false m e)
   \/ r = S754_infinity false) ->
  nonneg (SF2Prim r).
Proof.
  intros [[s ->] | [(m & e & ->) | ->]].
  - destruct s; reflexivity.
  - apply nonneg_forms. unfold SF2Prim.
    rewrite Z_ldexp_spec. apply SFldexp_nonneg.
    rewrite of_uint63_spec.
    pose proof (to_Z_bounded (of_Z (Zpos m))) as [Hlo _].
    destruct (to_Z (of_Z (Zpos m))) as [|p|p]; try lia; simpl.
    + left. now eexists.
    + destruct (binary_round_forms false p 0)
        as [[-> | [(m' & e'' & ->) | ->]] _].
      * left. now eexists.
      * right; left. now eexists _, _.
      * now right; right.
  - reflexivity.
Qed.

(* ===================================================================== *)
(** * Binary64 facts used by the drift monitor *)
(* ===================================================================== *)

Lemma positive_is_not_zero (x : float) :
  PrimFloat.ltb 0 x = true -> PrimFloat.eqb x 0 = false.
Proof.
  rewrite ltb_spec, eqb_spec. unfold SFltb, SFeqb.
  change (Prim2SF 0) with (S754_zero false).
  destruct (Prim2SF x) as [s | s | | s m e]; simpl;
    try discriminate; destruct s; (reflexivity || discriminate).
Qed.

(** Multiplying by a 7-bit factor adds 6 or 7 bits. *)
Lemma digits2_pos_scaled (k p : positive) :
  64 <= Zpos k < 128 ->
  Zpos (digits2_pos (k * p)) - Zpos (digits2_pos p) = 6
  \/ Zpos (digits2_pos (k * p)) - Zpos (digits2_pos p) = 7.
Proof.
  intros Hk.
  pose proof (digits2_pos_bounds p) as [Hp1 Hp2].
  pose proof (digits2_pos_bounds (k * p)) as [Hq1 Hq2].
  rewrite Pos2Z.inj_mul in Hq1, Hq2.
  set (dp := Zpos (digits2_pos p)) in *.
  set (dq := Zpos (digits2_pos (k * p))) in *.
  assert (Hdp : 1 <= dp) by (subst dp; lia).
  assert (Hdq : 1 <= dq) by (subst dq; lia).
  assert (Hup : dq - 1 < dp + 7).
  { apply (Z.pow_lt_mono_r_iff 2); [lia | lia |].
    rewrite Z.pow_add_r by lia. change (2 ^ 7) with 128. nia. }
  assert (Hlo : dp + 5 < dq).
  { apply (Z.pow_lt_mono_r_iff 2); [lia | lia |].
    replace (dp + 5) with ((dp - 1) + 6) by lia.
    rewrite Z.pow_add_r by lia. change (2 ^ 6) with 64. nia. }
  lia.
Qed.

Lemma div_eucl_multiple (a b : Z) :
  0 < b -> Z.div_eucl (a * b) b = (a, 0).
Proof.
  intros Hb.
  pose proof (Z.div_mul a b ltac:(lia)) as Hd.
  pose proof (Z.mod_mul a b ltac:(lia)) as Hm.
  unfold Z.div, Z.modulo in *.
  destruct (Z.div_eucl (a * b) b) as [q r]. simpl in *. congruence.
Qed.

(** Dividing the multiple [k * p] by [p], for a 7-bit [k], rounds the exact
    quotient [k], scaled by 46 or 47 binary places. *)
Lemma SFdiv_multiple (k p : positive) :
  64 <= Zpos k < 128 ->
  exists s, (s = 46 \/ s = 47)
    /\ SFdiv prec emax (S754_finite false (k * p) 0) (S754_finite false p 0)
       = binary_round_aux prec emax false (Zpos k * 2 ^ s) (- s) loc_Exact.
Proof.
  intros Hk.
  assert (Hloc : forall q, new_location (Zpos q) 0 = loc_Exact).
  { intros q. unfold new_location. destruct (Z.even (Zpos q)); reflexivity. }
  unfold SFdiv, SFdiv_core_binary. cbn [Zdigits2 xorb].
  rewrite !Z.add_0_r, Z.sub_0_r.
  destruct (digits2_pos_scaled k p Hk) as [-> | ->].
  - exists 47. split; [now right |].
    change (Z.min (fexp prec emax 6) 0) with (-47).
    change (0 - -47) with 47. cbv iota beta.
    rewrite Z.shiftl_mul_pow2 by lia. rewrite Pos2Z.inj_mul.
    replace (Zpos k * Zpos p * 2 ^ 47) with ((Zpos k * 2 ^ 47) * Zpos p) by ring.
    rewrite div_eucl_multiple by lia. now rewrite Hloc.
  - exists 46. split; [now left |].
    change (Z.min (fexp prec emax 7) 0) with (-46).
    change (0 - -46) with 46. cbv iota beta.
    rewrite Z.shiftl_mul_pow2 by lia. rewrite Pos2Z.inj_mul.
    replace (Zpos k * Zpos p * 2 ^ 46) with ((Zpos k * 2 ^ 46) * Zpos p) by ring.
    rewrite div_eucl_multiple by lia. now rewrite Hloc.
Qed.

(** [115 * n / n] is [115.0] and [95 * n / n] is [95.0], whatever the
    positive [n]. *)
Lemma int_truediv_115 (n : Z) :
  0 < n -> PyNum.int_truediv (115 * n) n = ret 115%float.
Proof.
  intros Hn. unfold PyNum.int_truediv.
  destruct n as [|p|p]; try lia.
  change (Zpos p =? 0) with false. cbv iota.
  change (115 * Zpos p) with (Zpos (115 * p)). unfold PyNum.exact.
  destruct (SFdiv_multiple 115 p ltac:(lia)) as [s [[-> | ->] ->]];
    vm_compute; reflexivity.
Qed.

Lemma int_truediv_95 (n : Z) :
  0 < n -> PyNum.int_truediv (95 * n) n = ret 95%float.
Proof.
  intros Hn. unfold PyNum.int_truediv.
  destruct n as [|p|p]; try lia.
  change (Zpos p =? 0) with false. cbv iota.
  change (95 * Zpos p) with (Zpos (95 * p)). unfold PyNum.exact.
  destruct (SFdiv_multiple 95 p ltac:(lia)) as [s [[-> | ->] ->]];
    vm_compute; reflexivity.
Qed.

Lemma len_positive {A} (l : list A) : l <> [] -> 0 < PyNum.len l.
Proof.
  destruct l; [congruence | intros _; unfold PyNum.len; simpl; lia].
Qed.

(* ===================================================================== *)
(** * Drift monitor: properties *)
(* ===================================================================== *)



(** With a well-formed baseline and a positive standard deviation, the
    [try] block raises only where the batch mean does. *)
Lemma drift_body_on_baseline (file : stats_file) (m s : float)
      (batch : list Z) :
  baseline file m s ->
  PrimFloat.ltb 0 s = true ->
  drift_body file batch
  = new_mean <- batch_mean batch ;;
    let z := PrimFloat.div (PrimFloat.sub new_mean m) s in
    ret {| baseline_mean := m;
           todays_mean := new_mean;
           z_score := z;
           conclusion := if PrimFloat.ltb 2 (PrimFloat.abs z)
                         then Drift_detected else Data_stable |}.
Proof.
  intros (fields & vm & vs & -> & Hm & Hs & Hvm & Hvs) Hpos.
  unfold drift_body, batch_mean.
  cbn [load_stats bind ret subscript]. rewrite Hm, Hs. cbn [bind ret].
  destruct (PyNum.int_truediv _ _) as [e | new_mean]; cbn [bind ret].
  - reflexivity.
  - rewrite Hvm, Hvs. cbn [bind ret].
    unfold PyNum.float_truediv. rewrite (positive_is_not_zero s Hpos).
    reflexivity.
Qed.

(** The file written by [train.py], and one holding the same statistics as
    JSON integers, are well-formed baselines. *)
Lemma training_stats_baseline (m s : float) :
  baseline (training_stats m s) m s.
Proof.
  exists [("mean_duration", JFloat m); ("std_duration", JFloat s);
          ("description", JStr "Baseline delivery stats from training data")],
         (JFloat m), (JFloat s).
  repeat split; reflexivity.
Qed.

Lemma integer_stats_baseline :
  baseline (Loaded (JObj [("mean_duration", JInt 90); ("std_duration", JInt 10)]))
           90 10.
Proof.
  exists [("mean_duration", JInt 90); ("std_duration", JInt 10)],
         (JInt 90), (JInt 10).
  repeat split; reflexivity.
Qed.

(** C4, as stated, fails for a batch whose mean leaves the binary64 range:
    the integer division raises [OverflowError] and the monitor returns the
    error text instead of a verdict, although the batch is not empty and
    the baseline is {mean = 90, std = 10}. *)
Lemma oversized_mean_is_an_error :
  [2 ^ 1024] <> []
  /\ baseline (training_stats 90 10) 90 10
  /\ PrimFloat.ltb 0 10 = true
  /\ batch_mean [2 ^ 1024] = raise OverflowError
  /\ check_data_drift (training_stats 90 10) [2 ^ 1024]
     = Error_checking_drift OverflowError.
Proof.
  split; [discriminate |]. split; [apply training_stats_baseline |].
  split; [reflexivity |]. split; vm_compute; reflexivity.
Qed.

(** C4, amended: for a non-empty batch whose mean [sum / len] is a binary64
    value [new_mean] (the division does not overflow) and a well-formed
    baseline {mean m, std s > 0}, the monitor reports z = (new_mean - m) / s
    and concludes drift exactly when |z| > 2, stability otherwise.  With the
    baseline {mean = 90, std = 10}, every non-empty batch of mean 115 gives
    z = 2.5 and drift, and every non-empty batch of mean 95 gives z = 0.5
    and stability. *)
Theorem drift_rule :
  (forall (file : stats_file) (m s : float) (batch : list Z)
          (new_mean : float),
      batch <> [] ->
      baseline file m s ->
      PrimFloat.ltb 0 s = true ->
      batch_mean batch = ret new_mean ->
      let z := PrimFloat.div (PrimFloat.sub new_mean m) s in
      exists r,
        check_data_drift file batch = Report r
        /\ baseline_mean r = m
        /\ todays_mean r = new_mean
        /\ z_score r = z
        /\ (conclusion r = Drift_detected
            <-> PrimFloat.ltb 2 (PrimFloat.abs z) = true)
        /\ (conclusion r = Data_stable
            <-> PrimFloat.ltb 2 (PrimFloat.abs z) = false))
  /\ (forall (file : stats_file) (batch : list Z),
         baseline file 90 10 ->
         batch <> [] ->
         PyNum.sum batch = 115 * PyNum.len batch ->
         check_data_drift file batch
         = Report {| baseline_mean := 90; todays_mean := 115;
                     z_score := 2.5; conclusion := Drift_detected |})
  /\ (forall (file : stats_file) (batch : list Z),
         baseline file 90 10 ->
         batch <> [] ->
         PyNum.sum batch = 95 * PyNum.len batch ->
         check_data_drift file batch
         = Report {| baseline_mean := 90; todays_mean := 95;
                     z_score := 0.5; conclusion := Data_stable |}).
Proof.
  split; [|split].
  - intros file m s batch new_mean _ Hfile Hs Hmean z.
    unfold check_data_drift.
    rewrite (drift_body_on_baseline file m s batch Hfile Hs), Hmean.
    cbn [bind ret]. subst z.
    eexists. split; [reflexivity |]. cbn.
    destruct (PrimFloat.ltb 2 _);
      repeat split; intros; try reflexivity; discriminate.
  - intros file batch Hfile Hne Hsum. unfold check_data_drift.
    rewrite (drift_body_on_baseline file 90 10 batch Hfile eq_refl).
    unfold batch_mean. rewrite Hsum, int_truediv_115 by now apply len_positive.
    reflexivity.
  - intros file batch Hfile Hne Hsum. unfold check_data_drift.
    rewrite (drift_body_on_baseline file 90 10 batch Hfile eq_refl).
    unfold batch_mean. rewrite Hsum, int_truediv_95 by now apply len_positive.
    reflexivity.
Qed.

Lemma drift_rule_witness :
  [110; 120] <> []
  /\ baseline (training_stats 90 10) 90 10
  /\ PrimFloat.ltb 0 10 = true
  /\ batch_mean [110; 120] = ret 115%float
  /\ (exists r,
        check_data_drift (training_stats 90 10) [110; 120] = Report r
        /\ z_score r = 2.5%float
        /\ conclusion r = Drift_detected)
  /\ check_data_drift (training_stats 90 10) [95] =
     Report {| baseline_mean := 90; todays_mean := 95;
               z_score := 0.5; conclusion := Data_stable |}.
Proof.
  assert (Hne : [110; 120] <> []) by discriminate.
  assert (Hfile : baseline (training_stats 90 10) 90 10).
  { exists [("mean_duration", JFloat 90); ("std_duration", JFloat 10);
            ("description",
             JStr "Baseline delivery stats from training data")],
           (JFloat 90), (JFloat 10).
    repeat split; reflexivity. }
  assert (Hstd : PrimFloat.ltb 0 10 = true) by reflexivity.
  assert (Hmean : batch_mean [110; 120] = ret 115%float) by reflexivity.
  split; [exact Hne |]. split; [exact Hfile |]. split; [exact Hstd |].
  split; [exact Hmean |].
  destruct drift_rule as [Hrule [_ Hstable]]. split.
  - destruct (Hrule (training_stats 90 10) 90%float 10%float [110; 120]
                    115%float Hne Hfile Hstd Hmean)
      as [r [Hr [_ [_ [Hz [Hdrift _]]]]]].
    exists r. split; [exact Hr |]. split; [exact Hz |].
    apply Hdrift. reflexivity.
  - apply Hstable; [exact Hfile | discriminate | reflexivity].
Defined.




(* ===================================================================== *)
(** * Generator: duration floor and sign of the distance *)
(* ===================================================================== *)

Section GeneratorFacts.

Import PyMath Generator.

(** A binary64 value greater than 5 is +infinity or a positive finite value
    whose integer part is at least 5. *)
Lemma above_five (x : float) :
  PrimFloat.ltb 5 x = true ->
  Prim2SF x = S754_infinity false
  \/ exists m e, Prim2SF x = S754_finite false m e
                 /\ 5 <= Z.shiftl (Zpos m) e.
Proof.
  intros Hlt. rewrite ltb_spec in Hlt.
  pose proof (Prim2SF_valid x) as Hvalid.
  change (Prim2SF 5) with (S754_finite false 5629499534213120 (-50)) in Hlt.
  unfold SFltb in Hlt.
  destruct (Prim2SF x) as [s | s | | s m e]; cbn [SFcompare] in Hlt;
    try discriminate.
  - destruct s; [discriminate | now left].
  - right. destruct s; [discriminate |]. exists m, e. split; [reflexivity |].
    simpl in Hvalid. unfold bounded, canonical_mantissa in Hvalid.
    apply andb_true_iff in Hvalid. destruct Hvalid as [Hcanon _].
    apply Z.eqb_eq in Hcanon. unfold fexp, SpecFloat.emin in Hcanon.
    change prec with 53 in Hcanon. change emax with 1024 in Hcanon.
    pose proof (digits2_pos_bounds m) as [Hlow _].
    destruct (Z.compare (-50) e) eqn:He; try discriminate.
    + apply Z.compare_eq_iff in He. subst e.
      change (PosDef.Pos.compare_cont Eq 5629499534213120 m)
        with (Pos.compare 5629499534213120 m) in Hlt.
      destruct (Pos.compare 5629499534213120 m) eqn:Hm; try discriminate.
      assert (Hm' : (5629499534213120 < m)%positive) by exact Hm.
      rewrite Z.shiftl_div_pow2 by lia.
      change (- -50) with 50.
      apply Z.div_le_lower_bound; [lia |].
      change (2 ^ 50) with 1125899906842624. lia.
    + assert (He' : -50 < e) by exact He.
      assert (Hdigits : Zpos (digits2_pos m) = 53).
      { change (Z.max (Zpos (digits2_pos m) + e - 53) (-1074) = e) in Hcanon.
        lia. }
      rewrite Hdigits in Hlow.
      change (2 ^ (53 - 1)) with 4503599627370496 in Hlow.
      destruct (Z.le_gt_cases 0 e) as [Hpos | Hneg].
      * rewrite Z.shiftl_mul_pow2 by lia.
        assert (0 < 2 ^ e) by (apply Z.pow_pos_nonneg; lia).
        nia.
      * rewrite Z.shiftl_div_pow2 by lia.
        apply Z.div_le_lower_bound; [apply Z.pow_pos_nonneg; lia |].
        assert (Hpow : 2 ^ (- e) <= 2 ^ 49)
          by (apply Z.pow_le_mono_r; lia).
        change (2 ^ 49) with 562949953421312 in Hpow. lia.
Qed.

(** The [delivery_duration_mins] field is at least 5 whenever the row is
    built; [int] raises only for a duration of +infinity. *)
Lemma duration_floor (d : draw) :
  match delivery_duration_mins d with
  | inr mins => 5 <= mins
  | inl e => e = OverflowError /\ final_duration d = infinity
  end.
Proof.
  unfold delivery_duration_mins, max_5.
  destruct (PrimFloat.ltb 5 (final_duration d)) eqn:Hlt; [| simpl; lia].
  cbn [int]. unfold int_of_float.
  destruct (above_five _ Hlt) as [Hinf | [m [e [Hfin Hfive]]]].
  - rewrite Hinf. split; [reflexivity |].
    apply Prim2SF_inj. now rewrite Hinf.
  - rewrite Hfin. exact Hfive.
Qed.

Ltac bind_inversion H :=
  repeat match type of H with
         | bind ?c _ = ret _ =>
             let E := fresh "E" in
             destruct c eqn:E; [discriminate H | cbn [bind] in H]
         end.

Lemma ret_inj {A} (a b : A) : ret a = ret b -> a = b.
Proof. intros H. now injection H. Qed.

Lemma math_sqrt_ok (x r : float) :
  not_nan x -> math_sqrt x = ret r ->
  nonneg r
  /\ (r = neg_zero -> Prim2SF x = S754_zero true)
  /\ ((exists s, Prim2SF x = S754_zero s) -> r = x).
Proof.
  intros Hn. unfold math_sqrt.
  destruct (PrimFloat.ltb x 0) eqn:Hlt; [discriminate|].
  intros H. apply ret_inj in H. subst r.
  destruct (sqrt_of_not_negative x Hn Hlt) as (H1 & H2 & H3).
  split; [exact H1|]. split; [|exact H3].
  intros Hz. apply H2. rewrite Hz. reflexivity.
Qed.

Lemma radians_not_nan (x : float) : not_nan x -> not_nan (math_radians x).
Proof.
  unfold math_radians. intros H.
  eapply mul_const_not_nan; [vm_compute; reflexivity | exact H].
Qed.

Lemma half_not_nan (x : float) : not_nan x -> not_nan (PrimFloat.div x 2).
Proof.
  intros H. eapply div_const_not_nan; [vm_compute; reflexivity | exact H].
Qed.

Lemma haversine_nonneg (M : math_module) (lat1 lon1 lat2 lon2 d : float) :
  math_contract M ->
  finite lat1 -> finite lon1 -> finite lat2 -> finite lon2 ->
  haversine M lat1 lon1 lat2 lon2 = ret d ->
  nonneg d.
Proof.
  intros HM Hlat1 Hlon1 Hlat2 Hlon2 H. unfold haversine in H.
  cbv zeta in H. bind_inversion H. apply ret_inj in H. subst d.
  rename f into sin_dphi, f0 into sq_dphi, f1 into cos1, f2 into cos2,
    f3 into sin_dlambda, f4 into sq_dlambda, f5 into root_a, f6 into root_1a.
  (* the arguments of sine and cosine are numbers *)
  assert (Hdphi : not_nan (PrimFloat.div (math_radians (PrimFloat.sub lat2 lat1)) 2))
    by (apply half_not_nan, radians_not_nan, sub_finite_not_nan; assumption).
  assert (Hdlambda : not_nan (PrimFloat.div (math_radians (PrimFloat.sub lon2 lon1)) 2))
    by (apply half_not_nan, radians_not_nan, sub_finite_not_nan; assumption).
  assert (Hphi1 : not_nan (math_radians lat1))
    by (apply radians_not_nan, finite_not_nan; assumption).
  assert (Hphi2 : not_nan (math_radians lat2))
    by (apply radians_not_nan, finite_not_nan; assumption).
  (* so every factor of [a] is bounded by 1 *)
  pose proof (sin_range M HM _ _ Hdphi E) as Hs1.
  pose proof (pow2_range M HM _ _ Hs1 E0) as Hq1.
  pose proof (cos_range M HM _ _ Hphi1 E1) as Hc1.
  pose proof (cos_range M HM _ _ Hphi2 E2) as Hc2.
  pose proof (sin_range M HM _ _ Hdlambda E3) as Hs2.
  pose proof (pow2_range M HM _ _ Hs2 E4) as Hq2.
  apply abs_le_one_below in Hq1, Hc1, Hc2, Hq2.
  (* and [a] is a number *)
  assert (Hcc : finite (PrimFloat.mul cos1 cos2))
    by (apply (mul_finite 1 1); [assumption | assumption | lia]).
  assert (Ha : not_nan (PrimFloat.add sq_dphi
                          (PrimFloat.mul (PrimFloat.mul cos1 cos2) sq_dlambda))).
  { apply add_finite_not_nan; [now apply below_pow2_finite with (k := 1)|].
    apply mul_finite_not_nan; [exact Hcc|].
    now apply below_pow2_finite with (k := 1). }
  set (a := PrimFloat.add sq_dphi _) in *.
  destruct (math_sqrt_ok a root_a Ha E5) as (Hra & Hra0 & _).
  destruct (math_sqrt_ok (PrimFloat.sub 1 a) root_1a
              (one_minus_not_nan a Ha) E6) as (Hrb & _ & _).
  (* the two roots are not both the negative zero *)
  assert (Hboth : ~ (root_a = neg_zero /\ root_1a = neg_zero)).
  { intros [Hza Hzb]. specialize (Hra0 Hza).
    rewrite (one_minus_zero a true Hra0) in E6.
    vm_compute in E6. apply ret_inj in E6. subst root_1a.
    vm_compute in Hzb. discriminate Hzb. }
  pose proof (atan2_sign M HM root_a root_1a Hra Hrb Hboth) as Hat.
  eapply mul_pos_const_nonneg; [vm_compute; reflexivity|].
  eapply mul_pos_const_nonneg; [vm_compute; reflexivity|].
  exact Hat.
Qed.

Lemma in_range_nonneg (v : spec_float) (r : float) :
  ((exists s, v = S754_zero s) \/ (exists m e, v = S754_finite false m e)
   \/ v = S754_infinity false) ->
  PyNum.in_range v = ret r -> nonneg r.
Proof.
  intros Hv H. unfold PyNum.in_range in H.
  destruct v as [s|s| |s m e]; try discriminate H;
    apply ret_inj in H; subst r; apply SF2Prim_nonneg; exact Hv.
Qed.

(** Rounding to hundredths keeps a non-negative value non-negative. *)
Lemma round2_nonneg (x r : float) :
  nonneg x -> round2 x = ret r -> nonneg r.
Proof.
  intros Hx. unfold round2.
  apply nonneg_forms in Hx.
  destruct Hx as [[s Hx] | [(m & e & Hx) | Hx]]; rewrite Hx.
  - intros H. apply ret_inj in H. subst r. apply nonneg_forms.
    left. now exists s.
  - destruct (if 0 <=? e then Zpos m * 2 ^ e * 100
              else div_half_even (Zpos m * 100) (2 ^ (- e))) as [|k|k].
    + intros H. apply ret_inj in H. subst r. reflexivity.
    + apply in_range_nonneg. unfold SFdiv.
      pose proof (SFdiv_core_nonneg (Zpos k) 0 100 0 ltac:(lia) ltac:(lia))
        as Hq.
      destruct (SFdiv_core_binary prec emax (Zpos k) 0 100 0) as [[mz ez] lz].
      simpl in Hq.
      destruct (binary_round_aux_forms (xorb false false) mz ez lz Hq)
        as [[-> | [(m' & e' & ->) | ->]] _].
      * left. now eexists.
      * right; left. now eexists _, _.
      * now right; right.
    + intros H. apply ret_inj in H. subst r. reflexivity.
  - intros H. apply ret_inj in H. subst r. apply nonneg_forms.
    now right; right.
Qed.

Lemma district_below (key : string) (lat lon : float) :
  district key = ret (lat, lon) -> below_pow2 6 lat /\ below_pow2 6 lon.
Proof.
  unfold district, DISTRICTS. cbn [PyDict.lookup].
  repeat match goal with
         | |- context [if String.eqb key ?c then _ else _] =>
             destruct (String.eqb key c)
         end;
    intros H; try discriminate H;
    apply ret_inj in H; injection H as <- <-;
    split; unfold below_pow2;
    match goal with
    | |- context [Prim2SF ?c] =>
        let v := eval vm_compute in (Prim2SF c) in
        change (Prim2SF c) with v
    end; simpl; lia.
Qed.

Lemma coordinate_finite (c j : float) :
  below_pow2 6 c -> jitter j -> finite (PrimFloat.add c j).
Proof.
  intros Hc [Hlo Hhi]. apply (add_finite 6); [exact Hc | | lia].
  apply below_pow2_mono with (k := -5); [lia|].
  now apply jitter_below.
Qed.

Lemma duration_at_least_five (d : draw) (mins : Z) :
  delivery_duration_mins d = ret mins -> 5 <= mins.
Proof.
  intros H. pose proof (duration_floor d) as Hf. rewrite H in Hf. exact Hf.
Qed.

(** C8: every row the generator builds has a duration of at least 5
    minutes and a non-negative rounded distance, whatever the jitters that
    [random.uniform] draws within its bounds and whatever the other draws,
    for a math library within its contract. *)
Theorem generated_row_invariant (M : math_module) (s : sample)
        (row : trip_row) :
  math_contract M ->
  possible s ->
  generate_row M s = ret row ->
  5 <= row_delivery_duration_mins row
  /\ PrimFloat.leb 0 (row_distance_km row) = true.
Proof.
  intros HM (J1 & J2 & J3 & J4) H.
  unfold generate_row in H. cbv zeta in H. bind_inversion H.
  apply ret_inj in H. subst row. cbn [row_delivery_duration_mins row_distance_km].
  destruct p as [lat1 lon1]. destruct p0 as [lat2 lon2]. cbn [fst snd] in *.
  destruct (district_below _ _ _ E) as [Hlat1 Hlon1].
  destruct (district_below _ _ _ E0) as [Hlat2 Hlon2].
  split.
  - exact (duration_at_least_five _ _ E3).
  - apply (round2_nonneg f); [|exact E2].
    apply (haversine_nonneg M _ _ _ _ f HM) in E1; try assumption;
      now apply coordinate_finite.
Qed.

(** The first-order math module is within the contract. *)
Lemma small_angle_contract : math_contract small_angle_math.
Proof.
  constructor; cbn [math_sin math_cos math_atan2 float_pow2 small_angle_math].
  - intros x r _ H. apply ret_inj in H. subst r. unfold within_one.
    destruct (PrimFloat.leb (PrimFloat.abs x) 1) eqn:Hx;
      [exact Hx | reflexivity].
  - intros x r _ H. apply ret_inj in H. subst r. reflexivity.
  - intros x r _ H. apply ret_inj in H. subst r. unfold within_one.
    destruct (PrimFloat.leb (PrimFloat.abs (PrimFloat.mul x x)) 1) eqn:Hx;
      [exact Hx | reflexivity].
  - intros y x Hy _ _. exact Hy.
Qed.

Lemma generated_row_invariant_witness :
  math_contract small_angle_math
  /\ possible sample_draw
  /\ generate_row small_angle_math sample_draw
     = ret {| row_distance_km := 0x1.5ae147ae147aep+2;
              row_delivery_duration_mins := 28 |}
  /\ 5 <= 28
  /\ PrimFloat.leb 0 0x1.5ae147ae147aep+2 = true.
Proof.
  assert (Hcontract : math_contract small_angle_math)
    by exact small_angle_contract.
  assert (Hdraw : possible sample_draw)
    by (repeat split; reflexivity).
  assert (Hrow : generate_row small_angle_math sample_draw
                 = ret {| row_distance_km := 0x1.5ae147ae147aep+2;
                          row_delivery_duration_mins := 28 |})
    by (vm_compute; reflexivity).
  split; [exact Hcontract |]. split; [exact Hdraw |]. split; [exact Hrow |].
  exact (generated_row_invariant small_angle_math sample_draw _
           Hcontract Hdraw Hrow).
Defined.

End GeneratorFacts.

(* ===================================================================== *)
(** * The further tools on sample values *)
(* ===================================================================== *)

(** The scrubber on texts for which Python's [re.sub] and [str.replace]
    give these results: the search is leftmost and greedy, and gives
    characters back to find the last dot that two letters follow. *)
Example anonymize_pii_samples :
  anonymize_pii "Contact max.mustermann@example.de or User_1234"
  = "Contact <EMAIL_REDACTED> or Anon_Customer_1234"
  /\ anonymize_pii "a@b.cd.e" = "<EMAIL_REDACTED>.e"
  /\ anonymize_pii "a@b.c.de" = "<EMAIL_REDACTED>"
  /\ anonymize_pii "x@a@b.co" = "x@<EMAIL_REDACTED>"
  /\ anonymize_pii "a@b.c" = "a@b.c"
  /\ anonymize_pii "UUser_User_" = "UAnon_Customer_Anon_Customer_"
  /\ anonymize_pii "a@b.cde@f.gh" = "<EMAIL_REDACTED>@f.gh"
  /\ anonymize_pii "User_7@web.de" = "<EMAIL_REDACTED>"
  /\ anonymize_pii "a@b.de1x" = "<EMAIL_REDACTED>1x".
Proof. repeat split; vm_compute; reflexivity. Qed.

Example get_weather_risk_samples :
  get_weather_risk "2026-01-15" = "Rainy"
  /\ get_weather_risk "2026-07-04" = "Sunny"
  /\ get_weather_risk "from 2026-07-30 to 2026-02-01" = "Rainy"
  /\ get_weather_risk "tomorrow" = "Cloudy".
Proof. repeat split; reflexivity. Qed.

(** Responses of the geocoding service: no answer, an answer that is not
    JSON, an error object, an empty list, [null], an address that is a
    string, and an address with a road only. *)
Example get_location_name_samples :
  Geocoder.get_location_name Geocoder.Request_failed
  = Geocoder.Error_retrieving_location Geocoder.RequestException
  /\ Geocoder.get_location_name Geocoder.Body_not_json
     = Geocoder.Error_retrieving_location (Geocoder.Python JSONDecodeError)
  /\ Geocoder.get_location_name
       (Geocoder.Json_body (JObj [("error", JStr "Unable to geocode")]))
     = Geocoder.Location_not_found
  /\ Geocoder.get_location_name (Geocoder.Json_body (JArr []))
     = Geocoder.Location_not_found
  /\ Geocoder.get_location_name (Geocoder.Json_body JNull)
     = Geocoder.Error_retrieving_location (Geocoder.Python TypeError)
  /\ Geocoder.get_location_name
       (Geocoder.Json_body (JObj [("address", JStr "Oranienstrasse 1")]))
     = Geocoder.Error_retrieving_location Geocoder.AttributeError
  /\ Geocoder.get_location_name
       (Geocoder.Json_body
          (JObj [("address", JObj [("road", JStr "Oranienstrasse")])]))
     = Geocoder.Located "Oranienstrasse, Berlin".
Proof. repeat split; reflexivity. Qed.

Example sampling_samples :
  Sampling.customer_name 4711 = "User_4711"
  /\ Sampling.is_rush_hour 9 = true
  /\ Sampling.is_rush_hour 10 = false
  /\ Sampling.traffic_choices 18 = ["High"; "Medium"]
  /\ Sampling.traffic_choices 22 = ["Low"; "Medium"; "High"].
Proof. repeat split; reflexivity. Qed.

(* ===================================================================== *)
(** * Texts and their suffixes *)
(* ===================================================================== *)


Section Strings.

Lemma append_nil_r (s : string) : s ++ "" = s.
Proof. induction s as [|c s IH]; simpl; [reflexivity | now rewrite IH]. Qed.

Lemma append_assoc (a b c : string) : (a ++ b) ++ c = a ++ b ++ c.
Proof. induction a as [|x a IH]; simpl; [reflexivity | now rewrite IH]. Qed.

Lemma length_append (a b : string) :
  String.length (a ++ b) = (String.length a + String.length b)%nat.
Proof. induction a as [|x a IH]; simpl; [reflexivity | now rewrite IH]. Qed.

Lemma suffix_of_refl (s : string) : suffix_of s s.
Proof. now exists "". Qed.

Lemma suffix_of_cons (w s : string) (c : ascii) :
  suffix_of w s -> suffix_of w (String c s).
Proof. intros [pre ->]. now exists (String c pre). Qed.

Lemma suffix_of_app (w a s : string) : suffix_of w s -> suffix_of w (a ++ s).
Proof. intros [pre ->]. exists (a ++ pre). now rewrite append_assoc. Qed.

Lemma suffix_of_trans (a b c : string) :
  suffix_of a b -> suffix_of b c -> suffix_of a c.
Proof. intros [p ->] [q ->]. exists (q ++ p). now rewrite append_assoc. Qed.

Lemma suffix_of_nil (w : string) : suffix_of w "" -> w = "".
Proof. intros [pre H]. destruct pre; [now simpl in H | discriminate]. Qed.

(** A suffix of [String c s] is the whole text or a suffix of [s]. *)
Lemma suffix_of_cons_inv (w s : string) (c : ascii) :
  suffix_of w (String c s) -> w = String c s \/ suffix_of w s.
Proof.
  intros [pre H]. destruct pre as [|x pre]; simpl in H.
  - now left.
  - right. injection H as _ H. now exists pre.
Qed.

(** A suffix of [a ++ b] starts inside [a] or is a suffix of [b]. *)
Lemma suffix_of_app_inv (w a b : string) :
  suffix_of w (a ++ b) ->
  (exists a1 t, a = a1 ++ t /\ t <> "" /\ w = t ++ b) \/ suffix_of w b.
Proof.
  induction a as [|c a IH]; simpl; intros H.
  - now right.
  - apply suffix_of_cons_inv in H. destruct H as [-> | H].
    + left. exists "", (String c a). repeat split. discriminate.
    + destruct (IH H) as [(a1 & t & -> & Ht & ->) | Hb]; [left | now right].
      exists (String c a1), t. now repeat split.
Qed.

Lemma suffix_of_length (w s : string) :
  suffix_of w s -> (String.length w <= String.length s)%nat.
Proof. intros [pre ->]. rewrite length_append. lia. Qed.

Lemma string_length_ind (P : string -> Prop) :
  (forall s, (forall t, (String.length t < String.length s)%nat -> P t) -> P s) ->
  forall s, P s.
Proof.
  intros H s. remember (String.length s) as n eqn:Hn.
  revert s Hn. induction n as [n IH] using lt_wf_ind.
  intros s ->. apply H. intros t Ht. now apply (IH (String.length t)).
Qed.

End Strings.

(* ===================================================================== *)
(** * Leftmost substitution *)
(* ===================================================================== *)


Section Substitution.

Import PySub.

Variables (m : matcher) (repl : string).

(** Without an occurrence anywhere, the text is returned as it is. *)
Lemma substitute_from_unmatched (fuel : nat) (s : string) :
  (forall w, suffix_of w s -> m w = None) ->
  substitute_from m repl fuel s = s.
Proof.
  revert s; induction fuel as [|fuel IH]; intros s H.
  - now destruct s.
  - destruct s as [|c s]; [reflexivity|]. simpl.
    rewrite (H _ (suffix_of_refl _)). f_equal. apply IH.
    intros w Hw. apply H. now apply suffix_of_cons.
Qed.

Lemma substitute_unmatched (s : string) :
  (forall w, suffix_of w s -> m w = None) -> substitute m repl s = s.
Proof. apply substitute_from_unmatched. Qed.

(** An occurrence is never empty and the scan goes on in what follows it. *)
Hypothesis progress :
  forall s rest, m s = Some rest -> exists occ, occ <> "" /\ s = occ ++ rest.

Lemma progress_length (s rest : string) :
  m s = Some rest -> (String.length rest < String.length s)%nat.
Proof.
  intros H. destruct (progress _ _ H) as (occ & Hocc & ->).
  rewrite length_append. destruct occ; [contradiction | simpl; lia].
Qed.

Lemma substitute_from_enough (f1 f2 : nat) (s : string) :
  (String.length s <= f1)%nat -> (String.length s <= f2)%nat ->
  substitute_from m repl f1 s = substitute_from m repl f2 s.
Proof.
  revert f2 s; induction f1 as [|f1 IH]; intros f2 s H1 H2.
  - destruct s; [now destruct f2 | simpl in H1; lia].
  - destruct s as [|c s]; [now destruct f2|].
    destruct f2 as [|f2]; [simpl in H2; lia|]. simpl in *.
    destruct (m (String c s)) as [rest|] eqn:E.
    + apply progress_length in E. simpl in E.
      f_equal. apply IH; lia.
    + f_equal. apply IH; lia.
Qed.

Lemma substitute_cons (c : ascii) (s : string) :
  substitute m repl (String c s)
  = match m (String c s) with
    | Some rest => repl ++ substitute m repl rest
    | None => String c (substitute m repl s)
    end.
Proof.
  unfold substitute. simpl.
  destruct (m (String c s)) as [rest|] eqn:E; [|reflexivity].
  apply progress_length in E. simpl in E.
  f_equal. apply substitute_from_enough; lia.
Qed.

Lemma matcher_nil : m "" = None.
Proof.
  destruct (m "") as [rest|] eqn:E; [|reflexivity].
  apply progress_length in E. simpl in E. lia.
Qed.

(** An occurrence found in a text is found in every extension of it. *)
Hypothesis extension :
  forall u v, m u <> None -> m (u ++ v) <> None.

(** The replacement starts with a character [b] that no occurrence runs
    over, and no occurrence starts inside the replacement. *)
Variables (b : ascii) (repl' : string).
Hypothesis repl_head : repl = String b repl'.
Hypothesis barrier :
  forall u z, m (u ++ String b z) <> None -> m u <> None.
Hypothesis inert :
  forall a t z, repl = a ++ t -> t <> "" -> m (t ++ z) = None.

(** The output is the input, or the input up to its first occurrence
    followed by the replacement. *)
Lemma substitute_first (s : string) :
  substitute m repl s = s
  \/ exists a y z, s = a ++ y /\ substitute m repl s = a ++ String b z.
Proof.
  induction s as [|c s IH].
  - now left.
  - rewrite substitute_cons. destruct (m (String c s)) as [rest|] eqn:E.
    + right. exists "", (String c s), (repl' ++ substitute m repl rest).
      split; [reflexivity|]. now rewrite repl_head.
    + destruct IH as [-> | (a & y & z & Hs & ->)]; [now left | right].
      exists (String c a), y, z. split; [now rewrite Hs | reflexivity].
Qed.

(** No occurrence is left in the output. *)
Lemma substitute_clean (s w : string) :
  suffix_of w (substitute m repl s) -> m w = None.
Proof.
  revert w. induction s as [s IH] using string_length_ind. intros w Hw.
  destruct s as [|c s].
  - apply suffix_of_nil in Hw. subst w. apply matcher_nil.
  - rewrite substitute_cons in Hw.
    destruct (m (String c s)) as [rest|] eqn:E.
    + apply suffix_of_app_inv in Hw.
      destruct Hw as [(a1 & t & Ha & Ht & ->) | Hw].
      * now apply (inert a1).
      * apply (IH rest); [now apply progress_length | exact Hw].
    + apply suffix_of_cons_inv in Hw. destruct Hw as [-> | Hw].
      * destruct (substitute_first s) as [-> | (a & y & z & Hs & ->)];
          [exact E|].
        destruct (m (String c (a ++ String b z))) as [r|] eqn:E';
          [exfalso | reflexivity].
        apply (extension (String c a) y).
        -- apply (barrier (String c a) z). simpl. now rewrite E'.
        -- simpl. now rewrite <- Hs.
      * apply (IH s); [simpl; lia | exact Hw].
Qed.

(** Substituting twice is substituting once. *)
Lemma substitute_idempotent (s : string) :
  substitute m repl (substitute m repl s) = substitute m repl s.
Proof.
  apply substitute_unmatched. intros w. apply substitute_clean.
Qed.

End Substitution.

(* ===================================================================== *)
(** * Prefixes, greedy repetition and the e-mail pattern *)
(* ===================================================================== *)

Section Prefixes.

Import PySub PyStr.

Lemma drop_prefix_some (p s rest : string) :
  drop_prefix p s = Some rest <-> s = p ++ rest.
Proof.
  revert s; induction p as [|a p IH]; intros s; simpl.
  - split; [now intros [= ->] | now intros ->].
  - destruct s as [|x s]; [split; discriminate|].
    destruct (Ascii.eqb a x) eqn:E.
    + apply Ascii.eqb_eq in E. subst x. rewrite IH. split.
      * now intros ->.
      * now intros [= ->].
    + apply Ascii.eqb_neq in E. split; [discriminate|].
      intros [= H _]. now elim E.
Qed.

Lemma drop_prefix_startswith (p s : string) :
  is_some (drop_prefix p s) = startswith p s.
Proof.
  revert s; induction p as [|a p IH]; intros s; simpl; [reflexivity|].
  destruct s as [|x s]; [reflexivity|].
  destruct (Ascii.eqb a x); [apply IH | reflexivity].
Qed.

Lemma drop_prefix_none (p s : string) :
  drop_prefix p s = None <-> startswith p s = false.
Proof.
  rewrite <- drop_prefix_startswith.
  destruct (drop_prefix p s); simpl; split; congruence.
Qed.

Lemma drop_prefix_progress (p : string) :
  p <> "" ->
  forall s rest, drop_prefix p s = Some rest ->
                 exists occ, occ <> "" /\ s = occ ++ rest.
Proof.
  intros Hp s rest H. apply drop_prefix_some in H. now exists p.
Qed.

Lemma drop_prefix_extension (p u v : string) :
  drop_prefix p u <> None -> drop_prefix p (u ++ v) <> None.
Proof.
  destruct (drop_prefix p u) as [rest|] eqn:E; [intros _ | congruence].
  apply drop_prefix_some in E. subst u. rewrite append_assoc.
  intros H. apply drop_prefix_none in H.
  assert (H' : startswith p (p ++ rest ++ v) = true)
    by (apply startswith_iff; now exists (rest ++ v)).
  congruence.
Qed.

(** A prefix that does not contain [b] cannot run over [b]. *)
Lemma drop_prefix_barrier (p : string) (b : ascii) :
  ~ In b (list_ascii_of_string p) ->
  forall u z, drop_prefix p (u ++ String b z) <> None ->
              drop_prefix p u <> None.
Proof.
  induction p as [|a p IH]; intros Hb u z; simpl; [discriminate|].
  destruct u as [|x u]; simpl.
  - destruct (Ascii.eqb a b) eqn:E; [|congruence].
    apply Ascii.eqb_eq in E. elim Hb. now left.
  - destruct (Ascii.eqb a x); [|congruence].
    apply IH. intros Hin. apply Hb. now right.
Qed.

(** No occurrence of [p] starts inside a text that lacks the first
    character of [p]. *)
Lemma drop_prefix_inert (a : ascii) (p repl : string) :
  ~ In a (list_ascii_of_string repl) ->
  forall r t z, repl = r ++ t -> t <> "" ->
                drop_prefix (String a p) (t ++ z) = None.
Proof.
  intros Ha r t z -> Ht. destruct t as [|x t]; [contradiction|]. simpl.
  destruct (Ascii.eqb a x) eqn:E; [|reflexivity].
  apply Ascii.eqb_eq in E. subst x. elim Ha.
  clear. induction r as [|y r IH]; simpl; [now left | now right].
Qed.

(** [sub in s] fails exactly when no suffix of [s] starts with [sub]. *)
Lemma str_in_false_suffixes (sub s : string) :
  str_in sub s = false <->
  forall w, suffix_of w s -> startswith sub w = false.
Proof.
  rewrite str_in_false_iff. split.
  - intros H w [pre ->]. destruct (startswith sub w) eqn:E; [|reflexivity].
    apply startswith_iff in E. destruct E as [suf ->].
    elim H. now exists pre, suf.
  - intros H (pre & suf & ->).
    specialize (H (sub ++ suf) (ex_intro _ pre eq_refl)).
    assert (H' : startswith sub (sub ++ suf) = true)
      by (apply startswith_iff; now exists suf).
    congruence.
Qed.

End Prefixes.

Section Greedy.

Import PySub.

Variables (cls : ascii -> bool) (k : matcher).

Lemma greedy_some_0 (s : string) :
  is_some (greedy cls 0 k s)
  = match s with
    | String c s' => cls c && is_some (greedy cls 0 k s') || is_some (k s)
    | EmptyString => is_some (k "")
    end.
Proof.
  destruct s as [|c s]; simpl; [reflexivity|].
  destruct (cls c); simpl; [|reflexivity].
  now destruct (greedy cls 0 k s).
Qed.

Lemma greedy_some_S (n : nat) (s : string) :
  is_some (greedy cls (S n) k s)
  = match s with
    | String c s' => cls c && is_some (greedy cls n k s')
    | EmptyString => false
    end.
Proof.
  destruct s as [|c s]; simpl; [reflexivity|].
  destruct (cls c); simpl; [|reflexivity].
  now destruct (greedy cls n k s).
Qed.

Hypothesis k_rest : returns_rest k.

Lemma greedy_returns_rest (n : nat) : returns_rest (greedy cls n k).
Proof.
  intros s. revert n. induction s as [|c s IH]; intros n rest; simpl.
  - destruct n; [apply k_rest | discriminate].
  - destruct (cls c).
    + destruct (greedy cls (Nat.pred n) k s) as [r|] eqn:E.
      * intros [= <-]. destruct (IH _ _ E) as [occ ->].
        now exists (String c occ).
      * destruct n; [apply k_rest | discriminate].
    + destruct n; [apply k_rest | discriminate].
Qed.

Lemma greedy_consumes (n : nat) : consumes (greedy cls (S n) k).
Proof.
  intros s rest. destruct s as [|c s]; simpl; [discriminate|].
  destruct (cls c); [|discriminate].
  destruct (greedy cls n k s) as [r|] eqn:E; [|discriminate].
  intros [= <-]. destruct (greedy_returns_rest _ _ _ E) as [occ ->].
  exists (String c occ). split; [discriminate | reflexivity].
Qed.

Lemma lit_returns_rest (a : ascii) : returns_rest (lit a k).
Proof.
  intros s rest. destruct s as [|c s]; simpl; [discriminate|].
  destruct (Ascii.eqb c a); [|discriminate].
  intros H. destruct (k_rest _ _ H) as [occ ->]. now exists (String c occ).
Qed.

End Greedy.

Section EmailPattern.

Import PySub.

Lemma some_returns_rest : returns_rest Some.
Proof. intros s rest [= ->]. now exists "". Qed.

Lemma email_pattern_progress :
  forall s rest, email_pattern s = Some rest ->
                 exists occ, occ <> "" /\ s = occ ++ rest.
Proof.
  apply greedy_consumes, lit_returns_rest, greedy_returns_rest,
    lit_returns_rest, greedy_returns_rest, some_returns_rest.
Qed.

Lemma greedy_some_total (cls : ascii -> bool) (s : string) :
  is_some (greedy cls 0 Some s) = true.
Proof.
  destruct s as [|c s]; [reflexivity|]. rewrite greedy_some_0. simpl.
  apply orb_true_r.
Qed.

Lemma tld_some (s : string) :
  is_some (greedy alpha 2 Some s) = two_letters s.
Proof.
  rewrite greedy_some_S. destruct s as [|a s]; [reflexivity|].
  rewrite greedy_some_S. destruct s as [|b s]; [apply andb_false_r|].
  now rewrite greedy_some_total, andb_true_r.
Qed.

Lemma dot_tld_some (s : string) :
  is_some (lit "." (greedy alpha 2 Some) s) = dot_tld s.
Proof.
  destruct s as [|c s]; simpl; [reflexivity|].
  destruct (Ascii.eqb c "."); [apply tld_some | reflexivity].
Qed.

Lemma domain_run_some (s : string) :
  is_some (greedy domain_char 0 (lit "." (greedy alpha 2 Some)) s)
  = domain_then_tld s || dot_tld s.
Proof.
  induction s as [|c s IH]; rewrite greedy_some_0.
  - reflexivity.
  - rewrite IH, dot_tld_some. reflexivity.
Qed.

Lemma domain_some (s : string) :
  is_some (greedy domain_char 1 (lit "." (greedy alpha 2 Some)) s)
  = domain_then_tld s.
Proof.
  rewrite greedy_some_S. destruct s as [|c s]; [reflexivity|].
  now rewrite domain_run_some.
Qed.

Lemma at_domain_some (s : string) :
  is_some (lit "@" (greedy domain_char 1 (lit "." (greedy alpha 2 Some))) s)
  = at_domain s.
Proof.
  destruct s as [|c s]; simpl; [reflexivity|].
  destruct (Ascii.eqb c "@"); [apply domain_some | reflexivity].
Qed.

Lemma local_run_some (s : string) :
  is_some (greedy local_char 0
             (lit "@" (greedy domain_char 1 (lit "." (greedy alpha 2 Some)))) s)
  = email_at s || at_domain s.
Proof.
  induction s as [|c s IH]; rewrite greedy_some_0.
  - reflexivity.
  - rewrite IH, at_domain_some. reflexivity.
Qed.

(** The backtracking search finds an address exactly where one starts. *)
Lemma email_pattern_some (s : string) :
  is_some (email_pattern s) = email_at s.
Proof.
  unfold email_pattern. rewrite greedy_some_S.
  destruct s as [|c s]; [reflexivity|]. now rewrite local_run_some.
Qed.

Lemma email_pattern_none (s : string) :
  email_pattern s = None <-> email_at s = false.
Proof.
  rewrite <- email_pattern_some.
  destruct (email_pattern s); simpl; split; congruence.
Qed.

Lemma email_pattern_found (s : string) :
  email_pattern s <> None <-> email_at s = true.
Proof.
  rewrite <- email_pattern_some.
  destruct (email_pattern s); simpl; split; congruence.
Qed.

(** An address found in a text is found in every extension of it. *)

Lemma two_letters_app (u v : string) :
  two_letters u = true -> two_letters (u ++ v) = true.
Proof. destruct u as [|a [|b u]]; simpl; congruence. Qed.

Lemma dot_tld_app (u v : string) :
  dot_tld u = true -> dot_tld (u ++ v) = true.
Proof.
  destruct u as [|c u]; simpl; [discriminate|].
  rewrite !andb_true_iff. intros [H1 H2]. split; [exact H1|].
  now apply two_letters_app.
Qed.

Lemma domain_then_tld_app (u v : string) :
  domain_then_tld u = true -> domain_then_tld (u ++ v) = true.
Proof.
  induction u as [|c u IH]; simpl; [discriminate|].
  rewrite !andb_true_iff, !orb_true_iff. intros [H1 [H2 | H2]].
  - split; [exact H1 | left; now apply IH].
  - split; [exact H1 | right; now apply dot_tld_app].
Qed.

Lemma at_domain_app (u v : string) :
  at_domain u = true -> at_domain (u ++ v) = true.
Proof.
  destruct u as [|c u]; simpl; [discriminate|].
  rewrite !andb_true_iff. intros [H1 H2]. split; [exact H1|].
  now apply domain_then_tld_app.
Qed.

Lemma email_at_app (u v : string) :
  email_at u = true -> email_at (u ++ v) = true.
Proof.
  induction u as [|c u IH]; simpl; [discriminate|].
  rewrite !andb_true_iff, !orb_true_iff. intros [H1 [H2 | H2]].
  - split; [exact H1 | left; now apply IH].
  - split; [exact H1 | right; now apply at_domain_app].
Qed.

(** An address does not run over a character that is in no class of the
    pattern. *)

Variable x : ascii.
Hypothesis x_local : local_char x = false.
Hypothesis x_at : Ascii.eqb x "@" = false.

Lemma outside_alpha : alpha x = false.
Proof.
  unfold local_char in x_local. repeat rewrite orb_false_iff in x_local.
  tauto.
Qed.

Lemma outside_domain : domain_char x = false.
Proof.
  unfold local_char in x_local. repeat rewrite orb_false_iff in x_local.
  unfold domain_char. repeat rewrite orb_false_iff. tauto.
Qed.

Lemma outside_dot : Ascii.eqb x "." = false.
Proof.
  unfold local_char in x_local. repeat rewrite orb_false_iff in x_local.
  tauto.
Qed.

Lemma two_letters_barrier (u z : string) :
  two_letters (u ++ String x z) = true -> two_letters u = true.
Proof.
  destruct u as [|a [|c u]]; cbn [two_letters append];
    [destruct z | |]; rewrite ?outside_alpha, ?andb_false_r;
    cbn [andb]; congruence.
Qed.

Lemma dot_tld_barrier (u z : string) :
  dot_tld (u ++ String x z) = true -> dot_tld u = true.
Proof.
  destruct u as [|c u]; cbn [dot_tld append].
  - rewrite outside_dot. discriminate.
  - rewrite !andb_true_iff. intros [H1 H2]. split; [exact H1|].
    now apply two_letters_barrier in H2.
Qed.

Lemma domain_then_tld_barrier (u z : string) :
  domain_then_tld (u ++ String x z) = true -> domain_then_tld u = true.
Proof.
  induction u as [|c u IH]; cbn [domain_then_tld append].
  - rewrite outside_domain. discriminate.
  - rewrite !andb_true_iff, !orb_true_iff. intros [H1 [H2 | H2]].
    + split; [exact H1 | left; now apply IH].
    + split; [exact H1 | right; now apply dot_tld_barrier in H2].
Qed.

Lemma at_domain_barrier (u z : string) :
  at_domain (u ++ String x z) = true -> at_domain u = true.
Proof.
  destruct u as [|c u]; cbn [at_domain append].
  - rewrite x_at. discriminate.
  - rewrite !andb_true_iff. intros [H1 H2]. split; [exact H1|].
    now apply domain_then_tld_barrier in H2.
Qed.

Lemma email_at_barrier (u z : string) :
  email_at (u ++ String x z) = true -> email_at u = true.
Proof.
  induction u as [|c u IH]; cbn [email_at append].
  - rewrite x_local. discriminate.
  - rewrite !andb_true_iff, !orb_true_iff. intros [H1 [H2 | H2]].
    + split; [exact H1 | left; now apply IH].
    + split; [exact H1 | right; now apply at_domain_barrier in H2].
Qed.

End EmailPattern.

(* ===================================================================== *)
(** * The scrubber ([anonymize_pii]) *)
(* ===================================================================== *)

Section Scrubber.

Import PySub PyStr.

Lemma list_ascii_of_string_app (a b : string) :
  list_ascii_of_string (a ++ b)
  = (list_ascii_of_string a ++ list_ascii_of_string b)%list.
Proof. induction a as [|c a IH]; simpl; [reflexivity | now rewrite IH]. Qed.

(** ** The e-mail step *)

Lemma token_inert (a t z : string) :
  "<EMAIL_REDACTED>" = a ++ t -> t <> "" -> email_pattern (t ++ z) = None.
Proof.
  intros H Ht. apply email_pattern_none.
  do 16 (destruct a as [|? a];
         [simpl in H; subst t; vm_compute; reflexivity
         | simpl in H; injection H as _ H]).
  destruct a; [simpl in H; now subst t | discriminate].
Qed.

Lemma email_extension (u v : string) :
  email_pattern u <> None -> email_pattern (u ++ v) <> None.
Proof. rewrite !email_pattern_found. apply email_at_app. Qed.

Lemma email_barrier (u z : string) :
  email_pattern (u ++ String "<" z) <> None -> email_pattern u <> None.
Proof.
  rewrite !email_pattern_found. now apply email_at_barrier.
Qed.

Lemma redacted_clean (text w : string) :
  suffix_of w (substitute email_pattern "<EMAIL_REDACTED>" text) ->
  email_at w = false.
Proof.
  intros H. apply email_pattern_none.
  apply (substitute_clean email_pattern "<EMAIL_REDACTED>"
           email_pattern_progress email_extension
           "<" "EMAIL_REDACTED>" eq_refl email_barrier token_inert text w H).
Qed.

(** ** The name step *)

Lemma user_progress (s rest : string) :
  drop_prefix "User_" s = Some rest -> exists occ, occ <> "" /\ s = occ ++ rest.
Proof. apply drop_prefix_progress. discriminate. Qed.

Lemma user_barrier (u z : string) :
  drop_prefix "User_" (u ++ String "A" z) <> None ->
  drop_prefix "User_" u <> None.
Proof.
  apply drop_prefix_barrier. vm_compute. intuition discriminate.
Qed.

Lemma user_inert (a t z : string) :
  "Anon_Customer_" = a ++ t -> t <> "" -> drop_prefix "User_" (t ++ z) = None.
Proof.
  apply drop_prefix_inert. vm_compute. intuition discriminate.
Qed.

Lemma replaced_clean (s : string) :
  str_in "User_" (replace "User_" "Anon_Customer_" s) = false.
Proof.
  apply str_in_false_suffixes. intros w Hw. apply drop_prefix_none.
  apply (substitute_clean (drop_prefix "User_") "Anon_Customer_"
           user_progress (drop_prefix_extension "User_")
           "A" "non_Customer_" eq_refl user_barrier user_inert s w Hw).
Qed.

Lemma replace_cons (c : ascii) (s : string) :
  replace "User_" "Anon_Customer_" (String c s)
  = match drop_prefix "User_" (String c s) with
    | Some rest => "Anon_Customer_" ++ replace "User_" "Anon_Customer_" rest
    | None => String c (replace "User_" "Anon_Customer_" s)
    end.
Proof. apply substitute_cons, user_progress. Qed.

Lemma replace_unmatched (s : string) :
  str_in "User_" s = false -> replace "User_" "Anon_Customer_" s = s.
Proof.
  intros H. apply substitute_unmatched. intros w Hw.
  apply drop_prefix_none. revert w Hw. now apply str_in_false_suffixes.
Qed.

(** ** The name step creates no address *)

Local Abbreviation R := (replace "User_" "Anon_Customer_").

Lemma two_letters_replace (s : string) :
  two_letters (R s) = true -> two_letters s = true.
Proof.
  destruct s as [|c s]; [discriminate|]. rewrite replace_cons.
  destruct (drop_prefix "User_" (String c s)) as [rest|] eqn:E.
  - apply drop_prefix_some in E. rewrite E. reflexivity.
  - cbn [two_letters]. destruct (R s) as [|b Y] eqn:EY; [discriminate|].
    destruct s as [|d s]; [discriminate|]. rewrite replace_cons in EY.
    destruct (drop_prefix "User_" (String d s)) as [rest|] eqn:E'.
    + apply drop_prefix_some in E'. injection E' as -> _.
      injection EY as <- _. trivial.
    + injection EY as <- _. trivial.
Qed.

Lemma dot_tld_replace (s : string) :
  dot_tld (R s) = true -> dot_tld s = true.
Proof.
  destruct s as [|c s]; [discriminate|]. rewrite replace_cons.
  destruct (drop_prefix "User_" (String c s)) as [rest|] eqn:E.
  - discriminate.
  - cbn [dot_tld]. rewrite !andb_true_iff. intros [H1 H2].
    split; [exact H1 | now apply two_letters_replace].
Qed.

Lemma domain_then_tld_replace (s : string) :
  domain_then_tld (R s) = true -> domain_then_tld s = true.
Proof.
  induction s as [|c s IH]; [discriminate|]. rewrite replace_cons.
  destruct (drop_prefix "User_" (String c s)) as [rest|] eqn:E.
  - vm_compute. discriminate.
  - cbn [domain_then_tld]. rewrite !andb_true_iff, !orb_true_iff.
    intros [H1 [H2 | H2]].
    + split; [exact H1 | left; now apply IH].
    + split; [exact H1 | right; now apply dot_tld_replace].
Qed.

Lemma at_domain_replace (s : string) :
  at_domain (R s) = true -> at_domain s = true.
Proof.
  destruct s as [|c s]; [discriminate|]. rewrite replace_cons.
  destruct (drop_prefix "User_" (String c s)) as [rest|] eqn:E.
  - discriminate.
  - cbn [at_domain]. rewrite !andb_true_iff. intros [H1 H2].
    split; [exact H1 | now apply domain_then_tld_replace].
Qed.

(** Behind local characters other than [@], an address starts where the
    run ends or goes on into the text behind it. *)
Lemma email_at_local_run (t X : string) :
  forallb (fun c => local_char c && negb (Ascii.eqb c "@"))
          (list_ascii_of_string t) = true ->
  t <> "" ->
  email_at (t ++ X) = email_at X || at_domain X.
Proof.
  induction t as [|c t IH]; [contradiction|]. intros H _.
  cbn [list_ascii_of_string forallb] in H.
  apply andb_true_iff in H. destruct H as [Hc Ht].
  apply andb_true_iff in Hc. destruct Hc as [Hc Hat].
  cbn [append email_at]. rewrite Hc. cbn [andb].
  destruct t as [|d t].
  - reflexivity.
  - rewrite IH by (exact Ht || discriminate).
    replace (at_domain (String d t ++ X)) with false; [apply orb_false_r|].
    cbn [list_ascii_of_string forallb] in Ht.
    apply andb_true_iff in Ht. destruct Ht as [Hd _].
    apply andb_true_iff in Hd. destruct Hd as [_ Hd].
    cbn [append at_domain]. apply negb_true_iff in Hd. now rewrite Hd.
Qed.

Lemma replacement_suffix_local (a t : string) :
  "Anon_Customer_" = a ++ t ->
  forallb (fun c => local_char c && negb (Ascii.eqb c "@"))
          (list_ascii_of_string t) = true.
Proof.
  intros H.
  assert (Hall : forallb (fun c => local_char c && negb (Ascii.eqb c "@"))
                   (list_ascii_of_string "Anon_Customer_") = true)
    by (vm_compute; reflexivity).
  rewrite H, list_ascii_of_string_app, forallb_app in Hall.
  now apply andb_true_iff in Hall.
Qed.

Lemma replace_keeps_clean (s w : string) :
  suffix_of w (R s) -> email_at w = true ->
  exists w', suffix_of w' s /\ email_at w' = true.
Proof.
  revert w. induction s as [s IH] using string_length_ind. intros w Hw Hm.
  destruct s as [|c s].
  - apply suffix_of_nil in Hw. subst w. discriminate.
  - rewrite replace_cons in Hw.
    destruct (drop_prefix "User_" (String c s)) as [rest|] eqn:E.
    + pose proof E as Hlen. apply (progress_length _ user_progress) in Hlen.
      apply drop_prefix_some in E.
      assert (Hrest : forall w', suffix_of w' rest ->
                                 suffix_of w' (String c s))
        by (intros w' H'; rewrite E; now apply suffix_of_app).
      apply suffix_of_app_inv in Hw.
      destruct Hw as [(a1 & t & Ha & Ht & ->) | Hw].
      * rewrite email_at_local_run in Hm
          by (exact Ht || now apply (replacement_suffix_local a1)).
        apply orb_true_iff in Hm. destruct Hm as [Hm | Hm].
        -- destruct (IH rest Hlen _ (suffix_of_refl _) Hm) as (w' & H1 & H2).
           exists w'. split; [now apply Hrest | exact H2].
        -- apply at_domain_replace in Hm. exists ("_" ++ rest). split.
           ++ exists "User". now rewrite E.
           ++ cbn [append email_at]. rewrite Hm. now rewrite orb_true_r.
      * destruct (IH rest Hlen _ Hw Hm) as (w' & H1 & H2).
        exists w'. split; [now apply Hrest | exact H2].
    + apply suffix_of_cons_inv in Hw. destruct Hw as [-> | Hw].
      * cbn [email_at] in Hm. apply andb_true_iff in Hm.
        destruct Hm as [Hc Hm]. apply orb_true_iff in Hm.
        destruct Hm as [Hm | Hm].
        -- destruct (IH s ltac:(simpl; lia) _ (suffix_of_refl _) Hm)
             as (w' & H1 & H2).
           exists w'. split; [now apply suffix_of_cons | exact H2].
        -- apply at_domain_replace in Hm. exists (String c s).
           split; [apply suffix_of_refl|].
           cbn [email_at]. now rewrite Hc, Hm, orb_true_r.
      * destruct (IH s ltac:(simpl; lia) _ Hw Hm) as (w' & H1 & H2).
        exists w'. split; [now apply suffix_of_cons | exact H2].
Qed.

Lemma anonymized_clean (text w : string) :
  suffix_of w (anonymize_pii text) -> email_at w = false.
Proof.
  unfold anonymize_pii.
  set (t := substitute email_pattern "<EMAIL_REDACTED>" text).
  destruct (str_in "User_" t).
  - intros Hw. destruct (email_at w) eqn:Hm; [exfalso | reflexivity].
    destruct (replace_keeps_clean t w Hw Hm) as (w' & H1 & H2).
    apply redacted_clean in H1. congruence.
  - apply redacted_clean.
Qed.

Lemma anonymized_no_user (text : string) :
  str_in "User_" (anonymize_pii text) = false.
Proof.
  unfold anonymize_pii.
  set (t := substitute email_pattern "<EMAIL_REDACTED>" text).
  destruct (str_in "User_" t) eqn:E; [apply replaced_clean | exact E].
Qed.

Lemma anonymize_unmatched (text : string) :
  (forall w, suffix_of w text -> email_at w = false) ->
  str_in "User_" text = false ->
  anonymize_pii text = text.
Proof.
  intros Hm Hu. unfold anonymize_pii.
  rewrite substitute_unmatched
    by (intros w Hw; apply email_pattern_none; now apply Hm).
  now rewrite Hu.
Qed.

Lemma no_at_no_email (s : string) :
  ~ In "@"%char (list_ascii_of_string s) -> email_at s = false.
Proof.
  induction s as [|c s IH]; [reflexivity|]. intros H.
  cbn [email_at]. rewrite IH by (intros Hin; apply H; now right).
  destruct s as [|d s]; [apply andb_false_r|].
  cbn [at_domain]. destruct (Ascii.eqb d "@") eqn:E.
  - apply Ascii.eqb_eq in E. subst d. elim H. right. now left.
  - apply andb_false_r.
Qed.

End Scrubber.

(** X1: in the text that [anonymize_pii] returns, the e-mail pattern
    matches at no position: no address survives the scrubber, and replacing
    "User_" creates none. *)
Theorem anonymize_pii_leaves_no_email (text : string) :
  forall pre rest, anonymize_pii text = pre ++ rest -> email_pattern rest = None.
Proof.
  intros pre rest H. apply email_pattern_none.
  apply (anonymized_clean text). now exists pre.
Qed.

Lemma anonymize_pii_leaves_no_email_witness :
  anonymize_pii "mail a.b@c-d.example.de now" = "mail <EMAIL_REDACTED> now"
  /\ email_pattern "<EMAIL_REDACTED> now" = None.
Proof.
  assert (H : anonymize_pii "mail a.b@c-d.example.de now"
              = "mail " ++ "<EMAIL_REDACTED> now")
    by (vm_compute; reflexivity).
  split; [exact H|].
  exact (anonymize_pii_leaves_no_email "mail a.b@c-d.example.de now"
           "mail " "<EMAIL_REDACTED> now" H).
Defined.

(** X2: the text that [anonymize_pii] returns does not contain "User_". *)
Theorem anonymize_pii_leaves_no_user_tag (text : string) :
  ~ PyStr.Substring "User_" (anonymize_pii text).
Proof. apply str_in_false_iff, anonymized_no_user. Qed.

(** X3: scrubbing a scrubbed text changes nothing. *)
Theorem anonymize_pii_idempotent (text : string) :
  anonymize_pii (anonymize_pii text) = anonymize_pii text.
Proof.
  apply anonymize_unmatched.
  - intros w. apply anonymized_clean.
  - apply anonymized_no_user.
Qed.

(** X4: a text with no [@] and no "User_" is returned as it is. *)
Theorem anonymize_pii_keeps_clean_text (text : string)
  (Hat : ~ In "@"%char (list_ascii_of_string text))
  (Huser : ~ PyStr.Substring "User_" text) :
  anonymize_pii text = text.
Proof.
  apply anonymize_unmatched.
  - intros w [pre ->]. apply no_at_no_email. intros Hin. apply Hat.
    rewrite list_ascii_of_string_app. apply in_or_app. now right.
  - now apply str_in_false_iff.
Qed.

Lemma anonymize_pii_keeps_clean_text_witness :
  anonymize_pii "Order 17 delivered to Mitte" = "Order 17 delivered to Mitte".
Proof.
  apply anonymize_pii_keeps_clean_text.
  - vm_compute. intuition discriminate.
  - apply str_in_false_iff. vm_compute. reflexivity.
Defined.

Section CustomerNames.

Import PySub PyStr.

Lemma uint_chars (d : Decimal.uint) (c : ascii) :
  In c (list_ascii_of_string (NilEmpty.string_of_uint d)) ->
  PySub.between "0" "9" c = true.
Proof.
  induction d; simpl; try contradiction;
    (intros [<- | H]; [reflexivity | now apply IHd]).
Qed.

(** [str(n)] consists of digits behind a possible minus sign. *)
Lemma str_chars (n : Z) (c : ascii) :
  In c (list_ascii_of_string (Sampling.str n)) ->
  PySub.between "0" "9" c = true \/ c = "-"%char.
Proof.
  unfold Sampling.str. destruct n as [|p|p]; simpl.
  - intros [<- | []]. now left.
  - destruct (Pos.to_uint p) eqn:E; simpl;
      try (intros [<- | H]; [now left | left; now apply (uint_chars u)]).
    intros [<- | []]. now left.
  - intros [<- | H]; [now right | left].
    destruct (Pos.to_uint p) eqn:E; simpl in H;
      try (destruct H as [<- | H]; [reflexivity | now apply (uint_chars u)]).
    destruct H as [<- | []]. reflexivity.
Qed.

Lemma masked_tag (t : string) :
  ~ In "@"%char (list_ascii_of_string t) ->
  ~ In "U"%char (list_ascii_of_string t) ->
  anonymize_pii ("User_" ++ t) = "Anon_Customer_" ++ t.
Proof.
  intros Hat HU. unfold anonymize_pii.
  rewrite substitute_unmatched.
  - replace (str_in "User_" ("User_" ++ t)) with true
      by (symmetry; apply str_in_iff; now exists "", t).
    cbn [append]. rewrite replace_cons.
    replace (drop_prefix "User_" (String "U" (String "s" (String "e"
               (String "r" (String "_" t)))))) with (Some t)
      by (symmetry; now apply drop_prefix_some).
    rewrite replace_unmatched; [reflexivity|].
    apply str_in_false_iff. intros (pre & suf & E). apply HU.
    rewrite E, list_ascii_of_string_app. apply in_or_app. right. now left.
  - intros w [pre E]. apply email_pattern_none, no_at_no_email.
    intros Hin. assert (H : In "@"%char (list_ascii_of_string ("User_" ++ t))).
    { rewrite E, list_ascii_of_string_app. apply in_or_app. now right. }
    simpl in H. repeat (destruct H as [H | H]; [discriminate H|]).
    now apply Hat.
Qed.

End CustomerNames.

(** X6: every customer name the generator writes, [f"User_{n}"], is masked
    as ["Anon_Customer_" + str(n)]: the tag is replaced, the number
    stays. *)
Theorem generated_names_are_masked (n : Z) :
  anonymize_pii (Sampling.customer_name n)
  = "Anon_Customer_" ++ Sampling.str n.
Proof.
  unfold Sampling.customer_name. apply masked_tag.
  - intros H. apply str_chars in H. destruct H as [H | H]; discriminate H.
  - intros H. apply str_chars in H. destruct H as [H | H]; discriminate H.
Qed.

Section WholeAddress.

Import PySub.

Lemma all_in_cons (cls : ascii -> bool) (c : ascii) (s : string) :
  all_in cls (String c s) <-> cls c = true /\ all_in cls s.
Proof. unfold all_in. simpl. apply andb_true_iff. Qed.

Lemma alpha_is_domain (c : ascii) : alpha c = true -> domain_char c = true.
Proof. unfold domain_char. now intros ->. Qed.

Lemma alpha_is_no_dot (c : ascii) : alpha c = true -> Ascii.eqb c "." = false.
Proof.
  destruct (Ascii.eqb c ".") eqn:E; [|reflexivity].
  apply Ascii.eqb_eq in E. subst c. discriminate.
Qed.

(** The letters are taken to the end of the text. *)
Lemma letters_to_the_end (n : nat) (x : string) :
  all_in alpha x -> (n <= String.length x)%nat ->
  greedy alpha n Some x = Some "".
Proof.
  revert n; induction x as [|c x IH]; intros n Hx Hn.
  - simpl in Hn. now replace n with 0%nat by lia.
  - apply all_in_cons in Hx. destruct Hx as [Hc Hx]. simpl. rewrite Hc.
    rewrite IH; [reflexivity | exact Hx | simpl in Hn; lia].
Qed.

(** Inside the letters there is no dot to stop at. *)
Lemma no_dot_in_letters (x : string) :
  all_in alpha x ->
  greedy domain_char 0 (lit "." (greedy alpha 2 Some)) x = None.
Proof.
  induction x as [|c x IH]; intros Hx; [reflexivity|].
  apply all_in_cons in Hx. destruct Hx as [Hc Hx].
  simpl. rewrite (alpha_is_domain c Hc), (IH Hx), (alpha_is_no_dot c Hc).
  reflexivity.
Qed.

Lemma domain_to_the_end (d x : string) :
  all_in domain_char d -> all_in alpha x -> (2 <= String.length x)%nat ->
  greedy domain_char 0 (lit "." (greedy alpha 2 Some)) (d ++ "." ++ x)
  = Some "".
Proof.
  intros Hd Hx Hlen. induction d as [|c d IH].
  - cbn [append greedy Nat.pred]. change (domain_char ".") with true. cbv iota.
    rewrite (no_dot_in_letters x Hx). cbn [lit]. rewrite Ascii.eqb_refl.
    now apply letters_to_the_end.
  - apply all_in_cons in Hd. destruct Hd as [Hc Hd].
    specialize (IH Hd). cbn [append] in IH.
    cbn [append greedy Nat.pred]. rewrite Hc, IH. reflexivity.
Qed.

Lemma local_to_the_end (l t : string) :
  all_in local_char l ->
  lit "@" (greedy domain_char 1 (lit "." (greedy alpha 2 Some))) t = Some "" ->
  greedy local_char 0
    (lit "@" (greedy domain_char 1 (lit "." (greedy alpha 2 Some))))
    (l ++ t) = Some "".
Proof.
  intros Hl Ht. induction l as [|c l IH].
  - destruct t as [|a t]; [discriminate Ht|].
    assert (Ha : a = "@"%char).
    { cbn [lit] in Ht. destruct (Ascii.eqb a "@") eqn:E; [|discriminate Ht].
      now apply Ascii.eqb_eq in E. }
    subst a. cbn [append greedy Nat.pred].
    change (local_char "@") with false. cbv iota. exact Ht.
  - apply all_in_cons in Hl. destruct Hl as [Hc Hl].
    cbn [append greedy Nat.pred]. rewrite Hc, (IH Hl). reflexivity.
Qed.

Lemma whole_address_matches (l d x : string) :
  all_in local_char l -> l <> "" ->
  all_in domain_char d -> d <> "" ->
  all_in alpha x -> (2 <= String.length x)%nat ->
  email_pattern (l ++ "@" ++ d ++ "." ++ x) = Some "".
Proof.
  intros Hl Hl' Hd Hd' Hx Hlen. unfold email_pattern.
  destruct l as [|c l]; [contradiction|].
  apply all_in_cons in Hl. destruct Hl as [Hc Hl].
  cbn [append greedy Nat.pred]. rewrite Hc.
  rewrite local_to_the_end; [reflexivity | exact Hl |].
  cbn [append lit]. rewrite Ascii.eqb_refl.
  destruct d as [|a d]; [contradiction|].
  apply all_in_cons in Hd. destruct Hd as [Ha Hd].
  pose proof (domain_to_the_end d x Hd Hx Hlen) as Hrun.
  cbn [append] in Hrun.
  cbn [append greedy Nat.pred]. rewrite Ha. now rewrite Hrun.
Qed.

End WholeAddress.

(** X5: a text that is one address - local characters, [@], domain
    characters, a dot and at least two letters - is replaced as a whole by
    the redaction mark. *)
Theorem whole_address_is_redacted
  (l d x : string)
  (Hl : all_in local_char l) (Hl' : l <> "")
  (Hd : all_in domain_char d) (Hd' : d <> "")
  (Hx : all_in alpha x) (Hlen : (2 <= String.length x)%nat) :
  anonymize_pii (l ++ "@" ++ d ++ "." ++ x) = "<EMAIL_REDACTED>".
Proof.
  pose proof (whole_address_matches l d x Hl Hl' Hd Hd' Hx Hlen) as H.
  unfold anonymize_pii.
  replace (PySub.substitute email_pattern "<EMAIL_REDACTED>"
             (l ++ "@" ++ d ++ "." ++ x)) with "<EMAIL_REDACTED>";
    [reflexivity|].
  destruct l as [|c l]; [contradiction|]. cbn [append] in *.
  rewrite (substitute_cons _ _ email_pattern_progress), H. reflexivity.
Qed.

Lemma whole_address_is_redacted_witness :
  anonymize_pii "max.mustermann@mail.example.de" = "<EMAIL_REDACTED>".
Proof.
  apply (whole_address_is_redacted "max.mustermann" "mail.example" "de");
    try reflexivity; try discriminate.
Defined.

(* ===================================================================== *)
(** * Normalisation: further properties *)
(* ===================================================================== *)

Section Normalisation.

Import PyStr.

Lemma normalize_loop_in (val_clean : string) (options : list string)
      (default : string) :
  In (normalize_loop val_clean options default) options
  \/ normalize_loop val_clean options default = default.
Proof.
  induction options as [|opt rest IH]; simpl.
  - now right.
  - destruct (str_in val_clean (lower opt) || str_in (lower opt) val_clean).
    + left. now left.
    + destruct IH as [IH | IH]; [left; now right | now right].
Qed.

Lemma normalize_in (val : string) (options : list string) (default : string) :
  In default options -> In (_normalize_input val options default) options.
Proof.
  intros Hd. unfold _normalize_input.
  destruct (normalize_loop_in (lower (strip val)) options default) as [H | ->];
    assumption.
Qed.

Lemma normalize_loop_first (val_clean : string) (before : list string)
      (opt : string) (after : list string) (default : string) :
  (forall o, In o before ->
     str_in val_clean (lower o) = false /\ str_in (lower o) val_clean = false) ->
  str_in val_clean (lower opt) || str_in (lower opt) val_clean = true ->
  normalize_loop val_clean (before ++ opt :: after) default = opt.
Proof.
  induction before as [|o before IH]; intros Hb Ho; simpl.
  - now rewrite Ho.
  - destruct (Hb o (or_introl eq_refl)) as [-> ->]. simpl.
    apply IH; [|exact Ho]. intros o' Hin. apply Hb. now right.
Qed.

(** Case and space. *)

Lemma isspace_lower_char (c : ascii) : isspace (lower_char c) = isspace c.
Proof. destruct c as [[] [] [] [] [] [] [] []]; reflexivity. Qed.

Lemma lower_char_idempotent (c : ascii) :
  lower_char (lower_char c) = lower_char c.
Proof. destruct c as [[] [] [] [] [] [] [] []]; reflexivity. Qed.

Lemma lower_idempotent (s : string) : lower (lower s) = lower s.
Proof.
  induction s as [|c s IH]; simpl; [reflexivity|].
  now rewrite lower_char_idempotent, IH.
Qed.

Lemma lstrip_lower (s : string) : lstrip (lower s) = lower (lstrip s).
Proof.
  induction s as [|c s IH]; simpl; [reflexivity|].
  rewrite isspace_lower_char. destruct (isspace c); [exact IH | reflexivity].
Qed.

Lemma rstrip_lower (s : string) : rstrip (lower s) = lower (rstrip s).
Proof.
  induction s as [|c s IH]; simpl; [reflexivity|].
  rewrite IH, isspace_lower_char.
  destruct (rstrip s); simpl; [destruct (isspace c) |]; reflexivity.
Qed.

Lemma strip_lower (s : string) : strip (lower s) = lower (strip s).
Proof. unfold strip. now rewrite lstrip_lower, rstrip_lower. Qed.

Lemma rstrip_idempotent (s : string) : rstrip (rstrip s) = rstrip s.
Proof.
  induction s as [|c s IH]; simpl; [reflexivity|].
  destruct (rstrip s) as [|d r] eqn:E.
  - destruct (isspace c) eqn:Ec; simpl; [reflexivity | now rewrite Ec].
  - cbn [rstrip]. cbn [rstrip] in IH. now rewrite IH.
Qed.

(** Stripping on the right keeps a first character that is no space. *)
Lemma rstrip_head (c : ascii) (s : string) :
  isspace c = false -> exists r, rstrip (String c s) = String c r.
Proof.
  intros Hc. simpl. destruct (rstrip s) as [|d r].
  - rewrite Hc. now exists "".
  - now exists (String d r).
Qed.

Lemma lstrip_head (s : string) :
  lstrip s = "" \/ exists c r, lstrip s = String c r /\ isspace c = false.
Proof.
  induction s as [|c s IH]; simpl; [now left|].
  destruct (isspace c) eqn:Ec; [exact IH | right].
  now exists c, s.
Qed.

Lemma strip_idempotent (s : string) : strip (strip s) = strip s.
Proof.
  unfold strip. destruct (lstrip_head s) as [-> | (c & r & -> & Hc)].
  - reflexivity.
  - destruct (rstrip_head c r Hc) as [r' E]. rewrite E.
    cbn [lstrip]. rewrite Hc, <- E. apply rstrip_idempotent.
Qed.

Lemma str_in_nil (s : string) : str_in "" s = true.
Proof. now destruct s. Qed.

End Normalisation.

(** X7: whatever the raw strings are, the codes of the feature vector are
    codes of the training tables: the normalised weather is one of the four
    labels the generator draws and its code is the one the training table
    gives it, the traffic level and the experience likewise, so the
    fallback of [dict.get] is never taken; the indicators are 0 or 1 and
    the distance is passed through as given. *)
Theorem encoded_codes_are_training_codes :
  forall (v w : string) (d : float) (t e : string),
    let p := predict_input_df v w d t e in
    (let label := _normalize_input w weather_options "Cloudy" in
     In label Sampling.WEATHER
     /\ Train.map_label Train.weather_map label = Some (weather_code p))
    /\ (let label := _normalize_input t traffic_options "Medium" in
        In label Sampling.TRAFFIC
        /\ Train.map_label Train.traffic_map label = Some (traffic_code p))
    /\ (let label := _normalize_input e experience_options "Senior" in
        In label Sampling.DRIVER_EXP
        /\ Train.map_label Train.exp_map label = Some (exp_code p))
    /\ 0 <= weather_code p <= 3
    /\ 0 <= traffic_code p <= 2
    /\ 0 <= exp_code p <= 2
    /\ (vehicle_type_Scooter p = 0 \/ vehicle_type_Scooter p = 1)
    /\ (vehicle_type_Van p = 0 \/ vehicle_type_Van p = 1)
    /\ distance_km p = d.
Proof.
  intros v w d t e p. subst p.
  unfold predict_input_df, weather_options, traffic_options,
    experience_options.
  cbn [weather_code traffic_code exp_code vehicle_type_Scooter
       vehicle_type_Van distance_km PyDict.keys map fst].
  pose proof (normalize_in w ["Sunny"; "Cloudy"; "Rainy"; "Snow"] "Cloudy"
                ltac:(simpl; tauto)) as Hw.
  pose proof (normalize_in t ["Low"; "Medium"; "High"] "Medium"
                ltac:(simpl; tauto)) as Ht.
  pose proof (normalize_in e ["Junior"; "Senior"; "Expert"] "Senior"
                ltac:(simpl; tauto)) as He.
  cbv zeta.
  repeat match goal with |- _ /\ _ => split end;
    try exact Hw; try exact Ht; try exact He; try reflexivity.
  - simpl in Hw. destruct Hw as [<- | [<- | [<- | [<- | []]]]]; reflexivity.
  - simpl in Ht. destruct Ht as [<- | [<- | [<- | []]]]; reflexivity.
  - simpl in He. destruct He as [<- | [<- | [<- | []]]]; reflexivity.
  - simpl in Hw.
    destruct Hw as [<- | [<- | [<- | [<- | []]]]]; vm_compute; discriminate.
  - simpl in Hw.
    destruct Hw as [<- | [<- | [<- | [<- | []]]]]; vm_compute; discriminate.
  - simpl in Ht.
    destruct Ht as [<- | [<- | [<- | []]]]; vm_compute; discriminate.
  - simpl in Ht.
    destruct Ht as [<- | [<- | [<- | []]]]; vm_compute; discriminate.
  - simpl in He.
    destruct He as [<- | [<- | [<- | []]]]; vm_compute; discriminate.
  - simpl in He.
    destruct He as [<- | [<- | [<- | []]]]; vm_compute; discriminate.
  - destruct (PyStr.str_in "Scooter" v); [now right | now left].
  - destruct (PyStr.str_in "Van" v); [now right | now left].
Qed.

(** X8: among several options that pass the containment test, the first
    in the order of the list is returned. *)
Theorem first_matching_option_wins
  (val : string) (before : list string) (opt : string) (after : list string)
  (default : string)
  (Hbefore : unmatched val before)
  (Hopt : ci_match val opt) :
  _normalize_input val (before ++ opt :: after) default = opt.
Proof.
  unfold _normalize_input. apply normalize_loop_first.
  - intros o Hin. specialize (Hbefore o Hin). unfold ci_match in Hbefore.
    rewrite !str_in_false_iff. tauto.
  - apply orb_true_iff. rewrite !str_in_iff. exact Hopt.
Qed.

Lemma first_matching_option_wins_witness :
  _normalize_input "o" (["Sunny"] ++ "Cloudy" :: ["Rainy"; "Snow"]) "Rainy"
  = "Cloudy".
Proof.
  apply first_matching_option_wins.
  - intros o [<- | []]. unfold ci_match. rewrite <- !str_in_iff.
    vm_compute. intros [H | H]; discriminate H.
  - unfold ci_match. rewrite <- !str_in_iff. vm_compute. now left.
Defined.

(** X9: normalising a normalised value changes nothing, for each of the
    three categorical fields. *)
Theorem normalisation_is_idempotent :
  forall val : string,
    (let n := _normalize_input val weather_options "Cloudy" in
     _normalize_input n weather_options "Cloudy" = n)
    /\ (let n := _normalize_input val traffic_options "Medium" in
        _normalize_input n traffic_options "Medium" = n)
    /\ (let n := _normalize_input val experience_options "Senior" in
        _normalize_input n experience_options "Senior" = n).
Proof.
  intros val. repeat split.
  - pose proof (normalize_in val weather_options "Cloudy"
                  ltac:(simpl; tauto)) as H.
    simpl in H. destruct H as [<- | [<- | [<- | [<- | []]]]]; reflexivity.
  - pose proof (normalize_in val traffic_options "Medium"
                  ltac:(simpl; tauto)) as H.
    simpl in H. destruct H as [<- | [<- | [<- | []]]]; reflexivity.
  - pose proof (normalize_in val experience_options "Senior"
                  ltac:(simpl; tauto)) as H.
    simpl in H. destruct H as [<- | [<- | [<- | []]]]; reflexivity.
Qed.

(** X10: normalisation does not see the case of the input nor the
    whitespace around it. *)
Theorem normalisation_ignores_case_and_padding :
  forall (val : string) (options : list string) (default : string),
    _normalize_input (PyStr.lower val) options default
    = _normalize_input val options default
    /\ _normalize_input (PyStr.strip val) options default
       = _normalize_input val options default
    /\ (forall c, PyStr.isspace c = true ->
          _normalize_input (String c val) options default
          = _normalize_input val options default
          /\ _normalize_input (val ++ String c "") options default
             = _normalize_input val options default).
Proof.
  intros val options default. unfold _normalize_input. repeat split.
  - now rewrite strip_lower, lower_idempotent.
  - now rewrite strip_idempotent.
  - unfold PyStr.strip. cbn [PyStr.lstrip]. now rewrite H.
  - f_equal. f_equal. unfold PyStr.strip.
    assert (Hr : forall s, PyStr.rstrip (s ++ String c "") = PyStr.rstrip s).
    { induction s as [|x s IHs]; simpl.
      - now rewrite H.
      - now rewrite IHs. }
    assert (Hl : forall s, PyStr.rstrip (PyStr.lstrip (s ++ String c ""))
                           = PyStr.rstrip (PyStr.lstrip s)).
    { induction s as [|x s IHs].
      - simpl. now rewrite H.
      - cbn [append PyStr.lstrip]. destruct (PyStr.isspace x); [exact IHs|].
        apply (Hr (String x s)). }
    apply Hl.
Qed.

(** X11: an input that is empty or all whitespace is contained in every
    option: it takes the first option of the list, not the default.  A blank
    weather is encoded as Sunny (0), a blank traffic level as Low (0), a
    blank experience as Junior (0). *)
Theorem blank_input_takes_first_option
  (val : string) (Hblank : PyStr.strip val = "") :
  (forall opt rest default,
      _normalize_input val (opt :: rest) default = opt)
  /\ (forall v d t e, weather_code (predict_input_df v val d t e) = 0)
  /\ (forall v w d e, traffic_code (predict_input_df v w d val e) = 0)
  /\ (forall v w d t, exp_code (predict_input_df v w d t val) = 0).
Proof.
  assert (H : forall opt rest default,
             _normalize_input val (opt :: rest) default = opt).
  { intros opt rest default. unfold _normalize_input. rewrite Hblank.
    cbn [PyStr.lower normalize_loop]. now rewrite str_in_nil. }
  split; [exact H|].
  repeat split; intros; unfold predict_input_df;
    cbn [weather_code traffic_code exp_code PyDict.keys map fst];
    rewrite H; reflexivity.
Qed.

Lemma blank_input_takes_first_option_witness :
  _normalize_input "   " weather_options "Cloudy" = "Sunny".
Proof.
  apply (proj1 (blank_input_takes_first_option "   " eq_refl)).
Defined.

(* ===================================================================== *)
(** * The explanation *)
(* ===================================================================== *)

Section Explanation.

Lemma impact_lines_length (names : list string) (vals : list float) :
  (List.length (impact_lines names vals) <= List.length names)%nat.
Proof.
  revert vals; induction names as [|n names IH]; intros vals; simpl.
  - lia.
  - destruct vals as [|x vals]; simpl; [lia|].
    specialize (IH vals).
    destruct (PrimFloat.ltb display_threshold (PrimFloat.abs x)); simpl; lia.
Qed.

Lemma impact_lines_in (names : list string) (vals : list float)
      (l : impact_line) :
  In l (impact_lines names vals) ->
  In (line_name l, line_impact l) (combine names vals)
  /\ PrimFloat.ltb display_threshold (PrimFloat.abs (line_impact l)) = true
  /\ line_sign l = (if PrimFloat.ltb 0 (line_impact l) then "+" else "").
Proof.
  revert vals; induction names as [|n names IH]; intros vals; simpl.
  - contradiction.
  - destruct vals as [|x vals]; simpl; [contradiction|].
    destruct (PrimFloat.ltb display_threshold (PrimFloat.abs x)) eqn:E.
    + intros [<- | H]; simpl.
      * repeat split; [now left | exact E].
      * destruct (IH vals H) as (H1 & H2 & H3). repeat split; auto.
    + intros H. destruct (IH vals H) as (H1 & H2 & H3). repeat split; auto.
Qed.

(** The lines keep the order of the columns: a column is named at most
    once. *)
Lemma impact_lines_nodup (names : list string) (vals : list float) :
  NoDup names -> NoDup (map line_name (impact_lines names vals)).
Proof.
  revert vals; induction names as [|n names IH]; intros vals Hn; simpl.
  - constructor.
  - destruct vals as [|x vals]; [constructor|].
    inversion Hn as [|? ? Hnot Hrest]; subst.
    destruct (PrimFloat.ltb display_threshold (PrimFloat.abs x));
      [|now apply IH].
    simpl. constructor; [|now apply IH].
    intros Hin. apply Hnot. apply in_map_iff in Hin.
    destruct Hin as (l & <- & Hl). apply impact_lines_in in Hl.
    destruct Hl as [Hl _]. now apply in_combine_l in Hl.
Qed.

Lemma impact_lines_hidden (names : list string) (vals : list float) :
  Forall (fun x => PrimFloat.ltb display_threshold (PrimFloat.abs x) = false)
         vals ->
  impact_lines names vals = [].
Proof.
  revert vals; induction names as [|n names IH]; intros vals H; simpl.
  - reflexivity.
  - destruct vals as [|x vals]; [reflexivity|].
    inversion H as [|? ? Hx Hrest]; subst. rewrite Hx. now apply IH.
Qed.

Lemma ltb_not_nan_r (x y : float) :
  PrimFloat.ltb x (PrimFloat.abs y) = true -> not_nan y.
Proof.
  rewrite ltb_spec, abs_spec. unfold not_nan. intros H E. rewrite E in H.
  simpl in H. unfold SFltb, SFcompare in H.
  destruct (Prim2SF x) as [| | |? ? ?]; discriminate.
Qed.

End Explanation.

(** X12: what an explanation shows, whatever the explainer returns: at most six
    lines, each for a different column of the feature vector and for a
    contribution of the explainer of magnitude above 0.1, which is a
    number; the sign is "+" exactly for a positive contribution. *)
Theorem explanation_lists_large_contributions :
  forall (explainer : tree_explainer) (v w : string) (d : float)
         (t e : string),
  exists lines,
    let sv := explainer (explain_input_df v w d t e) in
    explain_delivery_prediction (Some explainer) v w d t e
    = Explanation (base_values sv) lines
    /\ (List.length lines <= 6)%nat
    /\ NoDup (map line_name lines)
    /\ forall l, In l lines ->
         In (line_name l) columns
         /\ In (line_impact l) (values sv)
         /\ PrimFloat.ltb display_threshold (PrimFloat.abs (line_impact l))
            = true
         /\ not_nan (line_impact l)
         /\ (line_sign l = "+" <-> PrimFloat.ltb 0 (line_impact l) = true).
Proof.
  intros explainer v w d t e.
  exists (impact_lines columns
            (values (explainer (explain_input_df v w d t e)))).
  cbv zeta. split; [reflexivity|]. split; [apply impact_lines_length|].
  split.
  - apply impact_lines_nodup. unfold columns.
    repeat constructor; simpl; intuition discriminate.
  - intros l Hl. apply impact_lines_in in Hl. destruct Hl as (H1 & H2 & H3).
    split; [now apply in_combine_l in H1|].
    split; [now apply in_combine_r in H1|].
    split; [exact H2|]. split; [now apply ltb_not_nan_r in H2|].
    rewrite H3. destruct (PrimFloat.ltb 0 (line_impact l)); split;
      (reflexivity || discriminate).
Qed.

(** X13: when no contribution exceeds 0.1 in magnitude (NaN included),
    the explanation consists of the base value alone. *)
Theorem small_contributions_are_hidden
  (explainer : tree_explainer) (v w : string) (d : float) (t e : string)
  (Hsmall : Forall (fun x => PrimFloat.ltb display_threshold (PrimFloat.abs x)
                             = false)
                   (values (explainer (explain_input_df v w d t e)))) :
  explain_delivery_prediction (Some explainer) v w d t e
  = Explanation (base_values (explainer (explain_input_df v w d t e))) [].
Proof.
  unfold explain_delivery_prediction. f_equal.
  now apply impact_lines_hidden.
Qed.

Lemma small_contributions_are_hidden_witness :
  explain_delivery_prediction
    (Some (fun _ => {| base_values := 30;
                       values := [display_threshold; (-0.0625)%float; nan;
                                  0%float; 0.0625%float; 0%float] |}))
    "Bike" "Rainy" 5 "High" "Junior"
  = Explanation 30 [].
Proof.
  apply (small_contributions_are_hidden
           (fun _ => {| base_values := 30;
                        values := [display_threshold; (-0.0625)%float; nan;
                                   0%float; 0.0625%float; 0%float] |})).
  repeat constructor.
Defined.

(* ===================================================================== *)
(** * Weather lookup *)
(* ===================================================================== *)

(** X14: [get_weather_risk] answers Rainy for a text that contains "2026-01" or
    "2026-02", else Sunny for one that contains "2026-07", else Cloudy; it
    never answers Snow.  The predictor reads the answer as it is:
    normalisation leaves it unchanged and the weather code is 2, 0 or 1. *)
Theorem weather_risk_is_understood_by_predictor :
  forall (date_str : string),
    let w := get_weather_risk date_str in
    let winter := PyStr.Substring "2026-01" date_str
                  \/ PyStr.Substring "2026-02" date_str in
    (winter -> w = "Rainy")
    /\ (~ winter -> PyStr.Substring "2026-07" date_str -> w = "Sunny")
    /\ (~ winter -> ~ PyStr.Substring "2026-07" date_str -> w = "Cloudy")
    /\ w <> "Snow"
    /\ _normalize_input w weather_options "Cloudy" = w
    /\ forall v d t e,
         weather_code (predict_input_df v w d t e)
         = (if String.eqb w "Rainy" then 2
            else if String.eqb w "Sunny" then 0 else 1).
Proof.
  intros date_str w winter. subst w winter. unfold get_weather_risk.
  rewrite <- !str_in_iff.
  destruct (PyStr.str_in "2026-01" date_str);
    destruct (PyStr.str_in "2026-02" date_str);
    destruct (PyStr.str_in "2026-07" date_str); cbn [orb];
    repeat split; try reflexivity; try discriminate; try tauto;
    intros; try congruence; intuition congruence.
Qed.

(* ===================================================================== *)
(** * Training and inference tables *)
(* ===================================================================== *)

Section Tables.

Lemma lookup_in {V} (d : PyDict.dict V) (k : string) (v : V) :
  PyDict.lookup d k = Some v -> In (k, v) d.
Proof.
  induction d as [|[k' v'] d IH]; simpl; [discriminate|].
  destruct (String.eqb k k') eqn:E.
  - apply String.eqb_eq in E. subst k'. intros [= ->]. now left.
  - intros H. right. now apply IH.
Qed.

End Tables.

(** X15: a label that the training script encodes gets the same code at
    inference, in the prediction path and in the explanation path; the
    labels the generator draws are all encoded, and the feature columns are
    the same, in the same order. *)
Theorem training_codes_are_inference_codes :
  (forall label code v d t e,
      Train.map_label Train.weather_map label = Some code ->
      weather_code (predict_input_df v label d t e) = code
      /\ weather_code (explain_input_df v label d t e) = code)
  /\ (forall label code v w d e,
         Train.map_label Train.traffic_map label = Some code ->
         traffic_code (predict_input_df v w d label e) = code
         /\ traffic_code (explain_input_df v w d label e) = code)
  /\ (forall label code v w d t,
         Train.map_label Train.exp_map label = Some code ->
         exp_code (predict_input_df v w d t label) = code
         /\ exp_code (explain_input_df v w d t label) = code)
  /\ (forall label, In label Sampling.WEATHER ->
                    Train.map_label Train.weather_map label <> None)
  /\ (forall label, In label Sampling.TRAFFIC ->
                    Train.map_label Train.traffic_map label <> None)
  /\ (forall label, In label Sampling.DRIVER_EXP ->
                    Train.map_label Train.exp_map label <> None)
  /\ Train.feature_cols = columns.
Proof.
  assert (Hcode : forall (d : PyDict.dict Z) label code,
             PyDict.lookup d label = Some code -> In (label, code) d)
    by (intros; now apply lookup_in).
  split; [|split; [|split; [|split; [|split; [|split]]]]].
  - intros label code v d t e H. apply Hcode in H. simpl in H.
    repeat (destruct H as [H | H];
            [injection H as <- <-; split; reflexivity|]).
    contradiction.
  - intros label code v w d e H. apply Hcode in H. simpl in H.
    repeat (destruct H as [H | H];
            [injection H as <- <-; split; reflexivity|]).
    contradiction.
  - intros label code v w d t H. apply Hcode in H. simpl in H.
    repeat (destruct H as [H | H];
            [injection H as <- <-; split; reflexivity|]).
    contradiction.
  - intros label H. simpl in H.
    repeat (destruct H as [<- | H]; [discriminate|]). contradiction.
  - intros label H. simpl in H.
    repeat (destruct H as [<- | H]; [discriminate|]). contradiction.
  - intros label H. simpl in H.
    repeat (destruct H as [<- | H]; [discriminate|]). contradiction.
  - reflexivity.
Qed.

(* ===================================================================== *)
(** * Distance tool *)
(* ===================================================================== *)

Section Distance.

Import PyMath Generator.

Lemma calculate_is_rounded_haversine (M : math_module)
      (lat1 lon1 lat2 lon2 : float) :
  calculate_delivery_distance M lat1 lon1 lat2 lon2
  = (d <- haversine M lat1 lon1 lat2 lon2 ;; round2 d).
Proof.
  unfold calculate_delivery_distance, haversine. cbv zeta.
  repeat match goal with
         | |- bind ?c _ = bind (bind ?c _) _ =>
             destruct c; cbn [bind]; [reflexivity|]
         end.
  reflexivity.
Qed.

End Distance.

(** X16: for finite coordinates and a math library within its contract,
    the distance tool never returns a negative number or NaN. *)
Theorem tool_distance_is_nonnegative
  (M : PyMath.math_module) (lat1 lon1 lat2 lon2 r : float)
  (HM : math_contract M)
  (Hlat1 : finite lat1) (Hlon1 : finite lon1)
  (Hlat2 : finite lat2) (Hlon2 : finite lon2)
  (Hr : calculate_delivery_distance M lat1 lon1 lat2 lon2 = ret r) :
  PrimFloat.leb 0 r = true /\ not_nan r.
Proof.
  rewrite calculate_is_rounded_haversine in Hr.
  destruct (Generator.haversine M lat1 lon1 lat2 lon2) as [e | d] eqn:E;
    [discriminate Hr|]. cbn [bind] in Hr.
  assert (Hd : nonneg d)
    by (apply (haversine_nonneg M lat1 lon1 lat2 lon2); assumption).
  assert (H : nonneg r) by (apply (round2_nonneg d); assumption).
  split; [exact H | now apply nonneg_not_nan].
Qed.

Lemma tool_distance_is_nonnegative_witness :
  calculate_delivery_distance small_angle_math
    0x1.a428f5c28f5c3p+5 0x1.acf5c28f5c28fp+3
    0x1.a3fc1bda5119dp+5 0x1.ac89a02752546p+3
  = ret 0x1.6b851eb851eb8p+1%float
  /\ PrimFloat.leb 0 0x1.6b851eb851eb8p+1 = true.
Proof.
  assert (H : calculate_delivery_distance small_angle_math
                0x1.a428f5c28f5c3p+5 0x1.acf5c28f5c28fp+3
                0x1.a3fc1bda5119dp+5 0x1.ac89a02752546p+3
              = ret 0x1.6b851eb851eb8p+1%float)
    by (vm_compute; reflexivity).
  split; [exact H|].
  assert (F1 : finite 0x1.a428f5c28f5c3p+5) by exact I.
  assert (F2 : finite 0x1.acf5c28f5c28fp+3) by exact I.
  assert (F3 : finite 0x1.a3fc1bda5119dp+5) by exact I.
  assert (F4 : finite 0x1.ac89a02752546p+3) by exact I.
  exact (proj1 (tool_distance_is_nonnegative small_angle_math _ _ _ _ _
                  small_angle_contract F1 F2 F3 F4 H)).
Defined.

(* --------------------------------------------------------------------- *)
(** ** Symmetry of the distance and its value at a point *)
(* --------------------------------------------------------------------- *)

Section SignSymmetry.

Lemma binary_round_aux_opp (s : bool) (m e : Z) (l : location) :
  binary_round_aux prec emax (negb s) m e l
  = SFopp (binary_round_aux prec emax s m e l).
Proof.
  unfold binary_round_aux.
  destruct (shr_fexp prec emax m e l) as [mrs1 e1].
  destruct (shr_fexp prec emax _ e1 loc_Exact) as [mrs2 e2].
  destruct (shr_m mrs2); [reflexivity | | reflexivity].
  now destruct (e2 <=? emax - prec).
Qed.

Lemma binary_round_opp (s : bool) (m : positive) (e : Z) :
  binary_round prec emax (negb s) m e = SFopp (binary_round prec emax s m e).
Proof.
  unfold binary_round.
  destruct (shl_align m e _) as [mz ez]. apply binary_round_aux_opp.
Qed.

Lemma xorb_negb_l (a b : bool) : xorb (negb a) b = negb (xorb a b).
Proof. now destruct a, b. Qed.

Lemma SFmul_opp_l (X Y : spec_float) :
  SFmul prec emax (SFopp X) Y = SFopp (SFmul prec emax X Y).
Proof.
  destruct X as [sx|sx| |sx mx ex], Y as [sy|sy| |sy my ey]; simpl;
    rewrite ?xorb_negb_l; try reflexivity.
  apply binary_round_aux_opp.
Qed.

Lemma SFdiv_opp_l (X Y : spec_float) :
  SFdiv prec emax (SFopp X) Y = SFopp (SFdiv prec emax X Y).
Proof.
  destruct X as [sx|sx| |sx mx ex], Y as [sy|sy| |sy my ey]; simpl;
    rewrite ?xorb_negb_l; try reflexivity.
  destruct (SFdiv_core_binary prec emax (Zpos mx) ex (Zpos my) ey)
    as [[mz ez] lz].
  apply binary_round_aux_opp.
Qed.

Lemma SFmul_comm (X Y : spec_float) :
  SFmul prec emax X Y = SFmul prec emax Y X.
Proof.
  destruct X as [sx|sx| |sx mx ex], Y as [sy|sy| |sy my ey]; simpl;
    rewrite ?(xorb_comm sx sy); try reflexivity.
  now rewrite (Pos.mul_comm mx my), (Z.add_comm ex ey).
Qed.

Lemma mul_opp_l (x y : float) :
  PrimFloat.mul (PrimFloat.opp x) y = PrimFloat.opp (PrimFloat.mul x y).
Proof.
  apply Prim2SF_inj. rewrite opp_spec, !mul_spec, opp_spec.
  apply SFmul_opp_l.
Qed.

Lemma div_opp_l (x y : float) :
  PrimFloat.div (PrimFloat.opp x) y = PrimFloat.opp (PrimFloat.div x y).
Proof.
  apply Prim2SF_inj. rewrite opp_spec, !div_spec, opp_spec.
  apply SFdiv_opp_l.
Qed.

Lemma mul_comm (x y : float) : PrimFloat.mul x y = PrimFloat.mul y x.
Proof. apply Prim2SF_inj. rewrite !mul_spec. apply SFmul_comm. Qed.

Lemma opp_involutive (x : float) : PrimFloat.opp (PrimFloat.opp x) = x.
Proof.
  apply Prim2SF_inj. rewrite !opp_spec.
  destruct (Prim2SF x) as [s|s| |s m e]; simpl; now rewrite ?negb_involutive.
Qed.

Lemma abs_opp (x : float) : PrimFloat.abs (PrimFloat.opp x) = PrimFloat.abs x.
Proof.
  apply Prim2SF_inj. rewrite !abs_spec, opp_spec.
  now destruct (Prim2SF x).
Qed.

Lemma binary_normalize_opp (z e : Z) :
  z <> 0 ->
  binary_normalize prec emax (- z) e false
  = SFopp (binary_normalize prec emax z e false).
Proof.
  destruct z as [|p|p]; intros Hz; [contradiction | |]; simpl.
  - apply (binary_round_opp false).
  - change (binary_round prec emax false p e)
      with (binary_round prec emax (negb true) p e).
    rewrite binary_round_opp.
    destruct (binary_round prec emax true p e); simpl;
      now rewrite ?negb_involutive.
Qed.

(** Swapping the operands of a subtraction changes the sign of the
    difference, unless both differences are the positive zero. *)
Lemma SFsub_swap (X Y : spec_float) :
  SFsub prec emax Y X = SFopp (SFsub prec emax X Y)
  \/ (SFsub prec emax X Y = S754_zero false
      /\ SFsub prec emax Y X = S754_zero false).
Proof.
  destruct X as [sx|sx| |sx mx ex], Y as [sy|sy| |sy my ey];
    try (left; simpl; now rewrite ?negb_involutive);
    try (destruct sx, sy; simpl; tauto).
  unfold SFsub.
  replace (IntDef.Z.min ey ex) with (IntDef.Z.min ex ey)
    by apply Z.min_comm.
  set (ez := IntDef.Z.min ex ey).
  set (a := cond_Zopp sx (Zpos (fst (shl_align mx ex ez)))).
  set (b := cond_Zopp sy (Zpos (fst (shl_align my ey ez)))).
  destruct (Z.eq_dec (a - b) 0) as [H0 | Hn].
  - right. replace (b - a) with 0 by lia. rewrite H0. split; reflexivity.
  - left. replace (b - a) with (- (a - b)) by lia.
    now apply binary_normalize_opp.
Qed.

Lemma sub_swap (x y : float) :
  PrimFloat.sub y x = PrimFloat.opp (PrimFloat.sub x y)
  \/ (PrimFloat.sub x y = 0%float /\ PrimFloat.sub y x = 0%float).
Proof.
  destruct (SFsub_swap (Prim2SF x) (Prim2SF y)) as [H | [H1 H2]].
  - left. apply Prim2SF_inj. now rewrite opp_spec, !sub_spec.
  - right. split; apply Prim2SF_inj; rewrite sub_spec; assumption.
Qed.

Lemma sub_diag_finite (x : float) : finite x -> PrimFloat.sub x x = 0%float.
Proof.
  intros Hx. apply Prim2SF_inj. rewrite sub_spec. unfold finite in Hx.
  destruct (Prim2SF x) as [s|s| |s m e]; try contradiction.
  - now destruct s.
  - unfold SF64sub, SFsub. rewrite Z.sub_diag. reflexivity.
Qed.

Lemma SFcompare_refl (X : spec_float) :
  X <> S754_nan -> SFcompare X X = Some Eq.
Proof.
  destruct X as [s|s| |s m e]; intros H; simpl.
  - reflexivity.
  - now destruct s.
  - contradiction.
  - rewrite Z.compare_refl.
    replace (PosDef.Pos.compare_cont Eq m m) with Eq
      by (symmetry; apply Pos.compare_cont_refl).
    now destruct s.
Qed.

Lemma eqb_refl_number (x : float) : not_nan x -> PrimFloat.eqb x x = true.
Proof.
  intros H. rewrite eqb_spec. unfold SFeqb. now rewrite SFcompare_refl.
Qed.

Lemma is_nan_number (x : float) : not_nan x -> PrimFloat.is_nan x = false.
Proof. intros H. unfold PrimFloat.is_nan. now rewrite eqb_refl_number. Qed.

Lemma is_nan_nan (x : float) : PrimFloat.is_nan x = true -> x = nan.
Proof.
  unfold PrimFloat.is_nan. intros H. apply negb_true_iff in H.
  apply Prim2SF_inj. change (Prim2SF nan) with S754_nan.
  destruct (Prim2SF x) eqn:E; try reflexivity;
    rewrite eqb_refl_number in H by (unfold not_nan; rewrite E; discriminate);
    discriminate.
Qed.

Lemma finite_below (x : float) : finite x -> below_pow2 1024 x.
Proof.
  unfold finite, below_pow2.
  destruct (Prim2SF x) as [s|s| |s m e] eqn:E; try tauto. intros _.
  destruct (valid_finite x s m e E) as (H1 & _ & H2). lia.
Qed.

Lemma radians_finite (x : float) : finite x -> finite (PyMath.math_radians x).
Proof.
  intros H. unfold PyMath.math_radians.
  apply (mul_finite 1024 (-5)); [now apply finite_below | | lia].
  unfold below_pow2. vm_compute. discriminate.
Qed.

Lemma is_infinity_finite (x : float) :
  finite x -> PrimFloat.is_infinity x = false.
Proof.
  unfold finite, PrimFloat.is_infinity. rewrite eqb_spec, abs_spec.
  change (Prim2SF infinity) with (S754_infinity false).
  destruct (Prim2SF x) as [s|s| |s m e]; intros H; try contradiction;
    reflexivity.
Qed.

(** The square of a value of [-1, 1] times zero is the positive zero. *)
Lemma square_times_zero (c : float) :
  PrimFloat.leb (PrimFloat.abs c) 1 = true ->
  PrimFloat.mul (PrimFloat.mul c c) 0 = 0%float.
Proof.
  intros Hc. apply abs_le_one_below in Hc.
  pose proof (mul_finite 1 1 c c Hc Hc ltac:(lia)) as Hfin.
  apply Prim2SF_inj. rewrite !mul_spec.
  change (Prim2SF 0) with (S754_zero false).
  unfold finite in Hfin. rewrite mul_spec in Hfin.
  unfold below_pow2 in Hc. unfold SF64mul in *.
  destruct (Prim2SF c) as [s|s| |s m e]; try contradiction.
  - simpl. now destruct s.
  - cbn [SFmul] in *.
    destruct (binary_round_aux_forms (xorb s s) (Zpos (m * m)) (e + e)
                loc_Exact ltac:(lia)) as [[H | [(m' & e' & H) | H]] _];
      rewrite H in *; try contradiction; simpl; now destruct s.
Qed.

End SignSymmetry.

Section DistanceSymmetry.

Import PyMath.

Lemma calculate_by_squares (M : math_module) (lat1 lon1 lat2 lon2 : float) :
  calculate_delivery_distance M lat1 lon1 lat2 lon2
  = (sq_dphi <- half_angle_square M (PrimFloat.sub lat2 lat1) ;;
     cos1 <- math_cos M (math_radians lat1) ;;
     cos2 <- math_cos M (math_radians lat2) ;;
     sq_dlambda <- half_angle_square M (PrimFloat.sub lon2 lon1) ;;
     distance_of_square M
       (PrimFloat.add sq_dphi
          (PrimFloat.mul (PrimFloat.mul cos1 cos2) sq_dlambda))).
Proof.
  unfold calculate_delivery_distance, half_angle_square, distance_of_square.
  cbv zeta.
  destruct (math_sin M (PrimFloat.div (math_radians (PrimFloat.sub lat2 lat1)) 2))
    as [e | s1]; cbn [bind]; [reflexivity|].
  destruct (float_pow2 M s1) as [e | q1]; cbn [bind]; [reflexivity|].
  destruct (math_cos M (math_radians lat1)) as [e | c1]; cbn [bind];
    [reflexivity|].
  destruct (math_cos M (math_radians lat2)) as [e | c2]; cbn [bind];
    [reflexivity|].
  destruct (math_sin M (PrimFloat.div (math_radians (PrimFloat.sub lon2 lon1)) 2))
    as [e | s2]; cbn [bind]; reflexivity.
Qed.

Variable M : math_module.
Hypothesis HM : math_contract M.
Hypothesis HS : symmetry_contract M.

Lemma half_angle_square_swap (x y : float) :
  half_angle_square M (PrimFloat.sub y x)
  = half_angle_square M (PrimFloat.sub x y).
Proof.
  destruct (sub_swap x y) as [H | [H1 H2]].
  - rewrite H. unfold half_angle_square, math_radians.
    rewrite mul_opp_l, div_opp_l, (sin_odd M HS).
    destruct (math_sin M _) as [e | s]; cbn [bind ret]; [reflexivity|].
    apply (pow2_even M HS).
  - now rewrite H1, H2.
Qed.

Lemma half_angle_square_zero : half_angle_square M 0 = ret 0%float.
Proof.
  unfold half_angle_square.
  change (PrimFloat.div (math_radians 0) 2) with 0%float.
  rewrite (sin_zero M HS). cbn [bind ret]. apply (pow2_zero M HS).
Qed.

Lemma distance_of_square_zero : distance_of_square M 0 = ret 0%float.
Proof.
  unfold distance_of_square.
  change (math_sqrt 0) with (@ret float 0%float). cbn [bind ret].
  change (math_sqrt (PrimFloat.sub 1 0)) with (@ret float 1%float).
  cbn [bind ret]. cbv zeta. rewrite (atan2_zero M HS). reflexivity.
Qed.

Lemma cosine_of_radians (x : float) :
  finite x ->
  exists c, math_cos M (math_radians x) = ret c
            /\ PrimFloat.leb (PrimFloat.abs c) 1 = true.
Proof.
  intros Hx. pose proof (radians_finite x Hx) as Hr.
  destruct (cos_returns M HS _ Hr) as [c Hc]. exists c. split; [exact Hc|].
  apply (cos_range M HM (math_radians x)); [now apply finite_not_nan | exact Hc].
Qed.

Lemma distance_swap (lat1 lon1 lat2 lon2 : float) :
  finite lat1 -> finite lat2 ->
  calculate_delivery_distance M lat1 lon1 lat2 lon2
  = calculate_delivery_distance M lat2 lon2 lat1 lon1.
Proof.
  intros H1 H2. rewrite !calculate_by_squares.
  rewrite (half_angle_square_swap lat2 lat1),
    (half_angle_square_swap lon2 lon1).
  destruct (cosine_of_radians lat1 H1) as (c1 & -> & _).
  destruct (cosine_of_radians lat2 H2) as (c2 & -> & _).
  destruct (half_angle_square M (PrimFloat.sub lat2 lat1)) as [e | q1];
    cbn [bind ret]; [reflexivity|].
  destruct (half_angle_square M (PrimFloat.sub lon2 lon1)) as [e | q2];
    cbn [bind ret]; [reflexivity|].
  now rewrite (mul_comm c2 c1).
Qed.

Lemma distance_at_a_point (lat lon : float) :
  finite lat -> finite lon ->
  calculate_delivery_distance M lat lon lat lon = ret 0%float.
Proof.
  intros Hlat Hlon. rewrite calculate_by_squares.
  rewrite !sub_diag_finite by assumption.
  rewrite half_angle_square_zero. cbn [bind ret].
  destruct (cosine_of_radians lat Hlat) as (c & -> & Hc). cbn [bind ret].
  rewrite (square_times_zero c Hc).
  change (PrimFloat.add 0 0) with 0%float.
  apply distance_of_square_zero.
Qed.

Lemma distance_is_a_number (lat1 lon1 lat2 lon2 d : float) :
  finite lat1 -> finite lon1 -> finite lat2 -> finite lon2 ->
  calculate_delivery_distance M lat1 lon1 lat2 lon2 = ret d ->
  not_nan d.
Proof.
  intros H1 H2 H3 H4 Hd. rewrite calculate_is_rounded_haversine in Hd.
  destruct (Generator.haversine M lat1 lon1 lat2 lon2) as [e | h] eqn:E;
    [discriminate Hd|]. cbn [bind] in Hd.
  apply nonneg_not_nan, (round2_nonneg h); [|exact Hd].
  apply (haversine_nonneg M lat1 lon1 lat2 lon2); assumption.
Qed.

End DistanceSymmetry.

Section SpecialValues.

Import PyMath.

Lemma leb_number_l (x y : float) : PrimFloat.leb x y = true -> not_nan x.
Proof.
  rewrite leb_spec. unfold not_nan, SFleb. intros H E. rewrite E in H.
  discriminate H.
Qed.

Lemma abs_number (x : float) : not_nan (PrimFloat.abs x) -> not_nan x.
Proof.
  unfold not_nan. rewrite abs_spec. now destruct (Prim2SF x).
Qed.

Lemma opp_number (x : float) : not_nan x -> not_nan (PrimFloat.opp x).
Proof.
  unfold not_nan. rewrite opp_spec. now destruct (Prim2SF x).
Qed.

Lemma clamp_range (x : float) :
  PrimFloat.leb (PrimFloat.abs (clamp x)) 1 = true.
Proof.
  unfold clamp. destruct (PrimFloat.leb (PrimFloat.abs x) 1) eqn:E;
    [exact E|]. now destruct (PrimFloat.ltb x 0).
Qed.

Lemma clamp_odd (x : float) :
  not_nan x -> clamp (PrimFloat.opp x) = PrimFloat.opp (clamp x).
Proof.
  intros Hx. unfold clamp. rewrite abs_opp.
  destruct (PrimFloat.leb (PrimFloat.abs x) 1) eqn:E; [reflexivity|].
  assert (Hs : PrimFloat.ltb (PrimFloat.opp x) 0
               = negb (PrimFloat.ltb x 0)).
  { revert E. rewrite !ltb_spec, leb_spec, abs_spec, opp_spec.
    unfold not_nan in Hx.
    change (Prim2SF 0) with (S754_zero false).
    destruct (Prim2SF x) as [s|s| |s m e]; try contradiction;
      now destruct s. }
  rewrite Hs. now destruct (PrimFloat.ltb x 0).
Qed.

Lemma special_value_contract : math_contract special_value_math.
Proof.
  constructor; cbn [math_sin math_cos math_atan2 float_pow2 special_value_math].
  - intros x r Hx. rewrite (is_nan_number x Hx).
    destruct (PrimFloat.is_infinity x); [discriminate|].
    intros H. apply ret_inj in H. subst r. apply clamp_range.
  - intros x r Hx. rewrite (is_nan_number x Hx).
    destruct (PrimFloat.is_infinity x); [discriminate|].
    intros H. apply ret_inj in H. now subst r.
  - intros x r Hx.
    rewrite (is_nan_number x (abs_number x (leb_number_l _ _ Hx))).
    intros H. apply ret_inj in H. subst r. unfold within_one.
    destruct (PrimFloat.leb (PrimFloat.abs (PrimFloat.mul x x)) 1) eqn:E;
      [exact E | reflexivity].
  - intros y x Hy _ _. exact Hy.
Qed.

Lemma special_value_symmetry : symmetry_contract special_value_math.
Proof.
  constructor; cbn [math_sin math_cos math_atan2 float_pow2 special_value_math];
    try reflexivity.
  - intros x. unfold PrimFloat.is_infinity. rewrite abs_opp.
    destruct (PrimFloat.is_nan x) eqn:En.
    + apply is_nan_nan in En. subst x. reflexivity.
    + assert (Hx : not_nan x).
      { unfold not_nan. intros E. unfold PrimFloat.is_nan in En.
        rewrite eqb_spec, E in En. discriminate En. }
      rewrite (is_nan_number _ (opp_number x Hx)).
      destruct (PrimFloat.eqb (PrimFloat.abs x) infinity); [reflexivity|].
      cbn [bind ret]. now rewrite clamp_odd.
  - intros x. destruct (PrimFloat.is_nan x) eqn:En.
    + apply is_nan_nan in En. subst x. reflexivity.
    + assert (Hx : not_nan x).
      { unfold not_nan. intros E. unfold PrimFloat.is_nan in En.
        rewrite eqb_spec, E in En. discriminate En. }
      rewrite (is_nan_number _ (opp_number x Hx)).
      rewrite mul_opp_l, (mul_comm x (PrimFloat.opp x)), mul_opp_l.
      now rewrite opp_involutive.
  - intros x Hx. rewrite (is_nan_number x (finite_not_nan x Hx)).
    rewrite (is_infinity_finite x Hx). now exists 1%float.
Qed.

End SpecialValues.

(** C6, as stated, fails where a coordinate is NaN.  On NaN the sine, the
    cosine, the square, the square root and the arc tangent of Python all
    return NaN, so the distance from the point (NaN, 0) to itself is NaN:
    it is not 0, and it is not equal to itself, so neither half of the
    claim holds there. *)
Lemma nan_distance_equals_nothing :
  math_contract special_value_math
  /\ symmetry_contract special_value_math
  /\ calculate_delivery_distance special_value_math nan 0 nan 0 = ret nan
  /\ PrimFloat.eqb nan 0 = false
  /\ PrimFloat.eqb nan nan = false.
Proof.
  split; [exact special_value_contract|].
  split; [exact special_value_symmetry|].
  repeat split; vm_compute; reflexivity.
Qed.

(** C6, amended: for points with finite coordinates and a math library
    within its contract - sine and cosine in [-1, 1], the sine odd, squaring
    even, the sine of 0, the square of 0 and the arc tangent of 0 over 1
    equal to 0, the cosine of a finite number returned -
    [calculate_delivery_distance] has the same outcome from A to B as from B
    to A, the two distances compare equal when they are returned, and the
    distance from a point to itself is returned and is 0. *)
Theorem finite_distance_is_symmetric_and_zero_at_a_point
  (M : PyMath.math_module) (lat1 lon1 lat2 lon2 : float)
  (HM : math_contract M) (HS : symmetry_contract M)
  (Hlat1 : finite lat1) (Hlon1 : finite lon1)
  (Hlat2 : finite lat2) (Hlon2 : finite lon2) :
  calculate_delivery_distance M lat1 lon1 lat2 lon2
  = calculate_delivery_distance M lat2 lon2 lat1 lon1
  /\ (forall d d',
         calculate_delivery_distance M lat1 lon1 lat2 lon2 = ret d ->
         calculate_delivery_distance M lat2 lon2 lat1 lon1 = ret d' ->
         PrimFloat.eqb d d' = true)
  /\ calculate_delivery_distance M lat1 lon1 lat1 lon1 = ret 0%float
  /\ PrimFloat.eqb 0 0 = true.
Proof.
  pose proof (distance_swap M HM HS lat1 lon1 lat2 lon2 Hlat1 Hlat2) as Hswap.
  split; [exact Hswap|]. split; [|split; [|reflexivity]].
  - intros d d' Hd Hd'. rewrite <- Hswap, Hd in Hd'. apply ret_inj in Hd'.
    subst d'. apply eqb_refl_number.
    now apply (distance_is_a_number M HM lat1 lon1 lat2 lon2).
  - now apply distance_at_a_point.
Qed.

Lemma finite_distance_is_symmetric_and_zero_at_a_point_witness :
  calculate_delivery_distance special_value_math
    0x1.a428f5c28f5c3p+5 0x1.acf5c28f5c28fp+3
    0x1.a3fc1bda5119dp+5 0x1.ac89a02752546p+3
  = ret 0x1.6b851eb851eb8p+1%float
  /\ calculate_delivery_distance special_value_math
       0x1.a3fc1bda5119dp+5 0x1.ac89a02752546p+3
       0x1.a428f5c28f5c3p+5 0x1.acf5c28f5c28fp+3
     = ret 0x1.6b851eb851eb8p+1%float
  /\ calculate_delivery_distance special_value_math
       0x1.a428f5c28f5c3p+5 0x1.acf5c28f5c28fp+3
       0x1.a428f5c28f5c3p+5 0x1.acf5c28f5c28fp+3
     = ret 0%float.
Proof.
  assert (F1 : finite 0x1.a428f5c28f5c3p+5) by exact I.
  assert (F2 : finite 0x1.acf5c28f5c28fp+3) by exact I.
  assert (F3 : finite 0x1.a3fc1bda5119dp+5) by exact I.
  assert (F4 : finite 0x1.ac89a02752546p+3) by exact I.
  destruct (finite_distance_is_symmetric_and_zero_at_a_point
              special_value_math _ _ _ _
              special_value_contract special_value_symmetry F1 F2 F3 F4)
    as (Hswap & _ & Hzero & _).
  assert (H : calculate_delivery_distance special_value_math
                0x1.a428f5c28f5c3p+5 0x1.acf5c28f5c28fp+3
                0x1.a3fc1bda5119dp+5 0x1.ac89a02752546p+3
              = ret 0x1.6b851eb851eb8p+1%float)
    by (vm_compute; reflexivity).
  split; [exact H|]. split; [now rewrite <- Hswap | exact Hzero].
Defined.

Ltac bind_split H :=
  repeat match type of H with
         | bind ?c _ = ret _ =>
             let E := fresh "E" in
             destruct c eqn:E; [discriminate H | cbn [bind] in H]
         end.

(** X17: the distance tool is the generator's [haversine] followed by
    [round(., 2)], for all arguments and with the same exceptions; so the
    [distance_km] of a generated row is what the tool returns on the
    unrounded coordinates [start_lat], [start_lon], [end_lat], [end_lon] of
    the loop.  The pickup and dropoff columns of the row are rounded to four
    decimals on their own; they are not what is compared here. *)
Theorem generated_distance_is_tool_distance :
  (forall (M : PyMath.math_module) (lat1 lon1 lat2 lon2 : float),
      calculate_delivery_distance M lat1 lon1 lat2 lon2
      = (d <- Generator.haversine M lat1 lon1 lat2 lon2 ;; PyMath.round2 d))
  /\ (forall (M : PyMath.math_module) (s : Generator.sample)
             (row : Generator.trip_row),
         Generator.generate_row M s = ret row ->
         exists start stop,
           Generator.district (Generator.start_dist s) = ret start
           /\ Generator.district (Generator.end_dist s) = ret stop
           /\ calculate_delivery_distance M
                (PrimFloat.add (fst start) (Generator.start_lat_jitter s))
                (PrimFloat.add (snd start) (Generator.start_lon_jitter s))
                (PrimFloat.add (fst stop) (Generator.end_lat_jitter s))
                (PrimFloat.add (snd stop) (Generator.end_lon_jitter s))
              = ret (Generator.row_distance_km row)).
Proof.
  split; [exact calculate_is_rounded_haversine|].
  intros M s row Hrow.
  unfold Generator.generate_row in Hrow. cbv zeta in Hrow.
  bind_split Hrow. apply ret_inj in Hrow. subst row.
  exists p, p0. split; [reflexivity|]. split; [reflexivity|].
  rewrite calculate_is_rounded_haversine, E1. cbn [bind].
  exact E2.
Qed.

Lemma generated_distance_is_tool_distance_witness :
  exists start stop,
    Generator.district "Mitte" = ret start
    /\ Generator.district "Kreuzberg" = ret stop
    /\ calculate_delivery_distance small_angle_math
         (PrimFloat.add (fst start) 0x1.47ae147ae147bp-7)
         (PrimFloat.add (snd start) (-0x1.47ae147ae147bp-6))
         (PrimFloat.add (fst stop) 0)
         (PrimFloat.add (snd stop) 0x1.eb851eb851eb8p-6)
       = ret 0x1.5ae147ae147aep+2%float.
Proof.
  apply (proj2 generated_distance_is_tool_distance small_angle_math
           sample_draw
           {| Generator.row_distance_km := 0x1.5ae147ae147aep+2;
              Generator.row_delivery_duration_mins := 28 |}).
  vm_compute. reflexivity.
Defined.

(* ===================================================================== *)
(** * Drift monitor: further properties *)
(* ===================================================================== *)

Section Drift.

Lemma fold_add_shift (l : list Z) (a : Z) :
  fold_left Z.add l a = a + fold_left Z.add l 0.
Proof.
  revert a; induction l as [|x l IH]; intros a; simpl; [lia|].
  rewrite (IH (a + x)), (IH x). lia.
Qed.

Lemma sum_permutation (l l' : list Z) :
  Permutation l l' -> PyNum.sum l = PyNum.sum l'.
Proof.
  unfold PyNum.sum. induction 1 as [|x l l' _ IH|x y l|l l' l'' _ IH1 _ IH2];
    simpl.
  - reflexivity.
  - rewrite (fold_add_shift l x), (fold_add_shift l' x). now rewrite IH.
  - f_equal. lia.
  - now rewrite IH1.
Qed.

Lemma len_permutation {A} (l l' : list A) :
  Permutation l l' -> PyNum.len l = PyNum.len l'.
Proof. intros H. unfold PyNum.len. now rewrite (Permutation_length H). Qed.

(** What a report says about the numbers it was computed from. *)
Lemma report_inversion (file : stats_file) (batch : list Z)
      (r : drift_report) :
  check_data_drift file batch = Report r ->
  exists s,
    PrimFloat.eqb s 0 = false
    /\ batch_mean batch = ret (todays_mean r)
    /\ z_score r
       = PrimFloat.div (PrimFloat.sub (todays_mean r) (baseline_mean r)) s
    /\ conclusion r
       = if PrimFloat.ltb 2 (PrimFloat.abs (z_score r))
         then Drift_detected else Data_stable.
Proof.
  unfold check_data_drift.
  destruct (drift_body file batch) as [e | r'] eqn:H; [discriminate|].
  intros [= ->]. unfold drift_body in H.
  change (@inr pyexn drift_report r) with (ret r) in H.
  bind_split H. apply ret_inj in H. subst r.
  cbn [todays_mean baseline_mean z_score conclusion].
  unfold PyNum.float_truediv in E5.
  destruct (PrimFloat.eqb f1 0) eqn:Hz; [discriminate E5|].
  apply ret_inj in E5. subst f2.
  exists f1. split; [exact Hz|]. split; [exact E2|]. split; reflexivity.
Qed.

(** [x - x] is the positive zero, or NaN when [x] is no finite number. *)
Lemma sub_diag_forms (x : float) :
  Prim2SF (PrimFloat.sub x x) = S754_zero false
  \/ Prim2SF (PrimFloat.sub x x) = S754_nan.
Proof.
  rewrite sub_spec. destruct (Prim2SF x) as [s | s | | s m e]; simpl.
  - left. now destruct s.
  - right. now destruct s.
  - now right.
  - left. unfold SF64sub, SFsub. rewrite Z.sub_diag. reflexivity.
Qed.

(** A zero or NaN divided by anything is a zero or NaN, and its magnitude
    does not exceed 2. *)
Lemma quotient_of_zero_is_small (d s : float) :
  Prim2SF d = S754_zero false \/ Prim2SF d = S754_nan ->
  PrimFloat.ltb 2 (PrimFloat.abs (PrimFloat.div d s)) = false.
Proof.
  intros Hd. rewrite ltb_spec, abs_spec, div_spec.
  destruct Hd as [-> | ->];
    destruct (Prim2SF s) as [s' | s' | | s' m e]; reflexivity.
Qed.

Lemma int_truediv_raises (a b : Z) (e : pyexn) :
  PyNum.int_truediv a b = raise e ->
  e = ZeroDivisionError \/ e = OverflowError.
Proof.
  unfold PyNum.int_truediv. destruct (b =? 0).
  - intros [= <-]. now left.
  - unfold PyNum.in_range.
    destruct (SFdiv prec emax (PyNum.exact a) (PyNum.exact b));
      try discriminate.
    intros [= <-]. now right.
Qed.

End Drift.

(** X18: the monitor looks at the batch through its sum and its length
    only: the order of the observations does not change what it returns. *)
Theorem drift_check_ignores_order
  (file : stats_file) (batch batch' : list Z)
  (Hperm : Permutation batch batch') :
  check_data_drift file batch = check_data_drift file batch'.
Proof.
  unfold check_data_drift, drift_body.
  now rewrite (sum_permutation _ _ Hperm), (len_permutation _ _ Hperm).
Qed.

Lemma drift_check_ignores_order_witness :
  check_data_drift (training_stats 90 10) [70; 120; 95]
  = check_data_drift (training_stats 90 10) [95; 70; 120].
Proof.
  apply drift_check_ignores_order.
  apply Permutation_sym, (Permutation_cons_app [70; 120] []), Permutation_refl.
Defined.

(** X19: a baseline whose standard deviation is a zero (of either sign)
    never gives a verdict: the monitor returns an error text, for the division by
    zero or for the batch mean that could not be computed. *)
Theorem zero_deviation_is_an_error
  (file : stats_file) (m s : float) (batch : list Z)
  (Hfile : baseline file m s)
  (Hzero : PrimFloat.eqb s 0 = true) :
  check_data_drift file batch = Error_checking_drift ZeroDivisionError
  \/ check_data_drift file batch = Error_checking_drift OverflowError.
Proof.
  destruct Hfile as (fields & vm & vs & -> & Hm & Hs & Hvm & Hvs).
  unfold check_data_drift, drift_body.
  cbn [load_stats bind ret subscript]. rewrite Hm, Hs. cbn [bind ret].
  destruct (PyNum.int_truediv _ _) as [e | new_mean] eqn:E; cbn [bind ret].
  - apply int_truediv_raises in E. destruct E as [-> | ->]; [now left | now right].
  - rewrite Hvm, Hvs. cbn [bind ret]. unfold PyNum.float_truediv.
    rewrite Hzero. now left.
Qed.

Lemma zero_deviation_is_an_error_witness :
  check_data_drift (training_stats 90 neg_zero) [100; 200]
  = Error_checking_drift ZeroDivisionError
  \/ check_data_drift (training_stats 90 neg_zero) [100; 200]
     = Error_checking_drift OverflowError.
Proof.
  apply (zero_deviation_is_an_error _ 90 neg_zero).
  - apply training_stats_baseline.
  - reflexivity.
Defined.

(** X20: a report whose batch mean equals the baseline mean never
    announces drift, whatever the standard deviation of the baseline. *)
Theorem equal_means_are_stable
  (file : stats_file) (batch : list Z) (r : drift_report)
  (Hreport : check_data_drift file batch = Report r)
  (Hsame : todays_mean r = baseline_mean r) :
  conclusion r = Data_stable.
Proof.
  destruct (report_inversion _ _ _ Hreport) as (s & _ & _ & Hz & Hc).
  rewrite Hc, Hz, Hsame.
  now rewrite (quotient_of_zero_is_small _ s (sub_diag_forms _)).
Qed.

Lemma equal_means_are_stable_witness :
  check_data_drift (training_stats 90 10) [80; 100]
  = Report {| baseline_mean := 90; todays_mean := 90;
              z_score := 0; conclusion := Data_stable |}
  /\ conclusion {| baseline_mean := 90; todays_mean := 90;
                   z_score := 0; conclusion := Data_stable |} = Data_stable.
Proof.
  assert (H : check_data_drift (training_stats 90 10) [80; 100]
              = Report {| baseline_mean := 90; todays_mean := 90;
                          z_score := 0; conclusion := Data_stable |})
    by (vm_compute; reflexivity).
  split; [exact H|].
  exact (equal_means_are_stable (training_stats 90 10) [80; 100] _ H eq_refl).
Defined.

(* ===================================================================== *)
(** * Reverse geocoding *)
(* ===================================================================== *)

Section Geocoding.

Import Geocoder.

Lemma located_inversion (r : response) (name : string) :
  get_location_name r = Located name ->
  exists fields address place,
    r = Json_body (JObj fields)
    /\ PyDict.lookup fields "address" = Some (JObj address)
    /\ PyDict.get address "suburb"
         (PyDict.get address "road" (JStr "Unknown Device")) = JStr place
    /\ name = place ++ ", Berlin".
Proof.
  unfold get_location_name, lookup_body.
  destruct r as [| | data]; try discriminate.
  destruct data as [| | | | s | items | fields]; try discriminate;
    cbn [contains and_then].
  - destruct (PyStr.str_in "address" s); discriminate.
  - destruct (existsb _ items); discriminate.
  - unfold item. cbn [subscript].
    destruct (PyDict.lookup fields "address") as [address|] eqn:E;
      [|discriminate].
    cbn [ret and_then].
    destruct address as [| | | | | |address]; try discriminate.
    cbn [get and_then].
    destruct (PyDict.get address "suburb" _) as [| | | |place| |] eqn:Ep;
      try discriminate.
    cbn [add_str and_then]. intros [= <-].
    now exists fields, address, place.
Qed.

End Geocoding.

(** X21: every place name that [get_location_name] returns ends in ", Berlin",
    wherever the coordinates are; it comes from a response that is a JSON
    object with an address object. *)
Theorem location_names_end_in_berlin
  (r : Geocoder.response) (name : string)
  (Hname : Geocoder.get_location_name r = Geocoder.Located name) :
  (exists place, name = place ++ ", Berlin")
  /\ exists fields address,
       r = Geocoder.Json_body (JObj fields)
       /\ PyDict.lookup fields "address" = Some (JObj address).
Proof.
  destruct (located_inversion r name Hname)
    as (fields & address & place & Hr & Ha & _ & Hn).
  split; [now exists place | now exists fields, address].
Qed.

Lemma location_names_end_in_berlin_witness :
  exists place, "Kreuzberg, Berlin" = place ++ ", Berlin".
Proof.
  apply (location_names_end_in_berlin
           (Geocoder.Json_body
              (JObj [("place_id", JInt 7);
                     ("address", JObj [("road", JStr "Oranienstrasse");
                                       ("suburb", JStr "Kreuzberg")])]))).
  reflexivity.
Defined.

(** X22: for a response with an address object, the suburb is the name; the
    road is used only when there is no suburb key, and "Unknown Device" when
    there is neither.  A suburb that is no string (a JSON null, say) is an
    error even when the road is a string. *)
Theorem suburb_precedes_road
  (fields address : list (string * json))
  (Haddress : PyDict.lookup fields "address" = Some (JObj address)) :
  Geocoder.get_location_name (Geocoder.Json_body (JObj fields))
  = match PyDict.lookup address "suburb", PyDict.lookup address "road" with
    | Some (JStr suburb), _ => Geocoder.Located (suburb ++ ", Berlin")
    | None, Some (JStr road) => Geocoder.Located (road ++ ", Berlin")
    | None, None => Geocoder.Located "Unknown Device, Berlin"
    | _, _ => Geocoder.Error_retrieving_location (Geocoder.Python TypeError)
    end.
Proof.
  unfold Geocoder.get_location_name, Geocoder.lookup_body.
  cbn [Geocoder.contains Geocoder.and_then]. unfold Geocoder.item.
  cbn [subscript]. rewrite Haddress.
  cbn [ret Geocoder.and_then Geocoder.get]. unfold PyDict.get.
  destruct (PyDict.lookup address "suburb") as [[]|];
    destruct (PyDict.lookup address "road") as [[]|]; reflexivity.
Qed.

Lemma suburb_precedes_road_witness :
  Geocoder.get_location_name
    (Geocoder.Json_body
       (JObj [("address", JObj [("road", JStr "Oranienstrasse");
                                ("suburb", JNull)])]))
  = Geocoder.Error_retrieving_location (Geocoder.Python TypeError).
Proof.
  apply (suburb_precedes_road
           [("address", JObj [("road", JStr "Oranienstrasse");
                              ("suburb", JNull)])]
           [("road", JStr "Oranienstrasse"); ("suburb", JNull)]).
  reflexivity.
Defined.

(* ===================================================================== *)
(** * Generator: penalties and rush hours *)
(* ===================================================================== *)

Section Penalties.

Import Generator.

(** A comparison of a label with a literal is decided, and a label that is
    the literal is replaced by it. *)
Ltac decide_label x lit :=
  let E := fresh "E" in
  destruct (String.eqb x lit) eqn:E;
  [apply String.eqb_eq in E; try rewrite E in * |].

Ltac label_cases d :=
  unfold multipliers, scale_if, with_weather, with_traffic, with_driver;
  cbn [weather traffic driver_exp];
  decide_label (weather d) "Rainy"; decide_label (weather d) "Snow";
  decide_label (traffic d) "Medium"; decide_label (traffic d) "High";
  decide_label (driver_exp d) "Junior"; decide_label (driver_exp d) "Expert";
  try discriminate;
  repeat match goal with
         | H : ?x = _ |- _ => rewrite H
         | H : String.eqb _ _ = _ |- _ => rewrite H
         end.

Lemma multipliers_bounds (d : draw) :
  PrimFloat.leb 0x1.ccccccccccccdp-1 (multipliers d) = true
  /\ PrimFloat.leb (multipliers d) 0x1.3cccccccccccdp+1 = true.
Proof. label_cases d; split; vm_compute; reflexivity. Qed.


(** X23: the penalty factor of a trip grows with the weather (Sunny and Cloudy,
    then Rainy, then Snow), with the traffic (Low, Medium, High) and with
    the inexperience of the driver (Expert, Senior, Junior), whatever the
    other draws are; it always lies between 0.9 and 2.475. *)
Theorem penalties_are_ordered :
  forall d : Generator.draw,
    let m := Generator.multipliers in
    m (with_weather d "Cloudy") = m (with_weather d "Sunny")
    /\ PrimFloat.ltb (m (with_weather d "Sunny")) (m (with_weather d "Rainy"))
       = true
    /\ PrimFloat.ltb (m (with_weather d "Rainy")) (m (with_weather d "Snow"))
       = true
    /\ PrimFloat.ltb (m (with_traffic d "Low")) (m (with_traffic d "Medium"))
       = true
    /\ PrimFloat.ltb (m (with_traffic d "Medium")) (m (with_traffic d "High"))
       = true
    /\ PrimFloat.ltb (m (with_driver d "Expert")) (m (with_driver d "Senior"))
       = true
    /\ PrimFloat.ltb (m (with_driver d "Senior")) (m (with_driver d "Junior"))
       = true
    /\ PrimFloat.leb 0x1.ccccccccccccdp-1 (m d) = true
    /\ PrimFloat.leb (m d) 0x1.3cccccccccccdp+1 = true.
Proof.
  intros d m. subst m.
  repeat match goal with |- _ /\ _ => split end;
    try apply multipliers_bounds;
    label_cases d; vm_compute; reflexivity.
Qed.

(** X24: rush hours are 8, 9, 17, 18 and 19 o'clock.  A traffic level drawn
    in a rush hour is never Low, so the penalty factor of the trip is at least
    1.08; every level that can be drawn is one the training script
    encodes. *)
Theorem rush_hour_traffic_is_never_low
  (random_hour : Z) (d : Generator.draw)
  (Htraffic : In (Generator.traffic d) (Sampling.traffic_choices random_hour)) :
  In (Generator.traffic d) Sampling.TRAFFIC
  /\ (Sampling.is_rush_hour random_hour = true
      <-> In random_hour [8; 9; 17; 18; 19])
  /\ (Sampling.is_rush_hour random_hour = true ->
      Generator.traffic d <> "Low"
      /\ PrimFloat.leb 0x1.147ae147ae148p+0 (Generator.multipliers d) = true).
Proof.
  split; [|split].
  - unfold Sampling.traffic_choices in Htraffic.
    destruct (Sampling.is_rush_hour random_hour); simpl in *; intuition.
  - unfold Sampling.is_rush_hour.
    rewrite orb_true_iff, !andb_true_iff, !Z.leb_le. simpl. lia.
  - intros Hrush. unfold Sampling.traffic_choices in Htraffic.
    rewrite Hrush in Htraffic. simpl in Htraffic.
    destruct Htraffic as [H | [H | []]]; symmetry in H;
      (split; [rewrite H; discriminate|]);
      unfold Generator.multipliers, Generator.scale_if; rewrite H;
      label_cases d; try discriminate; vm_compute; reflexivity.
Qed.

Lemma rush_hour_traffic_is_never_low_witness :
  Sampling.is_rush_hour 17 = true
  /\ PrimFloat.leb 0x1.147ae147ae148p+0
       (Generator.multipliers
          {| Generator.distance := 4; Generator.vehicle := "Bike";
             Generator.weather := "Sunny"; Generator.traffic := "Medium";
             Generator.driver_exp := "Expert"; Generator.noise := 0 |})
     = true.
Proof.
  split; [reflexivity|].
  refine (proj2 (proj2 (proj2 (rush_hour_traffic_is_never_low 17
     {| Generator.distance := 4; Generator.vehicle := "Bike";
        Generator.weather := "Sunny"; Generator.traffic := "Medium";
        Generator.driver_exp := "Expert"; Generator.noise := 0 |} _)) _)).
  - simpl. tauto.
  - reflexivity.
Defined.

End Penalties.
